(** * Spelling game: grading, scoring and attempt store

    A shallow embedding of [src/main.py] (a Flask application serving a
    spelling-variant quiz) and the properties its specification states.

    Modelling conventions
    - A Python [str] is a [string] whose characters are the code points
      0..255 (Latin-1); [lower] and [strip] follow CPython on that range.
    - A value decoded from JSON is a [json]; a JSON object (a Python
      [dict] with string keys) is a [gmap string json].
    - An uncaught Python exception is [Raise e] in the monad [res]; the
      rest of the request is then not executed.
    - A Python [float] is a binary64 [spec_float], with the operations of
      the standard library's executable IEEE-754 specification.
    - The request body is taken after decoding: ["quizData"] and
      ["answers"] are arrays of JSON objects whose fields hold arbitrary
      JSON values. *)

From Stdlib Require Import ZArith String Ascii List Lia.
From Stdlib Require Import Floats.SpecFloat.
From stdpp Require Import gmap strings list fin_maps.

#[local] Set Warnings "-register-all".
#[local] Open Scope Z_scope.

(** ** Exceptions *)

Inductive exn : Type :=
  | KeyError
  | IndexError
  | TypeError
  | AttributeError
  | ValueError
  | ZeroDivisionError
  | OverflowError
  | IntegrityError
  | ProgrammingError.

Inductive res (A : Type) : Type :=
  | Ok (a : A)
  | Raise (e : exn).
Arguments Ok {A} a.
Arguments Raise {A} e.

#[global] Instance res_ret : MRet res := fun A a => Ok a.
#[global] Instance res_bind : MBind res := fun A B f m =>
  match m with
  | Ok a => f a
  | Raise e => Raise e
  end.

Definition raises {A} (r : res A) : Prop := exists e, r = Raise e.

(** ** Strings: [str.lower] and [str.strip] *)

Module Str.

(** [str.isspace] on one code point below 256: TAB..CR, FS..US, space,
    NEL (0x85) and NBSP (0xA0). *)
Definition isspace (c : ascii) : bool :=
  let n := N_of_ascii c in
  ((9 <=? n) && (n <=? 13) || (28 <=? n) && (n <=? 32)
   || (n =? 133) || (n =? 160))%N.

(** [str.lower] on one code point below 256: A..Z and the Latin-1 capitals
    0xC0..0xDE (the multiplication sign 0xD7 apart) move up by 32. *)
Definition lower_char (c : ascii) : ascii :=
  let n := N_of_ascii c in
  if ((65 <=? n) && (n <=? 90)
      || (192 <=? n) && (n <=? 222) && negb (n =? 215))%N
  then ascii_of_N (n + 32) else c.

Fixpoint lower (s : string) : string :=
  match s with
  | EmptyString => EmptyString
  | String c s' => String (lower_char c) (lower s')
  end.

Fixpoint lstrip (s : string) : string :=
  match s with
  | EmptyString => EmptyString
  | String c s' => if isspace c then lstrip s' else s
  end.

Fixpoint rstrip (s : string) : string :=
  match s with
  | EmptyString => EmptyString
  | String c s' =>
      match rstrip s' with
      | EmptyString => if isspace c then EmptyString else String c EmptyString
      | r => String c r
      end
  end.

Definition strip (s : string) : string := rstrip (lstrip s).

(** Every character of the string is white space. *)
Fixpoint blank (s : string) : bool :=
  match s with
  | EmptyString => true
  | String c s' => isspace c && blank s'
  end.

(** A string that [strip] leaves alone: no white space at either end. *)
Definition trimmed (s : string) : Prop := strip s = s.

End Str.

(** ** JSON values *)

Inductive json : Type :=
  | JNull
  | JBool (b : bool)
  | JInt (z : Z)
  | JFloat (f : spec_float)
  | JStr (s : string)
  | JArr (l : list json)
  | JObj (m : gmap string json).

(** A decoded JSON object, a Python [dict] with [str] keys. *)
Abbreviation dict := (gmap string json).

(** Python truth value of a decoded JSON value. *)
Definition truthy (v : json) : bool :=
  match v with
  | JNull => false
  | JBool b => b
  | JInt z => negb (z =? 0)
  | JFloat (S754_zero _) => false
  | JFloat _ => true
  | JStr s => negb (String.eqb s "")
  | JArr l => negb (Nat.eqb (length l) 0)
  | JObj m => negb (Nat.eqb (size m) 0)
  end.

(** [d[k]] *)
Definition getitem (d : dict) (k : string) : res json :=
  match d !! k with
  | Some v => Ok v
  | None => Raise KeyError
  end.

(** [d.get(k, default)] *)
Definition get (d : dict) (k : string) (default : json) : json :=
  match d !! k with
  | Some v => v
  | None => default
  end.

(** [v in d] for a dict [d] with [str] keys: lists and dicts are not
    hashable; a number, a boolean or [None] equals no [str] key. *)
Definition contains (d : dict) (v : json) : res bool :=
  match v with
  | JStr k => Ok (bool_decide (is_Some (d !! k)))
  | JArr _ | JObj _ => Raise TypeError
  | _ => Ok false
  end.

(** A method of [str] ([strip], [lower]) called on a value: any other
    type has no such attribute. *)
Definition as_str (v : json) : res string :=
  match v with
  | JStr s => Ok s
  | _ => Raise AttributeError
  end.

(** [l[i]] on a list: [i] must be an [int] ([bool] is a subclass of
    [int]); negative indices count from the end. *)
Definition list_getitem {A} (l : list A) (i : json) : res A :=
  let at_ (z : Z) : res A :=
    let n := Z.of_nat (length l) in
    let z' := if z <? 0 then z + n else z in
    if (0 <=? z') && (z' <? n) then
      match l !! Z.to_nat z' with
      | Some a => Ok a
      | None => Raise IndexError
      end
    else Raise IndexError in
  match i with
  | JInt z => at_ z
  | JBool b => at_ (if b then 1 else 0)
  | _ => Raise TypeError
  end.

Arguments list_getitem : simpl never.

(** [d[k]] where the key is a run-time value. *)
Definition getitem_v (d : dict) (k : json) : res json :=
  match k with
  | JStr s => getitem d s
  | JArr _ | JObj _ => Raise TypeError
  | _ => Raise KeyError
  end.

(** ** Floats: [int / int], [float * int] and [round] *)

Module Float.

Definition prec : Z := 53.
Definition emax : Z := 1024.

(** [float(z)], exact for [|z| < 2^53]. *)
Definition of_int (z : Z) : spec_float := binary_normalize prec emax z 0 false.

Definition div : spec_float -> spec_float -> spec_float := SFdiv prec emax.
Definition mul : spec_float -> spec_float -> spec_float := SFmul prec emax.

(** [a / b] on two [int]s. CPython divides the two operands as doubles
    when both are below [2^53] in magnitude, which is the range of the
    counters here; the quotient is correctly rounded. *)
Definition true_div (a b : Z) : res spec_float :=
  if b =? 0 then Raise ZeroDivisionError else Ok (div (of_int a) (of_int b)).

(** Nearest integer of [m / 2^k], ties to the even one. *)
Definition half_even (m : Z) (k : positive) : Z :=
  let d := 2 ^ Zpos k in
  let q := m / d in
  match 2 * (m mod d) ?= d with
  | Lt => q
  | Gt => q + 1
  | Eq => if Z.even q then q else q + 1
  end.

(** [round(x)] with one argument: the nearest [int], ties to even. *)
Definition round (x : spec_float) : res Z :=
  match x with
  | S754_zero _ => Ok 0
  | S754_infinity _ => Raise OverflowError
  | S754_nan => Raise ValueError
  | S754_finite s m e =>
      let v := match e with
               | Z0 => Zpos m
               | Zpos _ => Z.shiftl (Zpos m) e
               | Zneg k => half_even (Zpos m) k
               end in
      Ok (if s then - v else v)
  end.

End Float.

(** The record of a right shift stands for a number at most [K]: its
    integer part is below [K], or is [K] with nothing shifted out. *)
Definition under (K : Z) (mrs : shr_record) : Prop :=
  0 <= shr_m mrs /\
  (shr_m mrs < K \/ (shr_m mrs = K /\ shr_r mrs = false /\ shr_s mrs = false)).

(** A float that is zero or positive, with exponent at most 0 and value
    at most the integer [K]. *)
Definition bounded_by (K : Z) (x : spec_float) : Prop :=
  match x with
  | S754_zero _ => True
  | S754_finite false m e => e <= 0 /\ Zpos m <= K * 2 ^ (- e)
  | _ => False
  end.

(** ** Answer grader: the loop of [check_answers] *)

(** The three variables the loop updates. *)
Record tally : Type := Tally {
  results : list dict;
  correct_count : Z;
  total_count : Z
}.

Definition tally0 : tally := Tally [] 0 0.

(** [answer_data.get("answer", "").strip()] *)
Definition stripped_answer (answer_data : dict) : res string :=
  s ← as_str (get answer_data "answer" (JStr ""));
  Ok (Str.strip s).

(** The comparison [user_answer == correct_answer.lower()] and the two
    updates that follow it; [result] already carries the correct answer
    and [total_count] is already incremented. *)
Definition compare_answer (user_answer : string) (correct_answer : json)
    (result : dict) (st : tally) : res tally :=
  expected ← as_str correct_answer;
  if String.eqb user_answer (Str.lower expected)
  then Ok (Tally (results st ++ [<["correct" := JBool true]> result])
                 (correct_count st + 1) (total_count st))
  else Ok (Tally (results st ++ [result]) (correct_count st) (total_count st)).

(** [country and country in word], as the [if] reads it. *)
Definition country_present (word : dict) (country : json) : res bool :=
  if truthy country then contains word country else Ok false.

(** One iteration of [for i, answer_data in enumerate(answers)]. *)
Definition grade_answer (quiz_data : list dict) (st : tally)
    (answer_data : dict) : res tally :=
  word_index ← getitem answer_data "wordIndex";
  let is_level1 := get answer_data "isLevel1" (JBool false) in
  user_answer ← (s ← stripped_answer answer_data; Ok (Str.lower s));
  word ← list_getitem quiz_data word_index;
  shown ← stripped_answer answer_data;
  let result : dict :=
    {[ "wordIndex" := word_index;
       "isLevel1" := is_level1;
       "correct" := JBool false;
       "correctAnswer" := JNull;
       "userAnswer" := JStr shown ]} in
  if truthy is_level1 then
    correct_answer ← getitem word "ca";
    let result := <["correctAnswer" := correct_answer]> result in
    let st := Tally (results st) (correct_count st) (total_count st + 1) in
    compare_answer user_answer correct_answer result st
  else
    let country := get answer_data "country" JNull in
    present ← country_present word country;
    if (present : bool) then
      correct_answer ← getitem_v word country;
      let result :=
        <["country" := country]> (<["correctAnswer" := correct_answer]> result) in
      let st := Tally (results st) (correct_count st) (total_count st + 1) in
      compare_answer user_answer correct_answer result st
    else
      Ok (Tally (results st ++ [result]) (correct_count st) (total_count st)).

(** A [for] loop whose body may raise: the body runs on each element in
    turn and the first exception ends the loop. *)
Fixpoint for_each {S X : Type} (body : S -> X -> res S) (st : S)
    (xs : list X) : res S :=
  match xs with
  | [] => Ok st
  | x :: rest => st' ← body st x; for_each body st' rest
  end.

(** The whole loop, from a given state of the three variables. *)
Definition grade_from (quiz_data : list dict) (st : tally)
    (answers : list dict) : res tally :=
  for_each (grade_answer quiz_data) st answers.

Definition grade (quiz_data answers : list dict) : res tally :=
  grade_from quiz_data tally0 answers.

(** [round((correct_count / total_count * 100)) if total_count > 0 else 0] *)
Definition percentage (correct_count total_count : Z) : res Z :=
  if 0 <? total_count then
    q ← Float.true_div correct_count total_count;
    Float.round (Float.mul q (Float.of_int 100))
  else Ok 0.


(** *** What an iteration leaves behind

    The result dict of a submission, written out: [verdict] is the value
    of ["correct"] and [correct_answer] that of ["correctAnswer"]. *)
Definition graded_result (a : dict) (wi : json) (ans : string)
    (verdict : bool) (correct_answer : json) : dict :=
  {[ "wordIndex" := wi;
     "isLevel1" := get a "isLevel1" (JBool false);
     "correct" := JBool verdict;
     "correctAnswer" := correct_answer;
     "userAnswer" := JStr (Str.strip ans) ]}.

(** The comparison the grader makes. *)
Definition same_spelling (ans expected : string) : bool :=
  String.eqb (Str.lower (Str.strip ans)) (Str.lower expected).

(** The three variables after a submission that counts. *)
Definition counted (st : tally) (result : dict) (verdict : bool) : tally :=
  Tally (results st ++ [result])
        (correct_count st + (if verdict then 1 else 0))
        (total_count st + 1).

(** The three variables after a submission that is passed over. *)
Definition passed_over (st : tally) (result : dict) : tally :=
  Tally (results st ++ [result]) (correct_count st) (total_count st).

(** A submission is graded as level 1. *)
Definition level1 (a : dict) : bool := truthy (get a "isLevel1" (JBool false)).

(** The country of a submission does not name a key of the question:
    it is missing or false ([None], [""], [0], [False], ...), or a string
    that is not a key, or a number or boolean (no key is one). *)
Definition not_a_key (word : dict) (country : json) : Prop :=
  truthy country = false \/
  (exists k, country = JStr k /\ word !! k = None) \/
  (exists z, country = JInt z) \/
  (exists b, country = JBool b) \/
  (exists f, country = JFloat f).

(** [result] is what grading the submission [a] appends to [results],
    whatever the three variables were. *)
Definition result_of (quiz_data : list dict) (a result : dict) : Prop :=
  forall st, exists st',
    grade_answer quiz_data st a = Ok st' /\
    results st' = results st ++ [result].

(** The counters are in order after [n] submissions. *)
Definition counters_ok (st : tally) (n : nat) : Prop :=
  0 <= correct_count st <= total_count st /\
  total_count st <= Z.of_nat n.


(** ** Word catalog *)

Record WordGroup : Type := {
  name : string;
  level : Z;
  words : list dict
}.

(** A catalog entry with the five country keys. *)
Definition variant (us ca gb au nz : string) : dict :=
  {[ "us" := JStr us; "ca" := JStr ca; "gb" := JStr gb;
     "au" := JStr au; "nz" := JStr nz ]}.

Definition WORD_GROUPS : list WordGroup := [
  {| name := "Group 1"; level := 1; words := [
       variant "canceled" "cancelled" "cancelled" "cancelled" "cancelled";
       variant "traveled" "travelled" "travelled" "travelled" "travelled" ] |};
  {| name := "Group 2"; level := 1; words := [
       variant "defense" "defence" "defence" "defence" "defence" ] |};
  {| name := "Group 3"; level := 1; words := [
       variant "learned" "learnt" "learnt" "learnt" "learnt";
       variant "dreamed" "dreamt" "dreamt" "dreamt" "dreamt" ] |};
  {| name := "Group 4"; level := 1; words := [
       variant "catalog" "catalogue" "catalogue" "catalogue" "catalogue";
       variant "dialog" "dialogue" "dialogue" "dialogue" "dialogue" ] |};
  {| name := "Group 5"; level := 2; words := [
       variant "tire" "tire" "tyre" "tyre" "tyre" ] |};
  {| name := "Group 6"; level := 2; words := [
       variant "colorize" "colourize" "colourise" "colourise" "colourise" ] |};
  {| name := "Group 7"; level := 3; words := [
       <["note" := JStr "computer program"]>
         (variant "program" "program" "program" "program" "program") ] |};
  {| name := "Group 8"; level := 3; words := [
       <["note" := JStr "concert program"]>
         (variant "program" "program" "programme" "program" "programme") ] |}
].

(** The five country codes of a catalog entry. *)
Definition COUNTRIES : list string := ["us"; "ca"; "gb"; "au"; "nz"].

(** The country key is there and holds a non-empty string. *)
Definition populated (word : dict) (k : string) : bool :=
  match word !! k with
  | Some (JStr s) => negb (String.eqb s "")
  | _ => false
  end.

Definition all_populated (word : dict) : bool :=
  forallb (populated word) COUNTRIES.

(** The four spellings outside the US are one and the same. *)
Definition same_outside_us (word : dict) : bool :=
  match word !! "ca", word !! "gb", word !! "au", word !! "nz" with
  | Some (JStr ca), Some (JStr gb), Some (JStr au), Some (JStr nz) =>
      String.eqb ca gb && String.eqb ca au && String.eqb ca nz
  | _, _, _, _ => false
  end.

(** ** Quiz generator *)

(** [enumerate(l)] *)
Definition enumerate {A} (l : list A) : list (Z * A) :=
  imap (fun i x => (Z.of_nat i, x)) l.

(** [len(l)] *)
Definition len {A} (l : list A) : Z := Z.of_nat (length l).

Section Generator.
(** The state of the pseudo-random generator and [random.randint]. *)
Context {rng : Type}.
Variable randint : rng -> Z -> Z -> Z * rng.

(** [random.randint(a, b)] raises [ValueError] on an empty range. *)
Definition checked_randint (g : rng) (a b : Z) : res (Z * rng) :=
  if b <? a then Raise ValueError else Ok (randint g a b).

(** The body of the loop of [select_words]; the state is the list
    built so far and the generator. *)
Definition select_word (st : list dict * rng) (item : Z * WordGroup)
    : res (list dict * rng) :=
  let '(selected_words, g) := st in
  let '(group_index, group) := item in
  '(random_index, g) ← checked_randint g 0 (len (words group) - 1);
  word ← list_getitem (words group) (JInt random_index);
  let word := <["groupIndex" := JInt group_index]> word in
  let word := <["level" := JInt (level group)]> word in
  Ok (selected_words ++ [word], g).

Definition select_words_in (groups : list WordGroup) (g : rng)
    : res (list dict * rng) :=
  for_each select_word ([], g) (enumerate groups).

Definition select_words (g : rng) : res (list dict * rng) :=
  select_words_in WORD_GROUPS g.

(** The dict that [generate_quiz_data] appends for one selected word. *)
Definition quiz_entry (quiz_data : list dict) (word : dict)
    : res (list dict) :=
  us ← getitem word "us";
  ca ← getitem word "ca";
  gb ← getitem word "gb";
  au ← getitem word "au";
  nz ← getitem word "nz";
  let note := get word "note" (JStr "") in
  lvl ← getitem word "level";
  Ok (quiz_data ++ [ ({[ "us" := us; "ca" := ca; "gb" := gb; "au" := au;
                        "nz" := nz; "note" := note; "level" := lvl ]} : dict) ]).

Definition generate_quiz_data_in (groups : list WordGroup) (g : rng)
    : res (list dict * rng) :=
  '(selected_words, g) ← select_words_in groups g;
  quiz_data ← for_each quiz_entry [] selected_words;
  Ok (quiz_data, g).

Definition generate_quiz_data (g : rng) : res (list dict * rng) :=
  generate_quiz_data_in WORD_GROUPS g.
End Generator.

(** The keys of a generated question. *)
Definition QUESTION_KEYS : gset string :=
  {[ "us"; "ca"; "gb"; "au"; "nz"; "note"; "level" ]}.

(** What [random.randint] promises: a value of the closed range. *)
Definition in_range {rng} (randint : rng -> Z -> Z -> Z * rng) : Prop :=
  forall g a b, a <= b -> a <= fst (randint g a b) <= b.

(** A group the generator can draw from: it has a word, and each of its
    words has the five country keys. *)
Definition drawable (group : WordGroup) : Prop :=
  words group <> [] /\
  Forall (fun word : dict => forall k, k ∈ COUNTRIES -> is_Some (word !! k))
         (words group).

(** [w] is a word of the group, with the two keys [select_words] adds. *)
Definition selected_from (item : Z * WordGroup) (w : dict) : Prop :=
  exists word, word ∈ words (snd item) /\
    w = <["level" := JInt (level (snd item))]>
          (<["groupIndex" := JInt (fst item)]> word).

(** [question] is the entry [generate_quiz_data] makes of a word of the
    group: its seven keys, the group's level, the word's spellings and
    note. *)
Definition question_of (group : WordGroup) (question : dict) : Prop :=
  exists word, word ∈ words group /\
    dom question = QUESTION_KEYS /\
    question !! "level" = Some (JInt (level group)) /\
    question !! "note" = Some (get word "note" (JStr "")) /\
    forall k, k ∈ COUNTRIES -> question !! k = word !! k.

(** ** Attempt store *)

(** A value stored in a column. *)
Inductive sqlval : Type :=
  | SqlNull
  | SqlInt (z : Z)
  | SqlReal (f : spec_float)
  | SqlText (s : string).

(** How the [sqlite3] module binds a Python value to a statement
    parameter: [None], [int] (64 bits), [float] and [str] are supported.
    Column type affinity is not modelled: a value is stored as bound. *)
Definition adapt (v : json) : res sqlval :=
  let int64 (z : Z) : res sqlval :=
    if (- 2 ^ 63 <=? z) && (z <? 2 ^ 63) then Ok (SqlInt z)
    else Raise OverflowError in
  match v with
  | JNull => Ok SqlNull
  | JBool b => int64 (if b then 1 else 0)
  | JInt z => int64 z
  | JFloat f => Ok (SqlReal f)
  | JStr s => Ok (SqlText s)
  | JArr _ | JObj _ => Raise ProgrammingError
  end.

(** A [NOT NULL] column. *)
Definition not_null (v : sqlval) : res sqlval :=
  match v with
  | SqlNull => Raise IntegrityError
  | _ => Ok v
  end.

Module Attempt.
(** A row of [quiz_attempts]. *)
Record row : Type := {
  id : Z;
  ip_address : string;
  timestamp : string;
  final_score : Z;
  correct_count : Z;
  total_count : Z
}.
End Attempt.

Module Answer.
(** A row of [quiz_answers]. *)
Record row : Type := {
  id : Z;
  attempt_id : Z;
  word_index : sqlval;
  is_level1 : Z;
  country : sqlval;
  user_answer : sqlval;
  correct_answer : sqlval;
  is_correct : Z
}.
End Answer.

(** The database file: the two tables, in insertion order, and the last
    identifier [AUTOINCREMENT] gave out in each. *)
Record database : Type := {
  quiz_attempts : list Attempt.row;
  quiz_answers : list Answer.row;
  last_attempt_id : Z;
  last_answer_id : Z
}.

(** [init_database] on a new file. *)
Definition init_database : database :=
  {| quiz_attempts := []; quiz_answers := [];
     last_attempt_id := 0; last_answer_id := 0 |}.

(** An open connection: [disk] is the committed content of the file, the
    one any other reader sees; [view] is what this connection sees, its
    own uncommitted inserts included. [seen] is a history variable: the
    content of the file after each statement this connection ran. *)
Record connection : Type := {
  disk : database;
  view : database;
  lastrowid : Z;
  seen : list database
}.

(** [sqlite3.connect(DATABASE)] *)
Definition connect (d : database) : connection :=
  {| disk := d; view := d; lastrowid := 0; seen := [] |}.

(** Code that runs on a connection and may raise; the connection
    survives the exception. *)
Definition sql (A : Type) : Type := connection -> res A * connection.

Definition sql_ret {A} (a : A) : sql A := fun c => (Ok a, c).

Definition sql_then {A B} (m : sql A) (f : A -> sql B) : sql B := fun c =>
  match m c with
  | (Ok a, c') => f a c'
  | (Raise e, c') => (Raise e, c')
  end.

Notation "x <~ m ;; k" := (sql_then m (fun x => k))
  (at level 100, m at next level, right associativity).

(** A statement has run: a reader of the file may look at it now. *)
Definition observed {A} (m : sql A) : sql A := fun c =>
  let '(r, c') := m c in
  (r, {| disk := disk c'; view := view c'; lastrowid := lastrowid c';
         seen := seen c' ++ [disk c'] |}).

(** [INSERT INTO quiz_attempts (...) VALUES (?, ?, ?, ?, ?)]; it opens a
    transaction when none is open, so only [view] changes. *)
Definition insert_attempt (ip_address timestamp : string)
    (percentage correct_count total_count : Z) : sql unit :=
  observed (fun c =>
    let v := view c in
    let new_id := last_attempt_id v + 1 in
    let r := {| Attempt.id := new_id;
                Attempt.ip_address := ip_address;
                Attempt.timestamp := timestamp;
                Attempt.final_score := percentage;
                Attempt.correct_count := correct_count;
                Attempt.total_count := total_count |} in
    (Ok (), {| disk := disk c;
               view := {| quiz_attempts := quiz_attempts v ++ [r];
                          quiz_answers := quiz_answers v;
                          last_attempt_id := new_id;
                          last_answer_id := last_answer_id v |};
               lastrowid := new_id;
               seen := seen c |})).

(** The parameters of the [INSERT INTO quiz_answers], as the tuple in
    the source evaluates them, then bound, then checked against the
    [NOT NULL] columns. *)
Definition answer_row (new_id attempt_id : Z) (result : dict)
    : res Answer.row :=
  word_index ← getitem result "wordIndex";
  is_level1 ← getitem result "isLevel1";
  let country := get result "country" JNull in
  user_answer ← getitem result "userAnswer";
  correct_answer ← getitem result "correctAnswer";
  is_correct ← getitem result "correct";
  word_index ← adapt word_index;
  country ← adapt country;
  user_answer ← adapt user_answer;
  correct_answer ← adapt correct_answer;
  word_index ← not_null word_index;
  user_answer ← not_null user_answer;
  correct_answer ← not_null correct_answer;
  Ok {| Answer.id := new_id;
        Answer.attempt_id := attempt_id;
        Answer.word_index := word_index;
        Answer.is_level1 := if truthy is_level1 then 1 else 0;
        Answer.country := country;
        Answer.user_answer := user_answer;
        Answer.correct_answer := correct_answer;
        Answer.is_correct := if truthy is_correct then 1 else 0 |}.

(** [INSERT INTO quiz_answers (...) VALUES (?, ?, ?, ?, ?, ?, ?)]; a
    statement that fails changes nothing. *)
Definition insert_answer (attempt_id : Z) (result : dict) : sql unit :=
  observed (fun c =>
    let v := view c in
    let new_id := last_answer_id v + 1 in
    match answer_row new_id attempt_id result with
    | Raise e => (Raise e, c)
    | Ok r =>
        (Ok (), {| disk := disk c;
                   view := {| quiz_attempts := quiz_attempts v;
                              quiz_answers := quiz_answers v ++ [r];
                              last_attempt_id := last_attempt_id v;
                              last_answer_id := new_id |};
                   lastrowid := new_id;
                   seen := seen c |})
    end).

(** [conn.commit()] *)
Definition commit : sql unit :=
  observed (fun c =>
    (Ok (), {| disk := view c; view := view c; lastrowid := lastrowid c;
               seen := seen c |})).

(** [for result in results: cursor.execute(...)] *)
Fixpoint insert_answers (attempt_id : Z) (results : list dict) : sql unit :=
  match results with
  | [] => sql_ret ()
  | result :: rest =>
      _ <~ insert_answer attempt_id result ;;
      insert_answers attempt_id rest
  end.

(** The body of [with closing(get_db_connection()) as conn] in
    [check_answers]. *)
Definition save_attempt (ip_address timestamp : string) (percentage : Z)
    (graded : tally) : sql Z :=
  _ <~ insert_attempt ip_address timestamp percentage
         (correct_count graded) (total_count graded) ;;
  fun c =>
    let attempt_id := lastrowid c in
    (_ <~ insert_answers attempt_id (results graded) ;;
     _ <~ commit ;;
     sql_ret attempt_id) c.

(** [with closing(get_db_connection()) as conn: body]: the connection is
    closed whether the body raises or not, and what was not committed is
    lost; the file keeps [disk]. This is the content of the tables. A
    lock on the file that a connection left on an exception may hold for
    a while, and the [sqlite3.OperationalError] a later writer can then
    meet, are not part of the model: nothing below says that the
    database accepts a transaction, only what it holds when it did and
    when it did not. *)
Definition with_closing {A} (d : database) (body : sql A)
    : res A * connection :=
  body (connect d).

(** *** Statistics *)

Record statistics : Type := {
  total_attempts : Z;
  average_score : Z;
  perfect_scores : Z
}.

Definition sum (xs : list Z) : Z := foldr Z.add 0 xs.

(** [SELECT AVG(final_score)]: [NULL] on no row, else the sum of the
    integers over their number, as a double. *)
Definition sql_avg (xs : list Z) : option spec_float :=
  match xs with
  | [] => None
  | _ => Some (Float.div (Float.of_int (sum xs)) (Float.of_int (len xs)))
  end.

(** [round(avg_result) if avg_result else 0]: [None] and [0.0] are
    false. *)
Definition rounded_average (avg_result : option spec_float) : res Z :=
  match avg_result with
  | None => Ok 0
  | Some f => if truthy (JFloat f) then Float.round f else Ok 0
  end.

Definition scores (d : database) : list Z :=
  map Attempt.final_score (quiz_attempts d).

Definition get_statistics (d : database) : res statistics :=
  let total_attempts := len (quiz_attempts d) in
  let avg_result := sql_avg (scores d) in
  average_score ← rounded_average avg_result;
  let perfect_scores := len (filter (fun s => s = 100) (scores d)) in
  Ok {| total_attempts := total_attempts;
        average_score := average_score;
        perfect_scores := perfect_scores |}.

(** ** The request handler [check_answers] *)

Record response : Type := {
  resp_results : list dict;
  resp_correct : Z;
  resp_total : Z;
  resp_percentage : Z;
  resp_statistics : statistics
}.

(** [check_answers] on the database [d]; [ip_address] is the client
    address the handler worked out and [timestamp] the clock reading. An
    exception leaves the handler at once; the database returned is the
    file as the request leaves it. *)
Definition check_answers (d : database) (ip_address timestamp : string)
    (quiz_data answers : list dict) : res response * database :=
  match grade quiz_data answers with
  | Raise e => (Raise e, d)
  | Ok graded =>
      match percentage (correct_count graded) (total_count graded) with
      | Raise e => (Raise e, d)
      | Ok pct =>
          let '(saved, c) :=
            with_closing d (save_attempt ip_address timestamp pct graded) in
          let d' := disk c in
          match saved with
          | Raise e => (Raise e, d')
          | Ok _ =>
              match get_statistics d' with
              | Raise e => (Raise e, d')
              | Ok stats =>
                  (Ok {| resp_results := results graded;
                         resp_correct := correct_count graded;
                         resp_total := total_count graded;
                         resp_percentage := pct;
                         resp_statistics := stats |}, d')
              end
          end
      end
  end.


(** *** What a request leaves in the database *)

(** The row [insert_attempt] adds to the database [d]. *)
Definition attempt_row (d : database) (ip_address timestamp : string)
    (percentage : Z) (graded : tally) : Attempt.row :=
  {| Attempt.id := last_attempt_id d + 1;
     Attempt.ip_address := ip_address;
     Attempt.timestamp := timestamp;
     Attempt.final_score := percentage;
     Attempt.correct_count := correct_count graded;
     Attempt.total_count := total_count graded |}.

(** The rows of the results, numbered from [next_id]. *)
Fixpoint answer_rows (next_id attempt_id : Z) (results : list dict)
    : res (list Answer.row) :=
  match results with
  | [] => Ok []
  | result :: rest =>
      row ← answer_row next_id attempt_id result;
      rows ← answer_rows (next_id + 1) attempt_id rest;
      Ok (row :: rows)
  end.

(** The database [d] with an attempt and its answer rows. *)
Definition saved (d : database) (attempt : Attempt.row)
    (rows : list Answer.row) : database :=
  {| quiz_attempts := quiz_attempts d ++ [attempt];
     quiz_answers := quiz_answers d ++ rows;
     last_attempt_id := last_attempt_id d + 1;
     last_answer_id := last_answer_id d + len rows |}.

(** The answer rows of an attempt. *)
Definition answers_of (d : database) (attempt_id : Z) : list Answer.row :=
  filter (fun r => Answer.attempt_id r = attempt_id) (quiz_answers d).

Definition has_attempt (d : database) (attempt_id : Z) : Prop :=
  exists r, r ∈ quiz_attempts d /\ Attempt.id r = attempt_id.

(** Every answer row belongs to an attempt that is there. *)
Definition referential (d : database) : Prop :=
  forall r, r ∈ quiz_answers d -> has_attempt d (Answer.attempt_id r).

(** No row refers to an attempt identifier not given out yet. *)
Definition sequenced (d : database) : Prop :=
  (forall r, r ∈ quiz_attempts d -> Attempt.id r <= last_attempt_id d) /\
  (forall r, r ∈ quiz_answers d -> Answer.attempt_id r <= last_attempt_id d).

(** Every recorded score is a percentage, and the attempts are few
    enough for the sum of their scores to be exact as a double. *)
Definition scores_ok (d : database) : Prop :=
  Forall (fun s => 0 <= s <= 100) (scores d) /\
  100 * len (quiz_attempts d) < 2 ^ 53.

(** The response of a request, when there is one. *)
Definition response_of (r : res response * database) : response :=
  match fst r with
  | Ok resp => resp
  | Raise _ =>
      {| resp_results := []; resp_correct := 0; resp_total := 0;
         resp_percentage := 0;
         resp_statistics := {| total_attempts := 0; average_score := 0;
                               perfect_scores := 0 |} |}
  end.

(** The quiz of a run of the generator, when there is one. *)
Definition quiz_of {rng} (r : res (list dict * rng)) : list dict :=
  match r with
  | Ok (quiz_data, _) => quiz_data
  | Raise _ => []
  end.

(** The score of a response, when there is one. *)
Definition score_of (r : res response * database) : option (Z * Z * Z) :=
  match fst r with
  | Ok resp => Some (resp_correct resp, resp_total resp, resp_percentage resp)
  | Raise _ => None
  end.

(** ** Sample requests

    The scenario of the specification: a question of level 1 and one of
    level 2, as [generate_quiz_data] makes them. *)
Definition question_cancelled : dict :=
  {[ "us" := JStr "canceled"; "ca" := JStr "cancelled";
     "gb" := JStr "cancelled"; "au" := JStr "cancelled";
     "nz" := JStr "cancelled"; "note" := JStr ""; "level" := JInt 1 ]}.

Definition question_tyre : dict :=
  {[ "us" := JStr "tire"; "ca" := JStr "tire"; "gb" := JStr "tyre";
     "au" := JStr "tyre"; "nz" := JStr "tyre"; "note" := JStr "";
     "level" := JInt 2 ]}.

Definition sample_quiz : list dict := [question_cancelled; question_tyre].

Definition answer_cancelled : dict :=
  {[ "wordIndex" := JInt 0; "isLevel1" := JBool true;
     "answer" := JStr "Cancelled " ]}.

Definition answer_tyre : dict :=
  {[ "wordIndex" := JInt 1; "isLevel1" := JBool false;
     "country" := JStr "gb"; "answer" := JStr "tyre" ]}.

(** The US spelling, given for a question of level 1. *)
Definition answer_canceled : dict :=
  {[ "wordIndex" := JInt 0; "isLevel1" := JBool true;
     "answer" := JStr "canceled" ]}.

(** A submission that names the key ["note"] as its country. *)
Definition answer_note : dict :=
  {[ "wordIndex" := JInt 1; "isLevel1" := JBool false;
     "country" := JStr "note"; "answer" := JStr "" ]}.

(** A submission without a country. *)
Definition answer_no_country : dict :=
  {[ "wordIndex" := JInt 1; "isLevel1" := JBool false;
     "answer" := JStr "tyre" ]}.



(** A generator that draws the lower bound, then the upper bound, and
    so on in turn. *)
Definition alternate (g : bool) (a b : Z) : Z * bool :=
  (if g then a else b, negb g).

(** The three variables after grading the two answers of the scenario. *)
Definition sample_graded : tally :=
  Tally [ graded_result answer_cancelled (JInt 0) "Cancelled " true
            (JStr "cancelled");
          <["country" := JStr "gb"]>
            (graded_result answer_tyre (JInt 1) "tyre" true (JStr "tyre")) ]
        2 2.

Definition sample_ip : string := "203.0.113.7".
Definition sample_time : string := "2024-05-01T12:00:00".

(** The scenario, posted to a new database. *)
Definition sample_request : res response * database :=
  check_answers init_database sample_ip sample_time sample_quiz
    [answer_cancelled; answer_tyre].

(** The variant of the catalog behind [question_tyre]. *)
Definition variant_tyre : dict := variant "tire" "tire" "tyre" "tyre" "tyre".

Definition group_tyre : WordGroup :=
  {| name := "Group 5"; level := 2; words := [variant_tyre] |}.

(** ** The rest of the handlers *)

(** [LEVEL_DESCRIPTIONS] *)
Definition LEVEL_DESCRIPTIONS : gmap Z string :=
  {[ 1 := "Words spelled the same in every country other than the US";
     2 := "Words spelled differently in non-US countries";
     3 := "Words spelled differently depending on context" ]}.

(** [get_quiz]: the dict handed to [jsonify]. *)
Definition get_quiz {rng} (randint : rng -> Z -> Z -> Z * rng) (g : rng)
    : res (list dict * gmap Z string * rng) :=
  '(quiz_data, g) ← generate_quiz_data randint g;
  Ok (quiz_data, LEVEL_DESCRIPTIONS, g).

(** [s.split(',')[0]]: what stands before the first comma. *)
Fixpoint before_comma (s : string) : string :=
  match s with
  | EmptyString => EmptyString
  | String c s' =>
      if Ascii.eqb c "," then EmptyString else String c (before_comma s')
  end.

(** The client address of [check_answers]: [request.remote_addr], or the
    first entry of the [X-Forwarded-For] header when the header is there
    and not empty. *)
Definition client_address (remote_addr : string)
    (forwarded_for : option string) : string :=
  match forwarded_for with
  | Some header =>
      if negb (String.eqb header "")
      then Str.strip (before_comma header)
      else remote_addr
  | None => remote_addr
  end.

(** [check_answers] as the route runs it, from the connection address
    and the header. *)
Definition post_check (d : database) (remote_addr : string)
    (forwarded_for : option string) (timestamp : string)
    (quiz_data answers : list dict) : res response * database :=
  check_answers d (client_address remote_addr forwarded_for) timestamp
    quiz_data answers.


(** *** Reading the results and the rows back *)

(** The result was counted: it carries a correct answer. *)
Definition is_counted (result : dict) : bool :=
  match result !! "correctAnswer" with
  | Some JNull | None => false
  | Some _ => true
  end.

(** The result is marked correct. *)
Definition is_right (result : dict) : bool :=
  match result !! "correct" with
  | Some v => truthy v
  | None => false
  end.

(** [len] of the elements that pass a test. *)
Definition count {A} (f : A -> bool) (l : list A) : Z :=
  len (List.filter f l).

(** Two tallies one after the other: the results of the second follow
    those of the first and the counters add up. *)
Definition tally_app (st g : tally) : tally :=
  Tally (results st ++ results g)
        (correct_count st + correct_count g)
        (total_count st + total_count g).


(** *** The databases a server can reach *)

(** From a new file, by any requests of fewer than [2^53] submissions
    each, answered or not. *)
Inductive reachable : database -> Prop :=
  | reach_init : reachable init_database
  | reach_request d ip_address timestamp quiz_data answers r d' :
      reachable d ->
      Z.of_nat (length answers) < 2 ^ 53 ->
      check_answers d ip_address timestamp quiz_data answers = (r, d') ->
      reachable d'.

(** The rows of an attempt that are marked correct. *)
Definition right_answers_of (d : database) (attempt_id : Z)
    : list Answer.row :=
  filter (fun r => Answer.is_correct r = 1) (answers_of d attempt_id).

(** What the tables say of one another: the identifiers of the rows of
    each table are 1, 2, ... in order of insertion; every answer row has
    its attempt; and each attempt records the percentage of its two
    counters, which are the number of its answer rows and of those marked
    correct. *)
Definition consistent (d : database) : Prop :=
  last_attempt_id d = len (quiz_attempts d) /\
  (forall i r, quiz_attempts d !! i = Some r ->
     Attempt.id r = Z.of_nat i + 1) /\
  last_answer_id d = len (quiz_answers d) /\
  (forall i r, quiz_answers d !! i = Some r ->
     Answer.id r = Z.of_nat i + 1) /\
  referential d /\
  (forall r, r ∈ quiz_attempts d ->
     Attempt.total_count r = len (answers_of d (Attempt.id r)) /\
     Attempt.correct_count r = len (right_answers_of d (Attempt.id r)) /\
     percentage (Attempt.correct_count r) (Attempt.total_count r)
       = Ok (Attempt.final_score r) /\
     0 <= Attempt.final_score r <= 100).

(** A float that is zero or positive, with exponent at most [-j] and
    value at most [K / 2^j]. *)
Definition bounded_dyadic (K j : Z) (x : spec_float) : Prop :=
  match x with
  | S754_zero _ => True
  | S754_finite false m e => e <= - j /\ Zpos m <= K * 2 ^ (- e - j)
  | _ => False
  end.

(** The value is a string. *)
Definition is_str (v : json) : bool :=
  match v with
  | JStr _ => true
  | _ => false
  end.

(** The value can index a list: an [int] or a [bool]. *)
Definition is_index (v : json) : bool :=
  match v with
  | JInt _ | JBool _ => true
  | _ => false
  end.

(** The [INSERT] of a result succeeds, whatever the identifiers. *)
Definition storable (result : dict) : Prop :=
  forall next_id attempt_id,
    exists row, answer_row next_id attempt_id result = Ok row.

(** The spelling of a word under a key is a non-empty string with no
    white space at either end. *)
Definition clean_spelling (word : dict) (k : string) : bool :=
  match word !! k with
  | Some (JStr s) => String.eqb (Str.strip s) s && negb (String.eqb s "")
  | _ => false
  end.

(** The submission gives back a spelling of the quiz: it points at a
    question by its position and answers with the string the question
    holds for a country, in any letter case and with any white space
    around it; it is level 1 and the country is Canada, or it is not
    level 1 and names the country. *)
Definition echoes (quiz_data : list dict) (a : dict) : Prop :=
  exists (i : nat) question c s l v r,
    a !! "wordIndex" = Some (JInt (Z.of_nat i)) /\
    quiz_data !! i = Some question /\
    c ∈ COUNTRIES /\
    question !! c = Some (JStr s) /\
    get a "answer" (JStr "") = JStr (l +:+ v +:+ r) /\
    Str.blank l = true /\ Str.blank r = true /\
    Str.lower v = Str.lower s /\
    ((level1 a = true /\ c = "ca") \/
     (level1 a = false /\ get a "country" JNull = JStr c)).

(** *** More of the scenario *)

(** A submission whose answer is a number. *)
Definition answer_number : dict :=
  {[ "wordIndex" := JInt 0; "isLevel1" := JBool true; "answer" := JInt 7 ]}.

(** A submission that names the key ["level"] as its country. *)
Definition answer_level : dict :=
  {[ "wordIndex" := JInt 1; "isLevel1" := JBool false;
     "country" := JStr "level"; "answer" := JStr "2" ]}.

(** A submission that counts its question from the end of the quiz. *)
Definition answer_from_end : dict :=
  {[ "wordIndex" := JInt (-2); "isLevel1" := JBool true;
     "answer" := JStr "cancelled" ]}.

(** The [gb] submission for the fifth question of a generated quiz. *)
Definition answer_fifth : dict :=
  {[ "wordIndex" := JInt 4; "isLevel1" := JBool false;
     "country" := JStr "gb"; "answer" := JStr "TYRE" ]}.

(** A header set by two proxies, and the address of the last one. *)
Definition sample_header : string := "198.51.100.2 , 10.0.0.1".
Definition sample_proxy : string := "10.0.0.1".

(** The scenario, posted through the proxies. *)
Definition sample_post : res response * database :=
  post_check init_database sample_proxy (Some sample_header) sample_time
    sample_quiz [answer_cancelled; answer_tyre].

(** The attempt the scenario stores. *)
Definition sample_attempt : Attempt.row :=
  attempt_row init_database sample_ip sample_time 100 sample_graded.

(** The scenario followed by a submission that names no country. *)
Definition sample_failed : res response * database :=
  check_answers init_database sample_ip sample_time sample_quiz
    [answer_cancelled; answer_tyre; answer_no_country].

(** A quiz as the generator returns it, and two submissions for it. *)
Definition sample_generated : list dict :=
  quiz_of (generate_quiz_data alternate true).

Definition sample_echo : res response * database :=
  check_answers init_database sample_ip sample_time sample_generated
    [answer_cancelled; answer_fifth].

(** A group without words. *)
Definition group_empty : WordGroup :=
  {| name := "Group 9"; level := 3; words := [] |}.

(** *** White space at the ends of a string *)

(** The first character is white space. *)
Definition starts_with_space (s : string) : bool :=
  match s with
  | EmptyString => false
  | String c _ => Str.isspace c
  end.

(** The last character is white space. *)
Fixpoint ends_with_space (s : string) : bool :=
  match s with
  | EmptyString => false
  | String c EmptyString => Str.isspace c
  | String _ s' => ends_with_space s'
  end.

(** *** Quizzes a client can send *)

(** A question whose [ca] spelling ends with a blank. *)
Definition question_spaced : dict :=
  {[ "us" := JStr "canceled"; "ca" := JStr "cancelled ";
     "gb" := JStr "cancelled"; "au" := JStr "cancelled";
     "nz" := JStr "cancelled"; "note" := JStr ""; "level" := JInt 1 ]}.

(** The [ca] spelling of [question_spaced], as it stands. *)
Definition answer_spaced : dict :=
  {[ "wordIndex" := JInt 0; "isLevel1" := JBool true;
     "answer" := JStr "cancelled " ]}.

(** A question whose US spelling differs from the others by a capital. *)
Definition question_cased : dict :=
  {[ "us" := JStr "Cancelled"; "ca" := JStr "cancelled";
     "gb" := JStr "cancelled"; "au" := JStr "cancelled";
     "nz" := JStr "cancelled"; "note" := JStr ""; "level" := JInt 1 ]}.

(** The US spelling of [question_cased]. *)
Definition answer_cased : dict :=
  {[ "wordIndex" := JInt 0; "isLevel1" := JBool true;
     "answer" := JStr "Cancelled" ]}.

(** The US spelling of the first question of the scenario, in capitals
    and with white space around it. *)
Definition answer_us_padded : dict :=
  {[ "wordIndex" := JInt 0; "isLevel1" := JBool true;
     "answer" := JStr " CANCELED " ]}.

(** The first group of the catalog and its first word. *)
Definition variant_cancelled : dict :=
  variant "canceled" "cancelled" "cancelled" "cancelled" "cancelled".

Definition group_cancelled : WordGroup :=
  {| name := "Group 1"; level := 1; words := [
       variant_cancelled;
       variant "traveled" "travelled" "travelled" "travelled" "travelled" ] |}.

(** An answer with white space on both sides, and the request that
    sends it. *)
Definition answer_padded : dict :=
  {[ "wordIndex" := JInt 0; "isLevel1" := JBool true;
     "answer" := JStr "  Cancelled " ]}.

Definition sample_padded : res response * database :=
  check_answers init_database sample_ip sample_time sample_quiz
    [answer_padded].

(** A second request on the database the scenario leaves: one wrong
    answer. *)
Definition sample_second : res response * database :=
  check_answers (snd sample_request) sample_ip sample_time sample_quiz
    [answer_canceled].
(** * Properties *)

(** ** Strings *)

Module StrFacts.
Import Str.

Lemma app_nil s : "" +:+ s = s.
Proof. reflexivity. Qed.

Lemma app_cons c s t : String c s +:+ t = String c (s +:+ t).
Proof. reflexivity. Qed.

Lemma isspace_lower_char c : isspace (lower_char c) = isspace c.
Proof. destruct c as [[] [] [] [] [] [] [] []]; reflexivity. Qed.

Lemma lstrip_lower s : lstrip (lower s) = lower (lstrip s).
Proof.
  induction s as [|c s IH]; simpl; [done |].
  rewrite isspace_lower_char. by destruct (isspace c).
Qed.

Lemma rstrip_lower s : rstrip (lower s) = lower (rstrip s).
Proof.
  induction s as [|c s IH]; simpl; [done |].
  rewrite IH, isspace_lower_char.
  destruct (rstrip s); simpl; [by destruct (isspace c) | done].
Qed.

Lemma strip_lower s : strip (lower s) = lower (strip s).
Proof. unfold strip. by rewrite lstrip_lower, rstrip_lower. Qed.

Lemma lstrip_blank_app l s : blank l = true -> lstrip (l +:+ s) = lstrip s.
Proof.
  induction l as [|c l IH]; [done |].
  rewrite app_cons. simpl. intros [Hc Hl]%andb_prop. rewrite Hc. auto.
Qed.

Lemma lstrip_blank r : blank r = true -> lstrip r = "".
Proof.
  induction r as [|c r IH]; simpl; [done |].
  intros [Hc Hr]%andb_prop. by rewrite Hc, IH.
Qed.

Lemma rstrip_blank r : blank r = true -> rstrip r = "".
Proof.
  induction r as [|c r IH]; simpl; [done |].
  intros [Hc Hr]%andb_prop. by rewrite IH, Hc.
Qed.

Lemma rstrip_app_blank s r : blank r = true -> rstrip (s +:+ r) = rstrip s.
Proof.
  intros Hr. induction s as [|c s IH].
  - rewrite app_nil. by apply rstrip_blank.
  - rewrite app_cons. simpl. by rewrite IH.
Qed.

Lemma lstrip_app s r :
  lstrip s <> "" -> lstrip (s +:+ r) = lstrip s +:+ r.
Proof.
  induction s as [|c s IH]; [done |].
  rewrite app_cons. simpl. destruct (isspace c); auto.
Qed.

Lemma lstrip_app_blank s r :
  lstrip s = "" -> blank r = true -> lstrip (s +:+ r) = "".
Proof.
  intros Hs Hr. induction s as [|c s IH].
  - rewrite app_nil. by apply lstrip_blank.
  - rewrite app_cons. simpl in *. destruct (isspace c); [auto | done].
Qed.

(** White space around a string does not change what [strip] returns. *)
Lemma strip_padded l s r :
  blank l = true -> blank r = true -> strip (l +:+ s +:+ r) = strip s.
Proof.
  intros Hl Hr. unfold strip. rewrite lstrip_blank_app by done.
  destruct (decide (lstrip s = "")) as [E|E].
  - by rewrite E, lstrip_app_blank.
  - rewrite lstrip_app by done. by apply rstrip_app_blank.
Qed.

Lemma lstrip_decomp s : exists l, s = l +:+ lstrip s /\ blank l = true.
Proof.
  induction s as [|c s [l [E Hl]]]; simpl.
  - by exists "".
  - destruct (isspace c) eqn:Hc.
    + exists (String c l). rewrite app_cons, <- E. simpl. by rewrite Hc.
    + by exists "".
Qed.

Lemma rstrip_decomp s : exists r, s = rstrip s +:+ r /\ blank r = true.
Proof.
  induction s as [|c s [r [E Hr]]]; simpl.
  - by exists "".
  - destruct (rstrip s) eqn:Hs.
    + rewrite app_nil in E. subst r. destruct (isspace c) eqn:Hc.
      * exists (String c s). rewrite app_nil. simpl. by rewrite Hc.
      * by exists s.
    + exists r. by rewrite app_cons, <- E.
Qed.

(** [strip] only drops white space, at the two ends: what is left is a
    slice of the string, every character as it was. *)
Lemma strip_decomp s :
  exists l r, s = l +:+ strip s +:+ r /\ blank l = true /\ blank r = true.
Proof.
  destruct (lstrip_decomp s) as [l [El Hl]].
  destruct (rstrip_decomp (lstrip s)) as [r [Er Hr]].
  exists l, r. unfold strip. by rewrite <- Er, <- El.
Qed.

(** A padded variant in another letter case compares equal. *)
Lemma lower_strip_variant l v r s :
  blank l = true -> blank r = true -> lower v = lower s -> trimmed s ->
  lower (strip (l +:+ v +:+ r)) = lower s.
Proof.
  intros Hl Hr Hv Hs. rewrite strip_padded by done.
  rewrite <- strip_lower, Hv, strip_lower. by rewrite Hs.
Qed.

End StrFacts.

Module EdgeFacts.

Lemma lstrip_starts s : starts_with_space (Str.lstrip s) = false.
Proof.
  induction s as [|c s IH]; simpl; [done |].
  destruct (Str.isspace c) eqn:Hc; [done |]. simpl. done.
Qed.

Lemma rstrip_ends s : ends_with_space (Str.rstrip s) = false.
Proof.
  induction s as [|c s IH]; simpl; [done |].
  destruct (Str.rstrip s) as [|c' r] eqn:Hr.
  - destruct (Str.isspace c) eqn:Hc; simpl; done.
  - exact IH.
Qed.

Lemma rstrip_starts s :
  starts_with_space s = false -> starts_with_space (Str.rstrip s) = false.
Proof.
  destruct s as [|c s]; simpl; [done |]. intros Hc.
  destruct (Str.rstrip s); [by rewrite Hc | done].
Qed.

(** What [strip] returns has no white space at either end. *)
Lemma strip_edges s :
  starts_with_space (Str.strip s) = false /\
  ends_with_space (Str.strip s) = false.
Proof.
  unfold Str.strip. split.
  - apply rstrip_starts, lstrip_starts.
  - apply rstrip_ends.
Qed.

End EdgeFacts.

(** ** The grading loop *)

Module GradeFacts.

(** Two dicts with the same entries are the same dict. *)
Ltac same_dict :=
  apply map_eq; intros ?;
  repeat (rewrite lookup_insert; case_decide; simplify_eq; try done).

Lemma compare_answer_counted user_answer expected result st :
  compare_answer user_answer (JStr expected) result st =
  Ok (let verdict := String.eqb user_answer (Str.lower expected) in
      Tally (results st ++ [if verdict then <["correct" := JBool true]> result
                            else result])
            (correct_count st + (if verdict then 1 else 0)) (total_count st)).
Proof.
  unfold compare_answer. simpl.
  destruct (String.eqb _ _); simpl; [done |].
  do 2 f_equal. lia.
Qed.

Lemma compare_answer_str user_answer correct_answer result st st' :
  compare_answer user_answer correct_answer result st = Ok st' ->
  exists expected, correct_answer = JStr expected.
Proof. destruct correct_answer; try done. eauto. Qed.

(** A level-1 submission whose question has a string under ["ca"]. *)
Lemma grade_level1 quiz_data st a wi ans word expected :
  a !! "wordIndex" = Some wi ->
  get a "answer" (JStr "") = JStr ans ->
  list_getitem quiz_data wi = Ok word ->
  level1 a = true ->
  word !! "ca" = Some (JStr expected) ->
  grade_answer quiz_data st a =
  Ok (let verdict := same_spelling ans expected in
      counted st (graded_result a wi ans verdict (JStr expected)) verdict).
Proof.
  unfold level1. intros Hwi Hans Hword Hl1 Hca.
  unfold grade_answer, getitem, stripped_answer.
  rewrite Hwi, Hans; simpl. rewrite Hword; simpl. rewrite Hl1, Hca; simpl.
  rewrite compare_answer_counted. simpl. unfold counted, same_spelling.
  destruct (String.eqb _ _); simpl; do 2 f_equal.
  all: f_equal; unfold graded_result; same_dict.
Qed.

(** A submission that is not level 1 and names a key of the question. *)
Lemma grade_country quiz_data st a wi ans word country expected :
  a !! "wordIndex" = Some wi ->
  get a "answer" (JStr "") = JStr ans ->
  list_getitem quiz_data wi = Ok word ->
  level1 a = false ->
  get a "country" JNull = JStr country ->
  country <> "" ->
  word !! country = Some (JStr expected) ->
  grade_answer quiz_data st a =
  Ok (let verdict := same_spelling ans expected in
      counted st (<["country" := JStr country]>
                    (graded_result a wi ans verdict (JStr expected))) verdict).
Proof.
  unfold level1. intros Hwi Hans Hword Hl1 Hc Hne Hk.
  unfold grade_answer, getitem, stripped_answer, country_present.
  rewrite Hwi, Hans; simpl. rewrite Hword; simpl. rewrite Hl1, Hc; simpl.
  assert (String.eqb country "" = false) as -> by by apply String.eqb_neq.
  simpl. rewrite Hk. rewrite bool_decide_eq_true_2 by eauto. simpl.
  unfold getitem. rewrite Hk. simpl.
  rewrite compare_answer_counted. simpl. unfold counted, same_spelling.
  destruct (String.eqb _ _); simpl; do 2 f_equal.
  all: f_equal; unfold graded_result; same_dict.
Qed.

(** A submission that is not level 1 and whose country is false or not
    a key of the question. *)
Lemma grade_passed_over quiz_data st a wi ans word :
  a !! "wordIndex" = Some wi ->
  get a "answer" (JStr "") = JStr ans ->
  list_getitem quiz_data wi = Ok word ->
  level1 a = false ->
  country_present word (get a "country" JNull) = Ok false ->
  grade_answer quiz_data st a =
  Ok (passed_over st (graded_result a wi ans false JNull)).
Proof.
  unfold level1. intros Hwi Hans Hword Hl1 Hc.
  unfold grade_answer, getitem, stripped_answer.
  rewrite Hwi, Hans; simpl. rewrite Hword; simpl. rewrite Hl1, Hc; simpl.
  done.
Qed.

Lemma country_present_true word c :
  country_present word c = Ok true ->
  exists k, c = JStr k /\ k <> "" /\ is_Some (word !! k).
Proof.
  unfold country_present. destruct (truthy c) eqn:Ht; [|done].
  destruct c; simpl in *; try done.
  intros [= H%bool_decide_eq_true]. exists s. split; [done |]. split; [|done].
  intros ->. done.
Qed.

(** [country and country in word] is false, without an exception,
    exactly when the country names no key of the question. *)
Lemma country_present_false word c :
  country_present word c = Ok false <-> not_a_key word c.
Proof.
  unfold country_present, not_a_key. split.
  - destruct (truthy c) eqn:Ht; [|by left].
    destruct c as [|b|z|f|k|l|m]; simpl in *; try done; intros H.
    + right. right. right. left. by eexists.
    + right. right. left. by eexists.
    + right. right. right. right. by eexists.
    + right. left. exists k. split; [done |].
      injection H as H%bool_decide_eq_false.
      destruct (word !! k) eqn:Hk; [|done]. destruct H. by eexists.
  - intros [-> | [(k & -> & Hk) | [[z ->] | [[b ->] | [f ->]]]]]; simpl.
    + done.
    + destruct (String.eqb k ""); simpl; [done |].
      rewrite Hk, bool_decide_eq_false_2; [done |]. by intros [? ?].
    + by destruct (z =? 0).
    + by destruct b.
    + by destruct f.
Qed.

(** Every iteration that does not raise is one of the three above. *)
Lemma grade_answer_inv quiz_data st a st' :
  grade_answer quiz_data st a = Ok st' ->
  exists wi ans word,
    a !! "wordIndex" = Some wi /\
    get a "answer" (JStr "") = JStr ans /\
    list_getitem quiz_data wi = Ok word /\
    ((level1 a = true /\ exists expected,
        word !! "ca" = Some (JStr expected) /\
        st' = counted st (graded_result a wi ans (same_spelling ans expected)
                            (JStr expected)) (same_spelling ans expected))
     \/ (level1 a = false /\ exists country expected,
        get a "country" JNull = JStr country /\ country <> "" /\
        word !! country = Some (JStr expected) /\
        st' = counted st (<["country" := JStr country]>
                 (graded_result a wi ans (same_spelling ans expected)
                    (JStr expected))) (same_spelling ans expected))
     \/ (level1 a = false /\
        country_present word (get a "country" JNull) = Ok false /\
        st' = passed_over st (graded_result a wi ans false JNull))).
Proof.
  intros H. pose proof H as H0. revert H0.
  unfold grade_answer at 1, getitem, stripped_answer.
  destruct (a !! "wordIndex") as [wi|] eqn:Hwi; simpl; [|done].
  destruct (get a "answer" (JStr "")) as [| | | |ans| |] eqn:Hans; simpl; try done.
  destruct (list_getitem _ _) as [word|] eqn:Hword; simpl; [|done].
  intros H0. exists wi, ans, word. do 3 (split; [done |]).
  destruct (level1 a) eqn:Hl1; unfold level1 in Hl1; rewrite Hl1 in H0.
  - left. split; [done |].
    destruct (word !! "ca") as [ca|] eqn:Hca; simpl in H0; [|done].
    destruct (compare_answer_str _ _ _ _ _ H0) as [expected ->].
    exists expected. split; [done |].
    erewrite grade_level1 in H by done. by simplify_eq.
  - right.
    destruct (country_present _ _) as [[]|] eqn:Hc; simpl in H0; [| |done].
    + left. split; [done |].
      destruct (country_present_true _ _ Hc) as (k & Hk & Hne & [v Hv]).
      rewrite Hk in H0. simpl in H0. unfold getitem in H0. rewrite Hv in H0.
      simpl in H0.
      destruct (compare_answer_str _ _ _ _ _ H0) as [expected ->].
      exists k, expected. do 3 (split; [done |]).
      erewrite grade_country in H by done. by simplify_eq.
    + right. split; [done |]. split; [done |].
      erewrite grade_passed_over in H by done. by simplify_eq.
Qed.

Lemma for_each_app {S X} (body : S -> X -> res S) st xs ys :
  for_each body st (xs ++ ys) =
  (st' ← for_each body st xs; for_each body st' ys).
Proof.
  revert st. induction xs as [|x xs IH]; intros st; simpl; [done |].
  destruct (body st x); simpl; [apply IH | done].
Qed.

(** One iteration: a result is appended, and the counters move by at
    most one, the correct one never more than the total. *)
Lemma grade_answer_step quiz_data st a st' :
  grade_answer quiz_data st a = Ok st' ->
  exists result,
    results st' = results st ++ [result] /\
    result_of quiz_data a result /\
    correct_count st <= correct_count st' /\
    correct_count st' - correct_count st <= total_count st' - total_count st /\
    total_count st' - total_count st <= 1.
Proof.
  intros H.
  destruct (grade_answer_inv _ _ _ _ H)
    as (wi & ans & word & Hwi & Hans & Hword &
        [(Hl1 & expected & Hca & ->)
        |[(Hl1 & k & expected & Hc & Hne & Hk & ->)
         |(Hl1 & Hc & ->)]]);
    eexists; (split; [reflexivity |]); simpl.
  - split; [|destruct (same_spelling _ _); lia].
    intros st0. eexists. by erewrite grade_level1.
  - split; [|destruct (same_spelling _ _); lia].
    intros st0. eexists. by erewrite grade_country.
  - split; [|lia].
    intros st0. eexists. by erewrite grade_passed_over.
Qed.

(** The loop from any state: one result per submission, in order, after
    those already there; the counters grow by at most the number of
    submissions. *)
Lemma grade_from_inv quiz_data answers : forall st st',
  grade_from quiz_data st answers = Ok st' ->
  exists rs,
    results st' = results st ++ rs /\
    length rs = length answers /\
    (forall i a, answers !! i = Some a ->
       exists result, rs !! i = Some result /\ result_of quiz_data a result) /\
    correct_count st <= correct_count st' /\
    correct_count st' - correct_count st <= total_count st' - total_count st /\
    total_count st' - total_count st <= Z.of_nat (length answers).
Proof.
  unfold grade_from.
  induction answers as [|a answers IH]; intros st st'; simpl.
  - intros [= <-]. exists []. rewrite app_nil_r.
    repeat split; try lia. intros i a. by rewrite lookup_nil.
  - destruct (grade_answer quiz_data st a) as [st1|] eqn:H1; simpl; [|done].
    intros H2.
    destruct (grade_answer_step _ _ _ _ H1) as (r & Hr & Hof & Hc1 & Hc2 & Hc3).
    destruct (IH _ _ H2) as (rs & Hrs & Hlen & Hnth & Hd1 & Hd2 & Hd3).
    exists (r :: rs). rewrite Hrs, Hr, <- app_assoc. simpl.
    repeat split; try lia.
    intros [|i] b; simpl; [intros [= <-]; eauto | auto].
Qed.

End GradeFacts.

(** ** Claims on the grading loop *)

(** C10. A grading loop that completes leaves exactly one result per
    submission, in submission order: the i-th result is the one grading
    the i-th submission appends, it carries that submission's
    [wordIndex], and for a submission that is not level 1 and is passed
    over it has [correct = false] and no [correctAnswer]. After every
    number [k] of iterations the loop has not raised and
    [0 <= correct_count <= total_count <= k], which is at most the number
    of submissions. *)
Theorem grade_one_result_per_submission quiz_data answers graded :
  grade quiz_data answers = Ok graded ->
  length (results graded) = length answers /\
  (forall i a, answers !! i = Some a ->
     exists result,
       results graded !! i = Some result /\
       result_of quiz_data a result /\
       result !! "wordIndex" = a !! "wordIndex" /\
       (forall wi word,
          a !! "wordIndex" = Some wi ->
          list_getitem quiz_data wi = Ok word ->
          level1 a = false ->
          country_present word (get a "country" JNull) = Ok false ->
          result !! "correct" = Some (JBool false) /\
          result !! "correctAnswer" = Some JNull)) /\
  (forall k, (k <= length answers)%nat ->
     exists st,
       grade quiz_data (take k answers) = Ok st /\
       results st = take k (results graded) /\
       counters_ok st k /\ (k <= length answers)%nat).
Proof.
  intros H. unfold grade in *.
  destruct (GradeFacts.grade_from_inv _ _ _ _ H)
    as (rs & Hrs & Hlen & Hnth & _). simpl in Hrs. subst rs.
  split; [done |]. split.
  - intros i a Ha. destruct (Hnth i a Ha) as (result & Hi & Hof).
    exists result. do 2 (split; [done |]).
    destruct (Hof tally0) as (st' & Hst' & Hres). simpl in Hres.
    destruct (GradeFacts.grade_answer_inv _ _ _ _ Hst')
      as (wi & ans & word & Hwi & Hans & Hword &
          [(Hl1 & expected & Hca & ->)
          |[(Hl1 & k & expected & Hc & Hne & Hk & ->)
           |(Hl1 & Hc & ->)]]);
      simpl in Hres; simplify_eq; unfold graded_result.
    + split; [by simplify_map_eq |]. intros; congruence.
    + split; [by simplify_map_eq |].
      intros wi' word' ? ? _ Hp.
      assert (wi' = wi) as -> by congruence.
      assert (word' = word) as -> by congruence.
      unfold country_present in Hp. rewrite Hc in Hp. simpl in Hp.
      apply String.eqb_neq in Hne. rewrite Hne in Hp. simpl in Hp.
      rewrite bool_decide_eq_true_2 in Hp by eauto. done.
    + split; [by simplify_map_eq |]. intros. by simplify_map_eq.
  - intros k Hk. rewrite <- (take_drop k answers) in H.
    unfold grade_from in H. rewrite GradeFacts.for_each_app in H.
    destruct (for_each _ tally0 (take k answers)) as [st|] eqn:Hst;
      simpl in H; [|done].
    exists st. split; [done |].
    destruct (GradeFacts.grade_from_inv _ _ _ _ Hst)
      as (rs1 & Hrs1 & Hlen1 & _ & Hc1 & Hc2 & Hc3).
    destruct (GradeFacts.grade_from_inv _ _ _ _ H)
      as (rs2 & Hrs2 & _).
    simpl in *. rewrite length_take in Hlen1, Hc3.
    split.
    + rewrite Hrs2, Hrs1. rewrite take_app_length'; [done | lia].
    + unfold counters_ok. lia.
Qed.

(** ** Word catalog and quiz generator *)

Module CatalogFacts.

Lemma elem_of_COUNTRIES k :
  k ∈ COUNTRIES -> k = "us" \/ k = "ca" \/ k = "gb" \/ k = "au" \/ k = "nz".
Proof.
  unfold COUNTRIES. rewrite !elem_of_cons, elem_of_nil. tauto.
Qed.

(** The groups of the catalog, one by one. *)
Ltac each_group H :=
  unfold WORD_GROUPS in H;
  repeat (apply elem_of_cons in H as [-> | H]); [.. | by apply elem_of_nil in H].

(** The words of a group given in full, one by one. *)
Ltac each_word H :=
  simpl in H;
  repeat (apply elem_of_cons in H as [-> | H]); [.. | by apply elem_of_nil in H].

Lemma catalog_drawable : Forall drawable WORD_GROUPS.
Proof.
  apply Forall_forall. intros group Hg. each_group Hg.
  all: split; [done |]; apply Forall_forall; intros word Hw; each_word Hw.
  all: intros k [-> | [-> | [-> | [-> | ->]]]]%elem_of_COUNTRIES.
  all: vm_compute; eauto.
Qed.

End CatalogFacts.

(** C9. Every variant of the catalog holds a non-empty spelling under
    each of the five country keys, and in a group of level 1 the
    spellings under [ca], [gb], [au] and [nz] are one string. *)
Theorem catalog_variants group word :
  group ∈ WORD_GROUPS ->
  word ∈ words group ->
  (forall k, k ∈ COUNTRIES ->
     exists s, word !! k = Some (JStr s) /\ s <> "") /\
  all_populated word = true /\
  (level group = 1 ->
     same_outside_us word = true /\
     exists s, word !! "ca" = Some (JStr s) /\ word !! "gb" = Some (JStr s) /\
               word !! "au" = Some (JStr s) /\ word !! "nz" = Some (JStr s)).
Proof.
  intros Hg Hw. CatalogFacts.each_group Hg; CatalogFacts.each_word Hw.
  all: split;
    [intros k [-> | [-> | [-> | [-> | ->]]]]%CatalogFacts.elem_of_COUNTRIES;
     vm_compute; eexists; (split; [reflexivity | discriminate]) |].
  all: split; [by vm_compute |].
  all: simpl; intros Hl; try discriminate Hl.
  all: split; [by vm_compute |].
  all: vm_compute; eexists; repeat split; reflexivity.
Qed.

(** C4, as the code has it. A level-1 submission is graded against the
    value under ["ca"] of the question it refers to: that value is the
    [correctAnswer], [correct] is true exactly when the answer, trimmed
    and in lower case, is that value in lower case, and [total_count]
    goes up by one whatever the verdict ([correct_count] goes up by one
    exactly when it is true). White space around the answer and its
    letter case do not count; white space at the ends of the value does,
    and so does nothing but the letters: a US spelling that differs from
    the value by letter case only is correct. For a word of a level-1
    group of the catalog, the question the generator makes of it, the
    [ca] spelling in any letter case and with any white space around it
    is correct, and the US spelling in any letter case and with any
    white space around it is not. *)
Theorem level1_grading quiz_data st a wi ans word expected :
  a !! "wordIndex" = Some wi ->
  get a "answer" (JStr "") = JStr ans ->
  list_getitem quiz_data wi = Ok word ->
  level1 a = true ->
  word !! "ca" = Some (JStr expected) ->
  exists result verdict,
    grade_answer quiz_data st a = Ok (counted st result verdict) /\
    total_count (counted st result verdict) = total_count st + 1 /\
    correct_count (counted st result verdict) =
      correct_count st + (if verdict then 1 else 0) /\
    result !! "correctAnswer" = Some (JStr expected) /\
    result !! "correct" = Some (JBool verdict) /\
    (verdict = true <-> Str.lower (Str.strip ans) = Str.lower expected) /\
    (forall l v r,
       ans = l +:+ v +:+ r -> Str.blank l = true -> Str.blank r = true ->
       (verdict = true <-> Str.lower (Str.strip v) = Str.lower expected)) /\
    (forall group w us,
       group ∈ WORD_GROUPS -> level group = 1 -> w ∈ words group ->
       w !! "ca" = Some (JStr expected) -> w !! "us" = Some (JStr us) ->
       forall l v r,
         ans = l +:+ v +:+ r -> Str.blank l = true -> Str.blank r = true ->
         (Str.lower v = Str.lower expected -> verdict = true) /\
         (Str.lower v = Str.lower us -> verdict = false)).
Proof.
  intros Hwi Hans Hword Hl1 Hca.
  exists (graded_result a wi ans (same_spelling ans expected) (JStr expected)),
         (same_spelling ans expected).
  split; [by erewrite GradeFacts.grade_level1 |].
  unfold graded_result, same_spelling. simpl.
  do 2 (split; [done |]). do 2 (split; [by simplify_map_eq |]).
  split; [apply String.eqb_eq |]. split.
  - intros l v r -> Hl Hr. rewrite StrFacts.strip_padded by done.
    apply String.eqb_eq.
  - intros group w us Hg Hlevel Hw Hc Hus l v r -> Hl Hr.
    CatalogFacts.each_group Hg; try discriminate Hlevel;
      CatalogFacts.each_word Hw.
    all: vm_compute in Hus, Hc; simplify_eq.
    all: split; intros Hv;
      [ apply String.eqb_eq
      | apply String.eqb_neq ];
      rewrite (StrFacts.lower_strip_variant l v r _ Hl Hr Hv) by reflexivity;
      [reflexivity | by vm_compute].
Qed.

(** C1, as the code has it. A submission that is not level 1 is passed
    over when its ["country"] is missing, false ([null], [""], [0], ...),
    a number or a boolean, or a string that is not a key of the question
    it refers to: a result with [correct = false], no [correctAnswer] and
    no [country] is appended and neither counter moves. When ["country"]
    is a non-empty string that is a key of the question holding a string,
    the answer is compared with that string, trimmed and in lower case
    against lower case, the string is the [correctAnswer], and
    [total_count] goes up by one. *)
Theorem country_grading quiz_data st a wi ans word :
  a !! "wordIndex" = Some wi ->
  get a "answer" (JStr "") = JStr ans ->
  list_getitem quiz_data wi = Ok word ->
  level1 a = false ->
  (not_a_key word (get a "country" JNull) ->
   exists result,
     grade_answer quiz_data st a = Ok (passed_over st result) /\
     total_count (passed_over st result) = total_count st /\
     correct_count (passed_over st result) = correct_count st /\
     result !! "correct" = Some (JBool false) /\
     result !! "correctAnswer" = Some JNull /\
     result !! "country" = None) /\
  (forall k expected,
     get a "country" JNull = JStr k -> k <> "" ->
     word !! k = Some (JStr expected) ->
     exists result verdict,
       grade_answer quiz_data st a = Ok (counted st result verdict) /\
       total_count (counted st result verdict) = total_count st + 1 /\
       verdict = String.eqb (Str.lower (Str.strip ans)) (Str.lower expected) /\
       result !! "correct" = Some (JBool verdict) /\
       result !! "correctAnswer" = Some (JStr expected) /\
       result !! "country" = Some (JStr k)).
Proof.
  intros Hwi Hans Hword Hl1. split.
  - intros Hc. exists (graded_result a wi ans false JNull).
    split.
    + eapply GradeFacts.grade_passed_over; try done.
      by apply GradeFacts.country_present_false.
    + unfold graded_result. simpl. by simplify_map_eq.
  - intros k expected Hk Hne Hv.
    exists (<["country" := JStr k]>
              (graded_result a wi ans (same_spelling ans expected) (JStr expected))),
           (same_spelling ans expected).
    split; [by erewrite GradeFacts.grade_country |].
    unfold graded_result, same_spelling. simpl. by simplify_map_eq.
Qed.


Module GenFacts.
Section WithRandint.
Context {rng : Type} (randint : rng -> Z -> Z -> Z * rng).
Hypothesis randint_in_range : in_range randint.

Lemma list_getitem_in_range {A} (l : list A) z :
  0 <= z < Z.of_nat (length l) ->
  exists a, list_getitem l (JInt z) = Ok a /\ a ∈ l.
Proof.
  intros Hz. unfold list_getitem.
  assert ((z <? 0) = false) as -> by lia.
  assert ((0 <=? z) && (z <? Z.of_nat (length l)) = true) as ->
    by (apply andb_true_intro; split; lia).
  destruct (l !! Z.to_nat z) as [a|] eqn:Ha.
  - exists a. split; [done |]. by eapply list_elem_of_lookup_2.
  - apply lookup_ge_None in Ha. lia.
Qed.

(** One turn of the loop of [select_words] on a group it can draw from. *)
Lemma select_word_ok selected g i group :
  drawable group ->
  exists w g',
    select_word randint (selected, g) (i, group) = Ok (selected ++ [w], g') /\
    selected_from (i, group) w.
Proof.
  intros [Hne _]. unfold select_word, checked_randint, len.
  assert (0 < Z.of_nat (length (words group))).
  { destruct (words group); [done | simpl; lia]. }
  assert ((Z.of_nat (length (words group)) - 1 <? 0) = false) as -> by lia.
  simpl.
  pose proof (randint_in_range g 0 (Z.of_nat (length (words group)) - 1)) as Hr.
  destruct (randint g 0 _) as [random_index g'] eqn:Hrand. simpl in Hr. simpl.
  destruct (list_getitem_in_range (words group) random_index) as (word & -> & Hin);
    [lia |].
  simpl. eexists _, _. split; [done |]. by exists word.
Qed.

#[local] Arguments select_word : simpl never.
#[local] Arguments quiz_entry : simpl never.

Lemma enumerate_snoc {A} (l : list A) x :
  enumerate (l ++ [x]) = enumerate l ++ [(Z.of_nat (length l), x)].
Proof. unfold enumerate. rewrite imap_app. simpl. by rewrite Nat.add_0_r. Qed.

Lemma select_words_in_ok groups : forall g,
  Forall drawable groups ->
  exists selected g',
    select_words_in randint groups g = Ok (selected, g') /\
    Forall2 selected_from (enumerate groups) selected.
Proof.
  unfold select_words_in.
  induction groups as [|group groups IH] using rev_ind; intros g Hall.
  - exists [], g. split; [done | constructor].
  - apply Forall_app in Hall as [Hall Hgroup].
    rewrite Forall_singleton in Hgroup.
    destruct (IH g Hall) as (selected & g1 & Hsel & Hfrom).
    rewrite enumerate_snoc, GradeFacts.for_each_app, Hsel. simpl.
    destruct (select_word_ok selected g1 (Z.of_nat (length groups)) group Hgroup)
      as (w & g2 & -> & Hw).
    simpl. exists (selected ++ [w]), g2. split; [done |].
    apply Forall2_app; [done |]. by constructor.
Qed.

Ltac in_list :=
  unfold COUNTRIES;
  repeat first [apply list_elem_of_here | apply list_elem_of_further].

(** The entry made of a selected word. *)
Lemma quiz_entry_ok quiz_data item w :
  drawable (snd item) -> selected_from item w ->
  exists question,
    quiz_entry quiz_data w = Ok (quiz_data ++ [question]) /\
    question_of (snd item) question.
Proof.
  intros [_ Hkeys] (word & Hin & ->).
  rewrite Forall_forall in Hkeys. specialize (Hkeys word Hin).
  assert (Hk : forall k, k ∈ COUNTRIES ->
            exists v, word !! k = Some v /\
              getitem (<["level" := JInt (level (snd item))]>
                         (<["groupIndex" := JInt (fst item)]> word)) k = Ok v).
  { intros k Hc. destruct (Hkeys k Hc) as [v Hv]. exists v. split; [done |].
    unfold getitem.
    apply CatalogFacts.elem_of_COUNTRIES in Hc
      as [-> | [-> | [-> | [-> | ->]]]];
      by rewrite !lookup_insert_ne, Hv by done. }
  unfold quiz_entry.
  destruct (Hk "us") as (us & Hus & ->); [in_list |].
  destruct (Hk "ca") as (ca & Hca & ->); [in_list |].
  destruct (Hk "gb") as (gb & Hgb & ->); [in_list |].
  destruct (Hk "au") as (au & Hau & ->); [in_list |].
  destruct (Hk "nz") as (nz & Hnz & ->); [in_list |].
  simpl. unfold getitem at 1. rewrite lookup_insert_eq. simpl.
  eexists. split; [done |]. exists word. split; [done |].
  split; [| split; [by simplify_map_eq | split]].
  - unfold QUESTION_KEYS. rewrite !dom_insert_L, dom_singleton_L. set_solver.
  - rewrite lookup_insert_ne, lookup_insert_ne, lookup_insert_ne,
      lookup_insert_ne, lookup_insert_ne, lookup_insert_eq by done.
    unfold get. by rewrite !lookup_insert_ne by done.
  - intros k [-> | [-> | [-> | [-> | ->]]]]%CatalogFacts.elem_of_COUNTRIES;
      by simplify_map_eq.
Qed.

Lemma quiz_entries_ok items : forall selected quiz_data,
  Forall (fun item => drawable (snd item)) items ->
  Forall2 selected_from items selected ->
  exists questions,
    for_each quiz_entry quiz_data selected = Ok (quiz_data ++ questions) /\
    Forall2 (fun item q => question_of (snd item) q) items questions.
Proof.
  induction items as [|item items IH]; intros selected quiz_data Hall Hsel.
  - apply Forall2_nil_inv_l in Hsel as ->. exists []. simpl.
    rewrite app_nil_r. split; [done | constructor].
  - apply Forall2_cons_inv_l in Hsel as (w & rest & Hw & Hrest & ->).
    apply Forall_cons in Hall as [Hitem Hall]. simpl.
    destruct (quiz_entry_ok quiz_data item w Hitem Hw) as (q & -> & Hq). simpl.
    destruct (IH rest (quiz_data ++ [q]) Hall Hrest) as (qs & -> & Hqs).
    exists (q :: qs). rewrite <- app_assoc. split; [done |]. by constructor.
Qed.

Lemma enumerate_lookup {A} (l : list A) i :
  enumerate l !! i = (fun x => (Z.of_nat i, x)) <$> l !! i.
Proof. unfold enumerate. by rewrite list_lookup_imap. Qed.

Lemma Forall_enumerate {A} (P : A -> Prop) (l : list A) :
  Forall P l -> Forall (fun item => P (snd item)) (enumerate l).
Proof.
  rewrite !Forall_lookup. intros H i [z x]. rewrite enumerate_lookup.
  destruct (l !! i) as [y|] eqn:Hy; simpl; [|done].
  intros [= <- <-]. eauto.
Qed.

End WithRandint.
End GenFacts.

(** C5. Whatever values [random.randint] draws from the ranges it is
    given, [generate_quiz_data] returns one question per group of the
    catalog, in catalog order: the question at position [i] has exactly
    the keys [us], [ca], [gb], [au], [nz], [note] and [level], its level
    is that of the group at position [i], and its spellings and note are
    those of one word of that group. The position is the index:
    [select_words] marks the word drawn from group [i] with
    [groupIndex = i]. *)
Theorem generate_quiz_one_per_group {rng} (randint : rng -> Z -> Z -> Z * rng)
    (g : rng) :
  in_range randint ->
  exists selected quiz_data g',
    select_words randint g = Ok (selected, g') /\
    generate_quiz_data randint g = Ok (quiz_data, g') /\
    length quiz_data = length WORD_GROUPS /\
    forall i group, WORD_GROUPS !! i = Some group ->
      exists w question,
        selected !! i = Some w /\
        w !! "groupIndex" = Some (JInt (Z.of_nat i)) /\
        quiz_data !! i = Some question /\
        question_of group question.
Proof.
  intros Hrange.
  pose proof CatalogFacts.catalog_drawable as Hd.
  unfold select_words, generate_quiz_data, generate_quiz_data_in.
  destruct (GenFacts.select_words_in_ok randint Hrange WORD_GROUPS g Hd)
    as (selected & g' & Hsel & Hfrom).
  destruct (GenFacts.quiz_entries_ok (enumerate WORD_GROUPS) selected []
              (GenFacts.Forall_enumerate _ _ Hd) Hfrom)
    as (quiz_data & Hquiz & Hq).
  simpl in Hquiz. exists selected, quiz_data, g'.
  rewrite Hsel. simpl. rewrite Hquiz. simpl.
  do 2 (split; [done |]). split.
  - apply Forall2_length in Hq. rewrite <- Hq.
    unfold enumerate. by rewrite length_imap.
  - intros i group Hi.
    assert (Hitem : enumerate WORD_GROUPS !! i = Some (Z.of_nat i, group))
      by by rewrite GenFacts.enumerate_lookup, Hi.
    destruct (Forall2_lookup_l _ _ _ _ _ Hfrom Hitem) as (w & Hw & word & _ & ->).
    destruct (Forall2_lookup_l _ _ _ _ _ Hq Hitem) as (q & Hq' & Hof).
    eexists _, q. split; [done |]. split; [by simplify_map_eq |]. done.
Qed.

(** ** Floats *)

Module FloatFacts.

(** For [lia]: the powers of two in sight become unknowns. *)
Ltac hide_pows :=
  repeat match goal with
         | |- context [2 ^ ?e] =>
             let x := fresh "pw" in set (x := 2 ^ e) in *; clearbody x
         | H : context [2 ^ ?e] |- _ =>
             let x := fresh "pw" in set (x := 2 ^ e) in *; clearbody x
         end.

Lemma digits2_pos_bounds p :
  2 ^ (Zpos (digits2_pos p) - 1) <= Zpos p < 2 ^ Zpos (digits2_pos p).
Proof.
  induction p as [p IH|p IH|]; simpl digits2_pos.
  - rewrite Pos2Z.inj_succ, (Pos2Z.inj_xI p).
    replace (Z.succ (Zpos (digits2_pos p)) - 1) with (Z.succ (Zpos (digits2_pos p) - 1)) by lia.
    rewrite !Z.pow_succ_r by lia. hide_pows. lia.
  - rewrite Pos2Z.inj_succ, (Pos2Z.inj_xO p).
    replace (Z.succ (Zpos (digits2_pos p)) - 1) with (Z.succ (Zpos (digits2_pos p) - 1)) by lia.
    rewrite !Z.pow_succ_r by lia. hide_pows. lia.
  - simpl. lia.
Qed.

(** A number below [2^n] has at most [n] binary digits. *)
Lemma Zdigits2_le m n : 0 <= m < 2 ^ n -> 0 <= n -> Zdigits2 m <= n.
Proof.
  intros [H0 Hm] Hn. destruct m as [|p|p]; simpl; [done | | lia].
  pose proof (digits2_pos_bounds p) as [Hlo _].
  destruct (Z_le_gt_dec (Zpos (digits2_pos p)) n) as [|Hgt]; [done |].
  assert (2 ^ n <= 2 ^ (Zpos (digits2_pos p) - 1)) by (apply Z.pow_le_mono_r; lia).
  lia.
Qed.

Lemma shr_1_under K mrs : under (2 * K) mrs -> under K (shr_1 mrs).
Proof.
  destruct mrs as [m r s]. unfold under. simpl.
  intros [H0 [H | (H & -> & ->)]];
    destruct m as [|[p|p|]|p]; simpl;
    first [ lia
          | split; [lia | left; lia]
          | split; [lia | right; repeat split; (lia || reflexivity)] ].
Qed.

Lemma iter_pos_under p : forall K mrs,
  under (2 ^ Zpos p * K) mrs -> under K (SpecFloat.iter_pos shr_1 p mrs).
Proof.
  induction p as [p IH|p IH|]; intros K mrs H; simpl.
  - apply IH, IH, shr_1_under.
    rewrite (Pos2Z.inj_xI p), Z.pow_add_r, Z.pow_twice_r in H by lia.
    replace (2 * (2 ^ Zpos p * (2 ^ Zpos p * K)))
      with (2 ^ Zpos p * 2 ^ Zpos p * 2 ^ 1 * K) by lia.
    done.
  - apply IH, IH.
    rewrite (Pos2Z.inj_xO p), Z.pow_twice_r in H.
    by rewrite Z.mul_assoc.
  - apply shr_1_under. by rewrite Z.pow_1_r in H.
Qed.

Lemma fexp_le_0 x : x <= 53 -> fexp Float.prec Float.emax x <= 0.
Proof. unfold fexp, emin, Float.prec, Float.emax. lia. Qed.

Lemma pow2_split a b : 0 <= a -> 0 <= b -> 2 ^ (a + b) = 2 ^ a * 2 ^ b.
Proof. intros. by apply Z.pow_add_r. Qed.

(** The right shift to the exponent of the format keeps a number at most
    [K < 2^53] at most [K], and its exponent at most 0. *)
Lemma shr_fexp_under K m e l mrs' e' :
  0 < K < 2 ^ 53 -> e <= 0 ->
  under (K * 2 ^ (- e)) (shr_record_of_loc m l) ->
  shr_fexp Float.prec Float.emax m e l = (mrs', e') ->
  e' <= 0 /\ under (K * 2 ^ (- e')) mrs'.
Proof.
  intros HK He Hu. unfold shr_fexp, shr.
  assert (Hm : 0 <= m < 2 ^ (53 - e)).
  { assert (shr_m (shr_record_of_loc m l) = m) as Hsm
      by by destruct l as [|[]].
    destruct Hu as [H0 H]. rewrite Hsm in *.
    split; [done |].
    replace (53 - e) with (53 + - e) by lia. rewrite pow2_split by lia.
    assert (0 < 2 ^ (- e)) by (apply Z.pow_pos_nonneg; lia). nia. }
  assert (Hd : Zdigits2 m + e <= 53)
    by (pose proof (Zdigits2_le m (53 - e) Hm); lia).
  pose proof (fexp_le_0 _ Hd) as Hf.
  destruct (fexp Float.prec Float.emax (Zdigits2 m + e) - e) as [|p|p] eqn:Hn;
    intros [= <- <-]; [done | | done].
  split; [lia |].
  apply iter_pos_under.
  replace (2 ^ Zpos p * (K * 2 ^ (- (e + Zpos p)))) with (K * 2 ^ (- e)); [done |].
  replace (- e) with (Zpos p + - (e + Zpos p)) at 1 by lia.
  rewrite pow2_split by lia. lia.
Qed.

Lemma round_nearest_even_under K mrs :
  under K mrs ->
  0 <= round_nearest_even (shr_m mrs) (loc_of_shr_record mrs) <= K.
Proof.
  destruct mrs as [m r s]. unfold under. simpl.
  intros [H0 [H | (-> & -> & ->)]]; [|simpl; lia].
  destruct r, s; simpl; try lia. destruct (Z.even m); lia.
Qed.

(** Rounding to nearest even does not pass an integer below [2^53]. *)
Lemma round_aux_bounded K m e l :
  0 < K < 2 ^ 53 -> e <= 0 ->
  under (K * 2 ^ (- e)) (shr_record_of_loc m l) ->
  bounded_by K (binary_round_aux Float.prec Float.emax false m e l).
Proof.
  intros HK He Hu. unfold binary_round_aux.
  destruct (shr_fexp _ _ m e l) as [mrs1 e1] eqn:H1.
  destruct (shr_fexp_under K m e l mrs1 e1 HK He Hu H1) as [He1 Hu1].
  pose proof (round_nearest_even_under _ _ Hu1) as Hr.
  set (m2 := round_nearest_even _ _) in *.
  destruct (shr_fexp _ _ m2 e1 loc_Exact) as [mrs2 e2] eqn:H2.
  assert (Hu2 : under (K * 2 ^ (- e1)) (shr_record_of_loc m2 loc_Exact)).
  { unfold under. simpl. lia. }
  destruct (shr_fexp_under K m2 e1 loc_Exact mrs2 e2 HK He1 Hu2 H2) as [He2 Hu3].
  destruct Hu3 as [H0 Hle].
  destruct (shr_m mrs2) as [|p|p] eqn:Hm; simpl; [done | | lia].
  assert ((e2 <=? Float.emax - Float.prec) = true) as ->
    by (unfold Float.emax, Float.prec; lia).
  simpl. split; [done | lia].
Qed.

(** A mantissa already at the exponent of the format is kept as it is. *)
Lemma round_aux_canonical m e :
  fexp Float.prec Float.emax (Zpos (digits2_pos m) + e) = e ->
  e <= Float.emax - Float.prec ->
  binary_round_aux Float.prec Float.emax false (Zpos m) e loc_Exact
  = S754_finite false m e.
Proof.
  intros Hf He. unfold binary_round_aux, shr_fexp. simpl Zdigits2.
  rewrite Hf, Z.sub_diag. simpl. rewrite Hf, Z.sub_diag. simpl.
  by apply Z.leb_le in He as ->.
Qed.

Lemma digits2_pos_iter_xO p k :
  Zpos (digits2_pos (Pos.iter xO p k)) = Zpos (digits2_pos p) + Zpos k.
Proof.
  induction k as [|k IH] using Pos.peano_ind.
  - simpl. lia.
  - rewrite Pos.iter_succ. simpl. lia.
Qed.

Lemma Zpos_iter_xO p k : Zpos (Pos.iter xO p k) = Zpos p * 2 ^ Zpos k.
Proof.
  induction k as [|k IH] using Pos.peano_ind.
  - simpl. lia.
  - rewrite Pos.iter_succ, Pos2Z.inj_succ, Z.pow_succ_r by lia.
    rewrite (Pos2Z.inj_xO (Pos.iter xO p k)), IH. lia.
Qed.

(** [float(z)] is exact for [0 < z < 2^53]. *)
Lemma of_int_exact z :
  0 < z < 2 ^ 53 ->
  exists m e,
    Float.of_int z = S754_finite false m e /\ e <= 0 /\
    Zpos m = z * 2 ^ (- e).
Proof.
  intros [Hz0 Hz]. destruct z as [|p|p]; [lia | | lia].
  unfold Float.of_int, binary_normalize, binary_round.
  pose proof (digits2_pos_bounds p) as [Hlo _].
  assert (Hd : Zpos (digits2_pos p) <= 53).
  { destruct (Z_le_gt_dec (Zpos (digits2_pos p)) 53) as [|Hgt]; [done |].
    assert (2 ^ 53 <= 2 ^ (Zpos (digits2_pos p) - 1))
      by (apply Z.pow_le_mono_r; lia).
    lia. }
  assert (Hf : fexp Float.prec Float.emax (Zpos (digits2_pos p) + 0)
               = Zpos (digits2_pos p) - 53)
    by (unfold fexp, emin, Float.prec, Float.emax; lia).
  rewrite Hf. unfold shl_align.
  destruct (Zpos (digits2_pos p) - 53 - 0) as [|k|k] eqn:Hk; [| lia |].
  - assert (Zpos (digits2_pos p) = 53) as H53 by lia.
    rewrite round_aux_canonical.
    + exists p, 0. split; [done |]. split; [done |]. simpl. lia.
    + rewrite H53. by vm_compute.
    + by vm_compute.
  - rewrite round_aux_canonical.
    + eexists _, _. split; [done |]. split; [lia |].
      rewrite Zpos_iter_xO. do 2 f_equal. lia.
    + rewrite digits2_pos_iter_xO.
      unfold fexp, emin, Float.prec, Float.emax. lia.
    + unfold Float.emax, Float.prec. lia.
Qed.

Lemma of_int_0 : Float.of_int 0 = S754_zero false.
Proof. reflexivity. Qed.

(** The quotient of two positive floats is at most the integer [K] when
    the dividend is at most [K] times the divisor. *)
Lemma div_bounded K ma ea mb eb :
  0 < K < 2 ^ 53 -> ea <= 0 -> eb <= 0 ->
  Zpos ma * 2 ^ (- eb) <= K * Zpos mb * 2 ^ (- ea) ->
  bounded_by K (Float.div (S754_finite false ma ea) (S754_finite false mb eb)).
Proof.
  intros HK Hea Heb Hle. unfold Float.div, SFdiv, SFdiv_core_binary.
  simpl Zdigits2.
  set (d1 := Zpos (digits2_pos ma)). set (d2 := Zpos (digits2_pos mb)).
  set (e' := Z.min _ _). set (s := ea - eb - e').
  pose proof (digits2_pos_bounds ma) as [Hlo1 _].
  pose proof (digits2_pos_bounds mb) as [_ Hhi2].
  fold d1 in Hlo1. fold d2 in Hhi2.
  assert (Hd1 : 1 <= d1) by (unfold d1; lia).
  assert (Hd2 : 1 <= d2) by (unfold d2; lia).
  (* the exponent of the quotient is at most 0 *)
  assert (Hdd : d1 + ea - (d2 + eb) <= 53).
  { destruct (Z_le_gt_dec (d1 + ea - (d2 + eb)) 53) as [|Hgt]; [done |].
    exfalso.
    assert (H1 : 2 ^ (53 + d2 - ea) <= 2 ^ (d1 - 1 - eb))
      by (apply Z.pow_le_mono_r; lia).
    replace (53 + d2 - ea) with (53 + d2 + - ea) in H1 by lia.
    replace (d1 - 1 - eb) with (d1 - 1 + - eb) in H1 by lia.
    rewrite !pow2_split in H1 by lia.
    assert (0 < 2 ^ (- ea)) by (apply Z.pow_pos_nonneg; lia).
    assert (0 < 2 ^ (- eb)) by (apply Z.pow_pos_nonneg; lia).
    assert (0 < 2 ^ d2) by (apply Z.pow_pos_nonneg; lia).
    assert (K * Zpos mb < 2 ^ 53 * 2 ^ d2)
      by (apply Z.mul_lt_mono_nonneg; lia).
    assert (K * Zpos mb * 2 ^ (- ea) < 2 ^ 53 * 2 ^ d2 * 2 ^ (- ea))
      by (by apply Z.mul_lt_mono_pos_r).
    assert (2 ^ (d1 - 1) * 2 ^ (- eb) <= Zpos ma * 2 ^ (- eb))
      by (apply Z.mul_le_mono_nonneg_r; lia).
    hide_pows. lia. }
  assert (He' : e' <= 0).
  { pose proof (fexp_le_0 _ Hdd). unfold e'. lia. }
  assert (Hs : 0 <= s) by (unfold s, e'; lia).
  set (m' := match s with Z.pos _ => Z.shiftl (Z.pos ma) s | 0 => Z.pos ma
             | Z.neg _ => 0 end).
  assert (Hm' : m' = Zpos ma * 2 ^ s).
  { unfold m'. destruct s as [|ps|ps] eqn:Es; [simpl; lia | | lia].
    by rewrite Z.shiftl_mul_pow2. }
  (* the dividend, shifted, is at most K 2^(-e') times the divisor *)
  assert (Hq : m' <= K * 2 ^ (- e') * Zpos mb).
  { assert (0 < 2 ^ (- ea)) by (apply Z.pow_pos_nonneg; lia).
    assert (0 < 2 ^ (- e')) by (apply Z.pow_pos_nonneg; lia).
    assert (m' * 2 ^ (- ea) = Zpos ma * 2 ^ (- eb) * 2 ^ (- e')).
    { rewrite Hm', <- !Z.mul_assoc, <- !pow2_split by lia.
      do 2 f_equal. unfold s. lia. }
    nia. }
  pose proof (Z.div_eucl_eq m' (Zpos mb) ltac:(lia)) as Heq.
  pose proof (Z.mod_pos_bound m' (Zpos mb) ltac:(lia)) as Hr.
  unfold Z.modulo in Hr.
  destruct (Z.div_eucl m' (Zpos mb)) as [q r]. simpl.
  assert (0 <= m') by (rewrite Hm'; assert (0 < 2 ^ s) by (by apply Z.pow_pos_nonneg); nia).
  apply round_aux_bounded; [done | done |].
  assert (Hq0 : 0 <= q) by nia.
  assert (Hqle : q < K * 2 ^ (- e') \/ (q = K * 2 ^ (- e') /\ r = 0)) by nia.
  destruct Hqle as [Hlt | [-> ->]].
  - unfold under. destruct (new_location _ _) as [|c]; [|destruct c];
      simpl; (split; [lia | left; lia]).
  - assert (new_location (Zpos mb) 0 = loc_Exact) as ->.
    { unfold new_location, new_location_even, new_location_odd.
      by destruct (Z.even _). }
    unfold under. simpl. split; [lia | right; done].
Qed.

(** [round] of a float at most [K] is an integer between 0 and [K]. *)
Lemma round_bounded K x :
  0 <= K -> bounded_by K x ->
  exists p, Float.round x = Ok p /\ 0 <= p <= K.
Proof.
  intros HK. destruct x as [s|s| |[] m e]; simpl; try done.
  - intros _. exists 0. split; [done | lia].
  - intros [He Hm]. eexists. split; [done |].
    destruct e as [|pe|pe]; [simpl in Hm; lia | lia |].
    unfold Float.half_even.
    change (- Z.neg pe) with (Zpos pe) in Hm.
    assert (Hd : 0 < 2 ^ Zpos pe) by (by apply Z.pow_pos_nonneg).
    pose proof (Z.div_mod (Zpos m) (2 ^ Zpos pe) ltac:(lia)) as Heq.
    pose proof (Z.mod_pos_bound (Zpos m) (2 ^ Zpos pe) Hd) as Hr.
    set (d := 2 ^ Zpos pe) in *. set (q := Zpos m / d) in *.
    set (r := Zpos m mod d) in *.
    assert (0 <= q) by nia.
    assert (q < K \/ (q = K /\ r = 0)) as [Hlt | [Hq Hr0]] by nia.
    + destruct (2 * r ?= d); [destruct (Z.even q) | |]; lia.
    + rewrite Hr0. assert ((2 * 0 ?= d) = Lt) as -> by (apply Z.compare_lt_iff; lia).
      lia.
Qed.

(** The quotient of two counters, the first at most [K] times the
    second. *)
Lemma div_of_int_bounded K a b :
  0 < K < 2 ^ 53 -> 0 <= a -> 0 < b < 2 ^ 53 -> a <= K * b -> a < 2 ^ 53 ->
  bounded_by K (Float.div (Float.of_int a) (Float.of_int b)).
Proof.
  intros HK Ha Hb Hab Ha53.
  destruct (of_int_exact b Hb) as (mb & eb & -> & Heb & Hmb).
  destruct (Z.eq_dec a 0) as [-> | Hne]; [by rewrite of_int_0 |].
  destruct (of_int_exact a ltac:(lia)) as (ma & ea & -> & Hea & Hma).
  apply div_bounded; [done | done | done |].
  rewrite Hma, Hmb.
  assert (0 < 2 ^ (- ea)) by (apply Z.pow_pos_nonneg; lia).
  assert (0 < 2 ^ (- eb)) by (apply Z.pow_pos_nonneg; lia).
  nia.
Qed.

Lemma of_int_100 :
  Float.of_int 100 = S754_finite false 7036874417766400 (-46).
Proof. reflexivity. Qed.

(** A float at most 1, times 100, is at most 100. *)
Lemma mul_100_bounded x :
  bounded_by 1 x -> bounded_by 100 (Float.mul x (Float.of_int 100)).
Proof.
  rewrite of_int_100. destruct x as [s|s| |[] m e]; simpl; try done.
  intros [He Hm]. apply round_aux_bounded; [lia | lia |].
  unfold under. simpl shr_m. simpl shr_r. simpl shr_s.
  rewrite Pos2Z.inj_mul.
  replace (- (e + -46)) with (46 + - e) by lia. rewrite pow2_split by lia.
  assert (0 < 2 ^ (- e)) by (apply Z.pow_pos_nonneg; lia).
  change (2 ^ 46) with 70368744177664.
  split; [lia |].
  destruct (Z.eq_dec (Zpos m) (2 ^ (- e))) as [-> | Hne]; [right | left]; lia.
Qed.

(** The percentage is there and lies between 0 and 100. *)
Lemma percentage_bounds c t :
  0 <= c <= t -> t < 2 ^ 53 ->
  exists p, percentage c t = Ok p /\ 0 <= p <= 100.
Proof.
  intros Hc Ht. unfold percentage, Float.true_div.
  destruct (0 <? t) eqn:H0; [|exists 0; split; [done | lia]].
  apply Z.ltb_lt in H0.
  assert ((t =? 0) = false) as -> by lia. simpl.
  apply round_bounded; [lia |]. apply mul_100_bounded.
  apply div_of_int_bounded; lia.
Qed.

Lemma percentage_no_total c : percentage c 0 = Ok 0.
Proof. reflexivity. Qed.

Lemma percentage_none_correct t :
  t < 2 ^ 53 -> percentage 0 t = Ok 0.
Proof.
  intros Ht. unfold percentage, Float.true_div.
  destruct (0 <? t) eqn:H0; [|done].
  apply Z.ltb_lt in H0. assert ((t =? 0) = false) as -> by lia.
  destruct (of_int_exact t ltac:(lia)) as (m & e & -> & _).
  reflexivity.
Qed.

End FloatFacts.

Module PercentFacts.

(** After a grading loop over fewer than [2^53] submissions the
    percentage is there and lies between 0 and 100. *)
Lemma percentage_after_grading quiz_data answers graded :
  grade quiz_data answers = Ok graded ->
  Z.of_nat (length answers) < 2 ^ 53 ->
  exists p,
    percentage (correct_count graded) (total_count graded) = Ok p /\
    0 <= p <= 100.
Proof.
  intros Hg Hlen.
  destruct (GradeFacts.grade_from_inv _ _ _ _ Hg)
    as (rs & _ & _ & _ & Hc1 & Hc2 & Hc3). simpl in *.
  apply FloatFacts.percentage_bounds; lia.
Qed.

End PercentFacts.

(** C2, as the code has it. After a grading loop over fewer than [2^53]
    submissions the percentage is computed without an exception, it is
    [round(correct_count / total_count * 100)] when [total_count > 0],
    it lies between 0 and 100, and it is 0 when [total_count = 0] and
    also when [correct_count = 0]. *)
Theorem percentage_of_grading quiz_data answers graded :
  grade quiz_data answers = Ok graded ->
  Z.of_nat (length answers) < 2 ^ 53 ->
  exists p,
    percentage (correct_count graded) (total_count graded) = Ok p /\
    0 <= p <= 100 /\
    (total_count graded = 0 -> p = 0) /\
    (correct_count graded = 0 -> p = 0) /\
    (0 < total_count graded ->
     Float.round
       (Float.mul (Float.div (Float.of_int (correct_count graded))
                             (Float.of_int (total_count graded)))
                  (Float.of_int 100)) = Ok p).
Proof.
  intros Hg Hlen.
  destruct (GradeFacts.grade_from_inv _ _ _ _ Hg)
    as (rs & _ & _ & _ & Hc1 & Hc2 & Hc3). simpl in *.
  destruct (PercentFacts.percentage_after_grading _ _ _ Hg Hlen)
    as (p & Hp & Hb).
  exists p. do 2 (split; [done |]). split; [|split].
  - intros H0. rewrite H0 in Hp. rewrite FloatFacts.percentage_no_total in Hp.
    by simplify_eq.
  - intros H0. rewrite H0 in Hp.
    rewrite FloatFacts.percentage_none_correct in Hp by lia. by simplify_eq.
  - intros H0. unfold percentage, Float.true_div in Hp.
    assert ((0 <? total_count graded) = true) as Ht by lia.
    assert ((total_count graded =? 0) = false) as Hz by lia.
    rewrite Ht, Hz in Hp. done.
Qed.

(** ** Attempt store *)

Module StoreFacts.

Lemma answer_rows_length results : forall next_id attempt_id rows,
  answer_rows next_id attempt_id results = Ok rows ->
  length rows = length results.
Proof.
  induction results as [|result rest IH]; intros next_id attempt_id rows; simpl.
  - by intros [= <-].
  - destruct (answer_row _ _ result) as [row|]; simpl; [|done].
    destruct (answer_rows _ _ rest) as [rows'|] eqn:Hrest; simpl; [|done].
    intros [= <-]. simpl. f_equal. eauto.
Qed.

Lemma answer_rows_lookup results : forall next_id attempt_id rows i row,
  answer_rows next_id attempt_id results = Ok rows ->
  rows !! i = Some row ->
  exists result,
    results !! i = Some result /\
    answer_row (next_id + Z.of_nat i) attempt_id result = Ok row.
Proof.
  induction results as [|result rest IH]; intros next_id attempt_id rows i row;
    simpl.
  - intros [= <-]. by rewrite lookup_nil.
  - destruct (answer_row _ _ result) as [row0|] eqn:H0; simpl; [|done].
    destruct (answer_rows _ _ rest) as [rows'|] eqn:Hrest; simpl; [|done].
    intros [= <-]. destruct i as [|i]; simpl.
    + intros [= <-]. exists result. by rewrite Z.add_0_r.
    + intros Hi. destruct (IH _ _ _ _ _ Hrest Hi) as (r & Hr & Hrow).
      exists r. split; [done |]. rewrite <- Hrow. f_equal. lia.
Qed.

Lemma answer_row_attempt_id next_id attempt_id result row :
  answer_row next_id attempt_id result = Ok row ->
  Answer.attempt_id row = attempt_id.
Proof.
  unfold answer_row.
  repeat (match goal with
          | |- context [mbind _ ?m] => destruct m; simpl; [|done]
          end).
  by intros [= <-].
Qed.

Lemma answer_rows_attempt_id next_id attempt_id results rows :
  answer_rows next_id attempt_id results = Ok rows ->
  Forall (fun r => Answer.attempt_id r = attempt_id) rows.
Proof.
  intros H. apply Forall_lookup. intros i row Hi.
  destruct (answer_rows_lookup _ _ _ _ _ _ H Hi) as (r & _ & Hrow).
  by eapply answer_row_attempt_id.
Qed.

(** The loop of inserts: [disk] is not touched, a reader has seen it at
    each statement, the attempts table is as it was; on success the rows
    of all the results are in [view]. *)
Lemma insert_answers_spec attempt_id results : forall c r c',
  insert_answers attempt_id results c = (r, c') ->
  disk c' = disk c /\
  (exists k, seen c' = seen c ++ replicate k (disk c)) /\
  quiz_attempts (view c') = quiz_attempts (view c) /\
  last_attempt_id (view c') = last_attempt_id (view c) /\
  match r with
  | Ok _ =>
      exists rows,
        answer_rows (last_answer_id (view c) + 1) attempt_id results = Ok rows /\
        quiz_answers (view c') = quiz_answers (view c) ++ rows /\
        last_answer_id (view c') = last_answer_id (view c) + len rows /\
        seen c' = seen c ++ replicate (length results) (disk c)
  | Raise e => True
  end.
Proof.
  induction results as [|result rest IH]; intros c r c'; simpl.
  - unfold sql_ret. intros [= <- <-]. repeat split; try done.
    + exists 0%nat. by rewrite app_nil_r.
    + exists []. rewrite !app_nil_r. unfold len. simpl.
      repeat split; try done; lia.
  - unfold sql_then, insert_answer, observed.
    destruct (answer_row _ _ result) as [row|e] eqn:Hrow; simpl.
    + intros H. apply IH in H as (Hd & [k Hk] & Ha & Hl & Hr). simpl in *.
      repeat split; try done.
      * exists (S k). rewrite Hk, <- app_assoc. done.
      * destruct r as [[]|]; [|done].
        destruct Hr as (rows & -> & Hq & Hlast & Hseen). simpl.
        exists (row :: rows). rewrite Hq, Hlast, Hseen, <- !app_assoc.
        unfold len. simpl. repeat split; try done. lia.
    + intros [= <- <-]. simpl. repeat split; try done.
      by exists 1%nat.
Qed.

(** The [with] block of [check_answers]: all or nothing. *)
Lemma save_attempt_spec d ip_address timestamp pct graded r c :
  with_closing d (save_attempt ip_address timestamp pct graded) = (r, c) ->
  match r with
  | Ok attempt_id =>
      attempt_id = last_attempt_id d + 1 /\
      exists rows,
        answer_rows (last_answer_id d + 1) attempt_id (results graded) = Ok rows /\
        disk c = saved d (attempt_row d ip_address timestamp pct graded) rows /\
        seen c = replicate (S (length (results graded))) d ++ [disk c]
  | Raise e =>
      disk c = d /\ exists k, seen c = replicate k d
  end.
Proof.
  unfold with_closing, save_attempt, sql_then, insert_attempt, observed. simpl.
  destruct (insert_answers _ _ _) as [r1 c1] eqn:H1.
  apply insert_answers_spec in H1 as (Hd & [k Hk] & Ha & Hl & Hr).
  simpl in *. destruct r1 as [[]|e]; simpl.
  - unfold commit, observed, sql_ret. simpl. intros [= <- <-]. simpl.
    split; [done |].
    destruct Hr as (rows & Hrows & Hq & Hlast & Hseen).
    exists rows. split; [done |]. split.
    + unfold saved, attempt_row. destruct (view c1); simpl in *. by subst.
    + rewrite Hseen. done.
  - intros [= <- <-]. split; [done |]. exists (S k). by rewrite Hk.
Qed.

End StoreFacts.

Module StatFacts.

Lemma sum_bounds xs :
  Forall (fun s => 0 <= s <= 100) xs -> 0 <= sum xs <= 100 * len xs.
Proof.
  unfold len. induction 1 as [|x xs Hx _ IH]; simpl; lia.
Qed.

(** The rounded average of percentages is there, and is a percentage. *)
Lemma rounded_average_bounds xs :
  Forall (fun s => 0 <= s <= 100) xs -> 100 * len xs < 2 ^ 53 ->
  exists a, rounded_average (sql_avg xs) = Ok a /\ 0 <= a <= 100.
Proof.
  intros Hxs Hlen. pose proof (sum_bounds xs Hxs) as Hs.
  destruct xs as [|x xs]; [exists 0; split; [done | lia] |].
  unfold sql_avg, rounded_average.
  set (ys := x :: xs) in *.
  assert (0 < len ys) by (unfold len, ys; simpl; lia).
  assert (Hb : bounded_by 100 (Float.div (Float.of_int (sum ys))
                                         (Float.of_int (len ys))))
    by (apply FloatFacts.div_of_int_bounded; lia).
  destruct (Float.div _ _) as [s|s| |s m e] eqn:Hdiv; simpl in Hb; try done.
  - exists 0. split; [done | lia].
  - apply FloatFacts.round_bounded; [lia | done].
Qed.

Lemma get_statistics_ok d :
  scores_ok d ->
  exists a,
    rounded_average (sql_avg (scores d)) = Ok a /\ 0 <= a <= 100 /\
    get_statistics d =
    Ok {| total_attempts := len (quiz_attempts d);
          average_score := a;
          perfect_scores := len (filter (fun s => s = 100) (scores d)) |}.
Proof.
  intros [Hs Hn].
  destruct (rounded_average_bounds (scores d) Hs) as (a & Ha & Hb).
  { unfold scores, len in *. by rewrite length_map. }
  exists a. do 2 (split; [done |]). unfold get_statistics. by rewrite Ha.
Qed.

End StatFacts.

Module CheckFacts.

(** A request that is answered went through every stage. *)
Lemma check_answers_ok d ip_address timestamp quiz_data answers resp d' :
  check_answers d ip_address timestamp quiz_data answers = (Ok resp, d') ->
  exists graded rows,
    grade quiz_data answers = Ok graded /\
    percentage (correct_count graded) (total_count graded)
      = Ok (resp_percentage resp) /\
    resp_results resp = results graded /\
    resp_correct resp = correct_count graded /\
    resp_total resp = total_count graded /\
    answer_rows (last_answer_id d + 1) (last_attempt_id d + 1)
      (results graded) = Ok rows /\
    d' = saved d (attempt_row d ip_address timestamp
                    (resp_percentage resp) graded) rows /\
    get_statistics d' = Ok (resp_statistics resp).
Proof.
  unfold check_answers.
  destruct (grade quiz_data answers) as [graded|] eqn:Hg; [|done].
  destruct (percentage _ _) as [pct|] eqn:Hp; [|done].
  destruct (with_closing _ _) as [r c] eqn:Hs.
  apply StoreFacts.save_attempt_spec in Hs.
  destruct r as [attempt_id|]; [|done].
  destruct Hs as (-> & rows & Hrows & Hdisk & _).
  destruct (get_statistics (disk c)) as [stats|] eqn:Hst; [|done].
  intros [= <- <-]. simpl. exists graded, rows. by rewrite Hst.
Qed.

Lemma answer_row_user_answer next_id attempt_id result row s :
  answer_row next_id attempt_id result = Ok row ->
  result !! "userAnswer" = Some (JStr s) ->
  Answer.user_answer row = SqlText s.
Proof.
  unfold answer_row, getitem. intros H Hs. rewrite Hs in H. revert H.
  destruct (result !! "wordIndex"); simpl; [|done].
  destruct (result !! "isLevel1"); simpl; [|done].
  destruct (result !! "correctAnswer"); simpl; [|done].
  destruct (result !! "correct"); simpl; [|done].
  repeat (match goal with
          | |- context [mbind _ ?m] => destruct m; simpl; [|done]
          end).
  by intros [= <-].
Qed.

End CheckFacts.

Module AtomicFacts.

Lemma filter_none {A} (P : A -> Prop) `{!forall x, Decision (P x)} (l : list A) :
  Forall (fun x => ~ P x) l -> filter P l = [].
Proof.
  induction 1 as [|x l Hx _ IH]; [done |].
  by rewrite filter_cons_False.
Qed.

Lemma filter_all {A} (P : A -> Prop) `{!forall x, Decision (P x)} (l : list A) :
  Forall P l -> filter P l = l.
Proof.
  induction 1 as [|x l Hx _ IH]; [done |].
  rewrite filter_cons_True by done. by f_equal.
Qed.

(** Before the attempt is there, nothing refers to its identifier. *)
Lemma fresh_attempt d :
  sequenced d ->
  ~ has_attempt d (last_attempt_id d + 1) /\
  answers_of d (last_attempt_id d + 1) = [].
Proof.
  intros [Hatt Hans]. split.
  - intros (r & Hr & Hid). apply Hatt in Hr. lia.
  - apply filter_none, Forall_forall. intros r Hr. apply Hans in Hr. lia.
Qed.

(** With the attempt and all its rows, every row has its attempt. *)
Lemma saved_complete d attempt rows :
  sequenced d -> referential d ->
  Attempt.id attempt = last_attempt_id d + 1 ->
  Forall (fun r => Answer.attempt_id r = last_attempt_id d + 1) rows ->
  referential (saved d attempt rows) /\
  sequenced (saved d attempt rows) /\
  has_attempt (saved d attempt rows) (last_attempt_id d + 1) /\
  answers_of (saved d attempt rows) (last_attempt_id d + 1) = rows.
Proof.
  intros Hseq Href Hid Hrows.
  assert (Hnew : has_attempt (saved d attempt rows) (last_attempt_id d + 1)).
  { exists attempt. split; [|done]. simpl. apply elem_of_app. right.
    apply list_elem_of_here. }
  split; [|split; [|split; [done |]]].
  - intros r [Hr | Hr]%elem_of_app.
    + destruct (Href r Hr) as (a & Ha & Hida).
      exists a. split; [|done]. simpl. apply elem_of_app. by left.
    + rewrite Forall_forall in Hrows. by rewrite (Hrows r Hr).
  - destruct Hseq as [Hatt Hans]. split; simpl.
    + intros r [Hr | Hr%list_elem_of_singleton]%elem_of_app.
      * apply Hatt in Hr. lia.
      * subst r. lia.
    + intros r [Hr | Hr]%elem_of_app.
      * apply Hans in Hr. lia.
      * rewrite Forall_forall in Hrows. rewrite (Hrows r Hr). lia.
  - unfold answers_of. simpl. rewrite filter_app.
    destruct (fresh_attempt d Hseq) as [_ Hnone]. unfold answers_of in Hnone.
    rewrite Hnone. simpl. by apply filter_all.
Qed.

End AtomicFacts.

(** C7. The attempt row and the answer rows of a request are inserted
    on one connection and committed once, after the last insert; an
    insert that fails ends the block before the commit and the
    connection is closed. So in the file, after each statement and at the
    end, every answer row has its attempt row, and the new attempt is
    either not there, with no answer row of its own, or there with one
    answer row per result. After an exception the file is as it was. *)
Theorem attempt_saved_atomically d ip_address timestamp pct graded r c :
  sequenced d -> referential d ->
  with_closing d (save_attempt ip_address timestamp pct graded) = (r, c) ->
  (forall s, s ∈ seen c ++ [disk c] ->
     referential s /\
     ((~ has_attempt s (last_attempt_id d + 1) /\
       answers_of s (last_attempt_id d + 1) = []) \/
      (r = Ok (last_attempt_id d + 1) /\
       has_attempt s (last_attempt_id d + 1) /\
       length (answers_of s (last_attempt_id d + 1)) = length (results graded)))) /\
  (forall e, r = Raise e -> disk c = d) /\
  (forall attempt_id, r = Ok attempt_id ->
     attempt_id = last_attempt_id d + 1 /\
     has_attempt (disk c) attempt_id /\
     length (answers_of (disk c) attempt_id) = length (results graded)) /\
  sequenced (disk c).
Proof.
  intros Hseq Href Hsave.
  pose proof (AtomicFacts.fresh_attempt d Hseq) as Hfresh.
  apply StoreFacts.save_attempt_spec in Hsave.
  destruct r as [attempt_id|e].
  - destruct Hsave as (-> & rows & Hrows & Hdisk & Hseen).
    pose proof (StoreFacts.answer_rows_length _ _ _ _ Hrows) as Hlen.
    apply StoreFacts.answer_rows_attempt_id in Hrows.
    destruct (AtomicFacts.saved_complete d
                (attempt_row d ip_address timestamp pct graded) rows
                Hseq Href eq_refl Hrows) as (Hr & Hs & Hh & Ha).
    rewrite <- Hdisk in Hr, Hs, Hh, Ha.
    assert (Hfull : referential (disk c) /\
              ((~ has_attempt (disk c) (last_attempt_id d + 1) /\
                answers_of (disk c) (last_attempt_id d + 1) = []) \/
               (Ok (last_attempt_id d + 1) = Ok (last_attempt_id d + 1) /\
                has_attempt (disk c) (last_attempt_id d + 1) /\
                length (answers_of (disk c) (last_attempt_id d + 1))
                = length (results graded)))).
    { split; [done |]. right. by rewrite Ha. }
    split; [|split; [done | split; [|done]]].
    + rewrite Hseen. intros s Hin.
      rewrite !elem_of_app, !list_elem_of_singleton in Hin.
      destruct Hin as [[Hin%elem_of_replicate | ->] | ->]; try done.
      destruct Hin as [-> _]. split; [done |]. by left.
    + intros ? [= <-]. by rewrite Ha.
  - destruct Hsave as (Hdisk & k & Hseen). rewrite Hdisk, Hseen.
    split; [|split; [done | split; [done | done]]].
    intros s Hin. rewrite elem_of_app, list_elem_of_singleton in Hin.
    assert (s = d) as ->
      by (destruct Hin as [[-> _]%elem_of_replicate | ->]; done).
    split; [done |]. by left.
Qed.

(** C8. In a request that is answered, the ["userAnswer"] of the i-th
    result and the [user_answer] of the i-th answer row added to the
    database are one string, the answer of the i-th submission with its
    surrounding white space removed and nothing else changed: the answer
    is that string between two runs of white space, every character of
    it as it was sent, in its own letter case, and the string neither
    starts nor ends with a white-space character. Lower case is used in
    the comparison only. *)
Theorem user_answer_trimmed_only d ip_address timestamp quiz_data answers
    resp d' i a :
  check_answers d ip_address timestamp quiz_data answers = (Ok resp, d') ->
  answers !! i = Some a ->
  exists ans result row,
    get a "answer" (JStr "") = JStr ans /\
    resp_results resp !! i = Some result /\
    result !! "userAnswer" = Some (JStr (Str.strip ans)) /\
    quiz_answers d' !! (length (quiz_answers d) + i)%nat = Some row /\
    Answer.user_answer row = SqlText (Str.strip ans) /\
    (exists l r, ans = l +:+ Str.strip ans +:+ r /\
                 Str.blank l = true /\ Str.blank r = true) /\
    starts_with_space (Str.strip ans) = false /\
    ends_with_space (Str.strip ans) = false.
Proof.
  intros Hcheck Ha.
  destruct (CheckFacts.check_answers_ok _ _ _ _ _ _ _ Hcheck)
    as (graded & rows & Hg & _ & Hres & _ & _ & Hrows & -> & _).
  destruct (GradeFacts.grade_from_inv _ _ _ _ Hg)
    as (rs & Hrs & Hlen & Hnth & _). simpl in Hrs. subst rs.
  destruct (Hnth i a Ha) as (result & Hi & Hof).
  destruct (Hof tally0) as (st' & Hst' & Hst). simpl in Hst.
  assert (Hua : exists ans, get a "answer" (JStr "") = JStr ans /\
                 result !! "userAnswer" = Some (JStr (Str.strip ans))).
  { destruct (GradeFacts.grade_answer_inv _ _ _ _ Hst')
      as (wi & ans & word & Hwi & Hans & Hword &
          [(Hl1 & expected & Hca & ->)
          |[(Hl1 & k & expected & Hc & Hne & Hk & ->)
           |(Hl1 & Hc & ->)]]);
      simpl in Hst; simplify_eq; exists ans; (split; [done |]);
      unfold graded_result; by simplify_map_eq. }
  destruct Hua as (ans & Hans & Hua).
  pose proof (StoreFacts.answer_rows_length _ _ _ _ Hrows) as Hlr.
  destruct (lookup_lt_is_Some_2 rows i) as [row Hrow].
  { rewrite Hlr, Hlen. by eapply lookup_lt_Some. }
  destruct (StoreFacts.answer_rows_lookup _ _ _ _ _ _ Hrows Hrow)
    as (result' & Hi' & Hmk).
  assert (result' = result) as -> by congruence.
  exists ans, result, row. split; [done |]. split; [by rewrite Hres |].
  split; [done |]. split.
  - simpl. rewrite lookup_app_r by lia.
    by replace (length (quiz_answers d) + i - length (quiz_answers d))%nat
      with i by lia.
  - split; [by eapply CheckFacts.answer_row_user_answer |].
    split; [apply StrFacts.strip_decomp | apply EdgeFacts.strip_edges].
Qed.

Module NullFacts.

Lemma answer_row_null next_id attempt_id result :
  result !! "correctAnswer" = Some JNull ->
  raises (answer_row next_id attempt_id result).
Proof.
  unfold answer_row, getitem. intros ->.
  destruct (result !! "wordIndex"); simpl; [|by eexists].
  destruct (result !! "isLevel1"); simpl; [|by eexists].
  destruct (result !! "userAnswer"); simpl; [|by eexists].
  destruct (result !! "correct"); simpl; [|by eexists].
  repeat (match goal with
          | |- context [mbind _ ?m] => destruct m; simpl; [|by eexists]
          end).
  by eexists.
Qed.

Lemma answer_rows_null results : forall next_id attempt_id i result,
  results !! i = Some result ->
  result !! "correctAnswer" = Some JNull ->
  raises (answer_rows next_id attempt_id results).
Proof.
  induction results as [|r rest IH]; intros next_id attempt_id i result;
    [by rewrite lookup_nil |].
  simpl. destruct i as [|i]; simpl.
  - intros [= ->] Hnull.
    destruct (answer_row_null next_id attempt_id result Hnull) as [e ->].
    by eexists.
  - intros Hi Hnull.
    destruct (answer_row _ _ r); simpl; [|by eexists].
    destruct (IH (next_id + 1) attempt_id i result Hi Hnull) as [e ->].
    by eexists.
Qed.

End NullFacts.

(** X1. A result without a [correctAnswer], which is what grading leaves for
    a submission it passes over, cannot be stored: [correct_answer] is a
    [NOT NULL] column. The request ends with an exception and the
    database is as it was. *)
Theorem passed_over_result_fails_request d ip_address timestamp quiz_data
    answers graded i result :
  grade quiz_data answers = Ok graded ->
  Z.of_nat (length answers) < 2 ^ 53 ->
  results graded !! i = Some result ->
  result !! "correctAnswer" = Some JNull ->
  exists e, check_answers d ip_address timestamp quiz_data answers
            = (Raise e, d).
Proof.
  intros Hg Hlen Hi Hnull.
  destruct (PercentFacts.percentage_after_grading _ _ _ Hg Hlen)
    as (p & Hp & _).
  unfold check_answers. rewrite Hg, Hp.
  destruct (with_closing _ _) as [r c] eqn:Hs.
  apply StoreFacts.save_attempt_spec in Hs.
  destruct r as [attempt_id|e].
  - destruct Hs as (_ & rows & Hrows & _).
    destruct (NullFacts.answer_rows_null _ (last_answer_id d + 1) attempt_id
                _ _ Hi Hnull) as [e He].
    congruence.
  - destruct Hs as [-> _]. by eexists.
Qed.

(** ** More on the grading loop *)

Module ShiftFacts.

Lemma compare_answer_shift user_answer correct_answer result st :
  compare_answer user_answer correct_answer result
    (Tally (results st) (correct_count st) (total_count st + 1)) =
  (g ← compare_answer user_answer correct_answer result (Tally [] 0 (0 + 1));
   Ok (tally_app st g)).
Proof.
  unfold compare_answer. destruct (as_str correct_answer); simpl; [|done].
  destruct (String.eqb _ _); simpl; unfold tally_app; simpl; do 2 f_equal; lia.
Qed.

(** An iteration does to any state what it does to the initial one. *)
Lemma grade_answer_shift quiz_data st a :
  grade_answer quiz_data st a =
  (g ← grade_answer quiz_data tally0 a; Ok (tally_app st g)).
Proof.
  unfold grade_answer.
  destruct (getitem a "wordIndex"); simpl; [|done].
  destruct (stripped_answer a); simpl; [|done].
  destruct (list_getitem quiz_data _); simpl; [|done].
  destruct (truthy _).
  - destruct (getitem _ "ca"); simpl; [|done]. apply compare_answer_shift.
  - destruct (country_present _ _) as [[]|]; simpl; [| |done].
    + destruct (getitem_v _ _); simpl; [|done]. apply compare_answer_shift.
    + unfold tally_app. simpl. do 2 f_equal; lia.
Qed.

Lemma tally_app_assoc st g h :
  tally_app (tally_app st g) h = tally_app st (tally_app g h).
Proof. unfold tally_app. simpl. rewrite app_assoc. f_equal; lia. Qed.

Lemma tally_app_0_l g : tally_app tally0 g = g.
Proof. destruct g. unfold tally_app. simpl. f_equal; lia. Qed.

Lemma tally_app_0_r st : tally_app st tally0 = st.
Proof. destruct st. unfold tally_app. simpl. rewrite app_nil_r. f_equal; lia. Qed.

(** The loop from any state is the loop from the initial one, put after
    the state. *)
Lemma grade_from_shift quiz_data answers : forall st,
  grade_from quiz_data st answers =
  (g ← grade quiz_data answers; Ok (tally_app st g)).
Proof.
  unfold grade, grade_from.
  induction answers as [|a answers IH]; intros st; simpl.
  - by rewrite tally_app_0_r.
  - rewrite (grade_answer_shift quiz_data st a).
    destruct (grade_answer quiz_data tally0 a) as [g1|]; simpl; [|done].
    rewrite (IH (tally_app st g1)), (IH g1).
    destruct (for_each _ tally0 answers) as [g2|]; simpl; [|done].
    by rewrite tally_app_assoc.
Qed.

Lemma grade_app_eq quiz_data xs ys :
  grade quiz_data (xs ++ ys) =
  match grade quiz_data xs with
  | Ok g1 =>
      match grade quiz_data ys with
      | Ok g2 => Ok (tally_app g1 g2)
      | Raise e => Raise e
      end
  | Raise e => Raise e
  end.
Proof.
  unfold grade at 1. unfold grade_from. rewrite GradeFacts.for_each_app.
  fold (grade_from quiz_data tally0 xs). fold (grade quiz_data xs).
  destruct (grade quiz_data xs) as [g1|]; simpl; [|done].
  fold (grade_from quiz_data g1 ys). rewrite grade_from_shift.
  by destruct (grade quiz_data ys).
Qed.

Lemma grade_cons quiz_data a answers :
  grade quiz_data (a :: answers) =
  match grade quiz_data [a] with
  | Ok g1 =>
      match grade quiz_data answers with
      | Ok g2 => Ok (tally_app g1 g2)
      | Raise e => Raise e
      end
  | Raise e => Raise e
  end.
Proof. apply (grade_app_eq quiz_data [a] answers). Qed.

Lemma grade_cons_ok quiz_data a answers g :
  grade quiz_data (a :: answers) = Ok g ->
  exists g1 g2,
    grade quiz_data [a] = Ok g1 /\ grade quiz_data answers = Ok g2 /\
    g = tally_app g1 g2.
Proof.
  rewrite grade_cons.
  destruct (grade quiz_data [a]) as [g1|]; [|done].
  destruct (grade quiz_data answers) as [g2|]; [|done].
  intros [= <-]. eauto.
Qed.

Lemma grade_single quiz_data a :
  grade quiz_data [a] = grade_answer quiz_data tally0 a.
Proof.
  unfold grade, grade_from. simpl.
  by destruct (grade_answer quiz_data tally0 a).
Qed.

(** A submission that raises from every state ends the request, and the
    database is as it was. *)
Lemma raising_submission d ip_address timestamp quiz_data answers a :
  a ∈ answers ->
  (forall st, raises (grade_answer quiz_data st a)) ->
  exists e, check_answers d ip_address timestamp quiz_data answers
            = (Raise e, d).
Proof.
  intros (pre & post & ->)%list_elem_of_split Hraise.
  unfold check_answers, grade, grade_from.
  rewrite GradeFacts.for_each_app.
  destruct (for_each _ tally0 pre) as [st1|e]; simpl; [|by eexists].
  destruct (Hraise st1) as [e ->]. simpl. by eexists.
Qed.

Lemma count_app {A} (f : A -> bool) (l1 l2 : list A) :
  count f (l1 ++ l2) = count f l1 + count f l2.
Proof. unfold count, len. rewrite List.filter_app, length_app. lia. Qed.

End ShiftFacts.


(** X2. Submissions are graded one by one, with nothing carried from one
    to the next but the results list and the two counters. Grading a list
    followed by another gives the results of the first followed by those
    of the second and the sums of their counters, and raises what the
    first raises, or else what the second raises. So a submission sent
    twice is counted twice. *)
Theorem grade_app quiz_data xs ys :
  grade quiz_data (xs ++ ys) =
  match grade quiz_data xs with
  | Ok g1 =>
      match grade quiz_data ys with
      | Ok g2 => Ok (tally_app g1 g2)
      | Raise e => Raise e
      end
  | Raise e => Raise e
  end.
Proof. apply ShiftFacts.grade_app_eq. Qed.

(** X3. The score does not depend on the order of the submissions: when
    a list of submissions is graded without an exception, so is any
    rearrangement of it, with the same two counters and the same results
    in the new order. *)
Theorem grade_permutation quiz_data xs ys g :
  xs ≡ₚ ys ->
  grade quiz_data xs = Ok g ->
  exists g',
    grade quiz_data ys = Ok g' /\
    correct_count g' = correct_count g /\
    total_count g' = total_count g /\
    results g' ≡ₚ results g.
Proof.
  intros Hp. revert g.
  induction Hp as [|a xs ys Hp IH|a b xs|xs ys zs _ IH1 _ IH2]; intros g Hg.
  - exists g. by rewrite <- Hg.
  - apply ShiftFacts.grade_cons_ok in Hg as (g1 & g2 & H1 & H2 & ->).
    destruct (IH g2 H2) as (g2' & H2' & Hc & Ht & Hr).
    exists (tally_app g1 g2'). rewrite ShiftFacts.grade_cons, H1, H2'.
    unfold tally_app. simpl. split; [done |]. split; [lia |]. split; [lia |].
    by apply Permutation_app_head.
  - apply ShiftFacts.grade_cons_ok in Hg as (gb & g2 & Hb & H2 & ->).
    apply ShiftFacts.grade_cons_ok in H2 as (ga & g3 & Ha & H3 & ->).
    exists (tally_app ga (tally_app gb g3)).
    rewrite ShiftFacts.grade_cons, Ha, ShiftFacts.grade_cons, Hb, H3.
    unfold tally_app. simpl. split; [done |]. split; [lia |]. split; [lia |].
    rewrite !app_assoc. apply Permutation_app_tail, Permutation_app_comm.
  - destruct (IH1 g Hg) as (g1 & H1 & Hc1 & Ht1 & Hr1).
    destruct (IH2 g1 H1) as (g2 & H2 & Hc2 & Ht2 & Hr2).
    exists g2. split; [done |]. split; [lia |]. split; [lia |].
    by etrans.
Qed.

Module CountFacts.

Lemma one_result quiz_data a g :
  grade_answer quiz_data tally0 a = Ok g ->
  total_count g = count is_counted (results g) /\
  correct_count g = count is_right (results g).
Proof.
  intros H.
  destruct (GradeFacts.grade_answer_inv _ _ _ _ H)
    as (wi & ans & word & Hwi & Hans & Hword &
        [(Hl1 & expected & Hca & ->)
        |[(Hl1 & k & expected & Hc & Hne & Hk & ->)
         |(Hl1 & Hc & ->)]]);
    unfold counted, passed_over, count, is_counted, is_right, graded_result, len;
    simpl.
  - rewrite !lookup_insert_ne, lookup_insert_eq by done.
    rewrite lookup_insert_ne, lookup_insert_ne, lookup_insert_eq by done.
    simpl. by destruct (same_spelling ans expected).
  - rewrite !lookup_insert_ne, lookup_insert_eq by done.
    rewrite lookup_insert_ne, lookup_insert_ne, lookup_insert_ne,
      lookup_insert_eq by done.
    simpl. by destruct (same_spelling ans expected).
  - rewrite !lookup_insert_ne, lookup_insert_eq by done.
    rewrite lookup_insert_ne, lookup_insert_ne, lookup_insert_eq by done.
    done.
Qed.

Lemma counters_count quiz_data answers : forall g,
  grade quiz_data answers = Ok g ->
  total_count g = count is_counted (results g) /\
  correct_count g = count is_right (results g).
Proof.
  induction answers as [|a answers IH]; intros g Hg.
  - injection Hg as <-. done.
  - apply ShiftFacts.grade_cons_ok in Hg as (g1 & g2 & H1 & H2 & ->).
    rewrite ShiftFacts.grade_single in H1.
    destruct (one_result _ _ _ H1) as [Ht1 Hc1].
    destruct (IH _ H2) as [Ht2 Hc2].
    unfold tally_app. simpl. rewrite !ShiftFacts.count_app. lia.
Qed.

End CountFacts.

(** X4. After a grading loop the two counters can be read off the
    results: [total_count] is the number of results that carry a
    [correctAnswer], [correct_count] the number of results marked
    [correct], and every result marked correct carries a
    [correctAnswer]. *)
Theorem counters_read_off_results quiz_data answers g :
  grade quiz_data answers = Ok g ->
  total_count g = count is_counted (results g) /\
  correct_count g = count is_right (results g) /\
  Forall (fun result => is_right result = true -> is_counted result = true)
         (results g).
Proof.
  intros Hg. destruct (CountFacts.counters_count _ _ _ Hg) as [Ht Hc].
  do 2 (split; [done |]).
  destruct (GradeFacts.grade_from_inv _ _ _ _ Hg)
    as (rs & Hrs & Hlen & Hnth & _). simpl in Hrs. subst rs.
  apply Forall_lookup. intros i result Hi.
  assert (is_Some (answers !! i)) as [a Ha].
  { apply lookup_lt_is_Some. rewrite <- Hlen. by eapply lookup_lt_Some. }
  destruct (Hnth i a Ha) as (result' & Hi' & Hof).
  assert (result' = result) as -> by congruence.
  destruct (Hof tally0) as (st' & Hst' & Hres). simpl in Hres.
  destruct (GradeFacts.grade_answer_inv _ _ _ _ Hst')
    as (wi & ans & word & Hwi & Hans & Hword &
        [(Hl1 & expected & Hca & ->)
        |[(Hl1 & k & expected & Hc' & Hne & Hk & ->)
         |(Hl1 & Hc' & ->)]]);
    simpl in Hres; simplify_eq;
    unfold is_counted, is_right, graded_result; by simplify_map_eq.
Qed.

Module TypeFacts.

Lemma as_str_not_str v : is_str v = false -> as_str v = Raise AttributeError.
Proof. by destruct v. Qed.

Lemma list_getitem_not_index {A} (l : list A) v :
  is_index v = false -> list_getitem l v = Raise TypeError.
Proof. by destruct v. Qed.

End TypeFacts.

(** X5. A field of the wrong type is not defaulted: an ["answer"] that
    is present and not a string ([null], a number, ...) raises
    [AttributeError], and, the answer being a string or missing, a
    ["wordIndex"] that is neither an integer nor a boolean (a float such
    as [1.0], a string, [null]) raises [TypeError]. Either ends the
    request wherever the submission stands, and the database is as it
    was. *)
Theorem wrong_type_fails_request d ip_address timestamp quiz_data answers a wi :
  a ∈ answers ->
  a !! "wordIndex" = Some wi ->
  is_str (get a "answer" (JStr "")) = false \/ is_index wi = false ->
  (forall st,
     grade_answer quiz_data st a =
     Raise (if is_str (get a "answer" (JStr ""))
            then TypeError else AttributeError)) /\
  exists e, check_answers d ip_address timestamp quiz_data answers
            = (Raise e, d).
Proof.
  intros Hin Hwi Hbad.
  assert (Hst : forall st,
     grade_answer quiz_data st a =
     Raise (if is_str (get a "answer" (JStr ""))
            then TypeError else AttributeError)).
  { intros st. unfold grade_answer, getitem, stripped_answer.
    rewrite Hwi. simpl.
    destruct (is_str (get a "answer" (JStr ""))) eqn:Hs.
    - destruct Hbad as [|Hni]; [done |].
      destruct (get a "answer" (JStr "")); try done. simpl.
      by rewrite TypeFacts.list_getitem_not_index.
    - by rewrite TypeFacts.as_str_not_str. }
  split; [done |].
  eapply ShiftFacts.raising_submission; [done |].
  intros st. rewrite Hst. by eexists.
Qed.

(** X6. The key a submission names as its country must hold a string:
    when it holds anything else the comparison raises [AttributeError]
    and the request ends, the database as it was. Every question
    [generate_quiz_data] makes holds an integer under ["level"], so on a
    generated quiz a submission with [country = "level"] does so. *)
Theorem country_level_fails_request d ip_address timestamp quiz_data answers
    a wi ans word k v :
  a ∈ answers ->
  a !! "wordIndex" = Some wi ->
  get a "answer" (JStr "") = JStr ans ->
  list_getitem quiz_data wi = Ok word ->
  level1 a = false ->
  get a "country" JNull = JStr k ->
  k <> "" ->
  word !! k = Some v ->
  is_str v = false ->
  (forall st, grade_answer quiz_data st a = Raise AttributeError) /\
  (exists e, check_answers d ip_address timestamp quiz_data answers
             = (Raise e, d)) /\
  (forall group question,
     question_of group question ->
     exists z, question !! "level" = Some (JInt z) /\ is_str (JInt z) = false).
Proof.
  intros Hin Hwi Hans Hword Hl1 Hc Hne Hk Hv.
  assert (Hst : forall st, grade_answer quiz_data st a = Raise AttributeError).
  { intros st. unfold grade_answer, getitem, stripped_answer, country_present.
    unfold level1 in Hl1.
    rewrite Hwi, Hans; simpl. rewrite Hword; simpl. rewrite Hl1, Hc; simpl.
    apply String.eqb_neq in Hne. rewrite Hne. simpl.
    rewrite bool_decide_eq_true_2 by eauto. simpl.
    unfold getitem. rewrite Hk. simpl.
    unfold compare_answer. by rewrite TypeFacts.as_str_not_str. }
  split; [done |]. split.
  - eapply ShiftFacts.raising_submission; [done |].
    intros st. rewrite Hst. by eexists.
  - intros group question (w & _ & _ & Hlevel & _).
    eexists. split; done.
Qed.

(** X7. A negative ["wordIndex"] is not out of range as long as it is at
    least [-len(quizData)]: the submission is graded against the question
    that many places from the end, and its result keeps the negative
    index. For a level-1 submission with index [-k]: the question is the
    one at position [len - k]. *)
Theorem negative_index_from_end quiz_data st a k ans word expected :
  0 < k <= Z.of_nat (length quiz_data) ->
  a !! "wordIndex" = Some (JInt (- k)) ->
  get a "answer" (JStr "") = JStr ans ->
  quiz_data !! (length quiz_data - Z.to_nat k)%nat = Some word ->
  level1 a = true ->
  word !! "ca" = Some (JStr expected) ->
  exists result,
    grade_answer quiz_data st a =
      Ok (counted st result (same_spelling ans expected)) /\
    result !! "wordIndex" = Some (JInt (- k)) /\
    result !! "correctAnswer" = Some (JStr expected) /\
    result !! "correct" = Some (JBool (same_spelling ans expected)).
Proof.
  intros Hk Hwi Hans Hword Hl1 Hca.
  assert (Hget : list_getitem quiz_data (JInt (- k)) = Ok word).
  { unfold list_getitem.
    assert ((- k <? 0) = true) as -> by lia.
    assert ((0 <=? - k + Z.of_nat (length quiz_data))
            && (- k + Z.of_nat (length quiz_data) <? Z.of_nat (length quiz_data))
            = true) as -> by (apply andb_true_intro; split; lia).
    replace (Z.to_nat (- k + Z.of_nat (length quiz_data)))
      with (length quiz_data - Z.to_nat k)%nat by lia.
    by rewrite Hword. }
  eexists. split; [by eapply GradeFacts.grade_level1 |].
  unfold graded_result. by simplify_map_eq.
Qed.

(** ** More on the percentage *)

Module DyadicFacts.
Import FloatFacts.

Lemma fexp_le x j : 0 <= j <= 1000 -> x <= 53 - j ->
  fexp Float.prec Float.emax x <= - j.
Proof. unfold fexp, emin, Float.prec, Float.emax. lia. Qed.

(** [shr_fexp_under], for a bound [K / 2^j]. *)
Lemma shr_fexp_under_dyadic K j m e l mrs' e' :
  0 < K < 2 ^ 53 -> 0 <= j <= 1000 -> e <= - j ->
  under (K * 2 ^ (- e - j)) (shr_record_of_loc m l) ->
  shr_fexp Float.prec Float.emax m e l = (mrs', e') ->
  e' <= - j /\ under (K * 2 ^ (- e' - j)) mrs'.
Proof.
  intros HK Hj He Hu. unfold shr_fexp, shr.
  assert (Hm : 0 <= m < 2 ^ (53 - e - j)).
  { assert (shr_m (shr_record_of_loc m l) = m) as Hsm
      by by destruct l as [|[]].
    destruct Hu as [H0 H]. rewrite Hsm in *.
    split; [done |].
    replace (53 - e - j) with (53 + (- e - j)) by lia.
    rewrite pow2_split by lia.
    assert (0 < 2 ^ (- e - j)) by (apply Z.pow_pos_nonneg; lia). nia. }
  assert (Hd : Zdigits2 m + e <= 53 - j)
    by (pose proof (Zdigits2_le m (53 - e - j) Hm); lia).
  pose proof (fexp_le _ j Hj Hd) as Hf.
  destruct (fexp Float.prec Float.emax (Zdigits2 m + e) - e) as [|p|p] eqn:Hn;
    intros [= <- <-]; [done | | done].
  split; [lia |].
  apply iter_pos_under.
  replace (2 ^ Zpos p * (K * 2 ^ (- (e + Zpos p) - j)))
    with (K * 2 ^ (- e - j)); [done |].
  replace (- e - j) with (Zpos p + (- (e + Zpos p) - j)) at 1 by lia.
  rewrite pow2_split by lia. lia.
Qed.

(** Rounding to nearest even does not pass [K / 2^j]. *)
Lemma round_aux_bounded_dyadic K j m e l :
  0 < K < 2 ^ 53 -> 0 <= j <= 1000 -> e <= - j ->
  under (K * 2 ^ (- e - j)) (shr_record_of_loc m l) ->
  bounded_dyadic K j (binary_round_aux Float.prec Float.emax false m e l).
Proof.
  intros HK Hj He Hu. unfold binary_round_aux.
  destruct (shr_fexp _ _ m e l) as [mrs1 e1] eqn:H1.
  destruct (shr_fexp_under_dyadic K j m e l mrs1 e1 HK Hj He Hu H1) as [He1 Hu1].
  pose proof (round_nearest_even_under _ _ Hu1) as Hr.
  set (m2 := round_nearest_even _ _) in *.
  destruct (shr_fexp _ _ m2 e1 loc_Exact) as [mrs2 e2] eqn:H2.
  assert (Hu2 : under (K * 2 ^ (- e1 - j)) (shr_record_of_loc m2 loc_Exact)).
  { unfold under. simpl. lia. }
  destruct (shr_fexp_under_dyadic K j m2 e1 loc_Exact mrs2 e2 HK Hj He1 Hu2 H2)
    as [He2 Hu3].
  destruct Hu3 as [H0 Hle].
  destruct (shr_m mrs2) as [|p|p] eqn:Hm; simpl; [done | | lia].
  assert ((e2 <=? Float.emax - Float.prec) = true) as ->
    by (unfold Float.emax, Float.prec; lia).
  simpl. split; [done | lia].
Qed.

(** The quotient of two positive floats is at most [K / 2^j] when
    [2^j] times the dividend is at most [K] times the divisor. *)
Lemma div_bounded_dyadic K j ma ea mb eb :
  0 < K < 2 ^ 53 -> 0 <= j <= 1000 -> ea <= 0 -> eb <= 0 ->
  Zpos ma * 2 ^ (- eb) * 2 ^ j <= K * Zpos mb * 2 ^ (- ea) ->
  bounded_dyadic K j
    (Float.div (S754_finite false ma ea) (S754_finite false mb eb)).
Proof.
  intros HK Hj Hea Heb Hle. unfold Float.div, SFdiv, SFdiv_core_binary.
  simpl Zdigits2.
  set (d1 := Zpos (digits2_pos ma)). set (d2 := Zpos (digits2_pos mb)).
  set (e' := Z.min _ _). set (s := ea - eb - e').
  pose proof (digits2_pos_bounds ma) as [Hlo1 _].
  pose proof (digits2_pos_bounds mb) as [_ Hhi2].
  fold d1 in Hlo1. fold d2 in Hhi2.
  assert (Hd1 : 1 <= d1) by (unfold d1; lia).
  assert (Hd2 : 1 <= d2) by (unfold d2; lia).
  assert (Hpa : 0 < 2 ^ (- ea)) by (apply Z.pow_pos_nonneg; lia).
  assert (Hpb : 0 < 2 ^ (- eb)) by (apply Z.pow_pos_nonneg; lia).
  assert (Hpj : 0 < 2 ^ j) by (apply Z.pow_pos_nonneg; lia).
  assert (Hdd : d1 + ea - (d2 + eb) <= 53 - j).
  { destruct (Z_le_gt_dec (d1 + ea - (d2 + eb)) (53 - j)) as [|Hgt]; [done |].
    exfalso.
    assert (H1 : 2 ^ (53 + d2 - ea) <= 2 ^ (d1 - 1 - eb + j))
      by (apply Z.pow_le_mono_r; lia).
    replace (53 + d2 - ea) with (53 + d2 + - ea) in H1 by lia.
    replace (d1 - 1 - eb + j) with (d1 - 1 + - eb + j) in H1 by lia.
    rewrite !pow2_split in H1 by lia.
    assert (0 < 2 ^ d2) by (apply Z.pow_pos_nonneg; lia).
    assert (K * Zpos mb < 2 ^ 53 * 2 ^ d2)
      by (apply Z.mul_lt_mono_nonneg; lia).
    assert (K * Zpos mb * 2 ^ (- ea) < 2 ^ 53 * 2 ^ d2 * 2 ^ (- ea))
      by (by apply Z.mul_lt_mono_pos_r).
    assert (2 ^ (d1 - 1) * 2 ^ (- eb) <= Zpos ma * 2 ^ (- eb))
      by (apply Z.mul_le_mono_nonneg_r; lia).
    assert (2 ^ (d1 - 1) * 2 ^ (- eb) * 2 ^ j <= Zpos ma * 2 ^ (- eb) * 2 ^ j)
      by (apply Z.mul_le_mono_nonneg_r; lia).
    hide_pows. lia. }
  assert (He' : e' <= - j).
  { pose proof (fexp_le _ j Hj Hdd). unfold e'. lia. }
  assert (Hs : 0 <= s) by (unfold s, e'; lia).
  set (m' := match s with Z.pos _ => Z.shiftl (Z.pos ma) s | 0 => Z.pos ma
             | Z.neg _ => 0 end).
  assert (Hm' : m' = Zpos ma * 2 ^ s).
  { unfold m'. destruct s as [|ps|ps] eqn:Es; [simpl; lia | | lia].
    by rewrite Z.shiftl_mul_pow2. }
  assert (Hpe : 0 < 2 ^ (- e' - j)) by (apply Z.pow_pos_nonneg; lia).
  assert (Hq : m' <= K * 2 ^ (- e' - j) * Zpos mb).
  { assert (Hs2 : 2 ^ s * 2 ^ (- ea) = 2 ^ (- eb) * 2 ^ (- e' - j) * 2 ^ j).
    { rewrite <- !pow2_split by lia. f_equal. unfold s. lia. }
    assert (Hmul : Zpos ma * 2 ^ (- eb) * 2 ^ j * 2 ^ (- e' - j)
                   <= K * Zpos mb * 2 ^ (- ea) * 2 ^ (- e' - j))
      by (apply Z.mul_le_mono_nonneg_r; lia).
    assert (Heq : m' * 2 ^ (- ea)
                  = Zpos ma * 2 ^ (- eb) * 2 ^ j * 2 ^ (- e' - j)).
    { rewrite Hm', <- Z.mul_assoc, Hs2. lia. }
    apply (Z.mul_le_mono_pos_r _ _ (2 ^ (- ea))); [done |].
    rewrite Heq. lia. }
  pose proof (Z.div_eucl_eq m' (Zpos mb) ltac:(lia)) as Heq.
  pose proof (Z.mod_pos_bound m' (Zpos mb) ltac:(lia)) as Hr.
  unfold Z.modulo in Hr.
  destruct (Z.div_eucl m' (Zpos mb)) as [q r]. simpl.
  assert (0 <= m') by (rewrite Hm'; assert (0 < 2 ^ s) by (by apply Z.pow_pos_nonneg); nia).
  apply round_aux_bounded_dyadic; [done | done | done |].
  assert (Hq0 : 0 <= q) by nia.
  assert (Hqle : q < K * 2 ^ (- e' - j) \/ (q = K * 2 ^ (- e' - j) /\ r = 0))
    by nia.
  destruct Hqle as [Hlt | [-> ->]].
  - unfold under. destruct (new_location _ _) as [|c]; [|destruct c];
      simpl; (split; [lia | left; lia]).
  - assert (new_location (Zpos mb) 0 = loc_Exact) as ->.
    { unfold new_location, new_location_even, new_location_odd.
      by destruct (Z.even _). }
    unfold under. simpl. split; [lia | right; done].
Qed.

Lemma div_of_int_bounded_dyadic K j a b :
  0 < K < 2 ^ 53 -> 0 <= j <= 1000 -> 0 <= a < 2 ^ 53 -> 0 < b < 2 ^ 53 ->
  a * 2 ^ j <= K * b ->
  bounded_dyadic K j (Float.div (Float.of_int a) (Float.of_int b)).
Proof.
  intros HK Hj Ha Hb Hab.
  destruct (of_int_exact b Hb) as (mb & eb & -> & Heb & Hmb).
  destruct (Z.eq_dec a 0) as [-> | Hne]; [by rewrite of_int_0 |].
  destruct (of_int_exact a ltac:(lia)) as (ma & ea & -> & Hea & Hma).
  apply div_bounded_dyadic; [done | done | done | done |].
  rewrite Hma, Hmb.
  assert (0 < 2 ^ (- ea)) by (apply Z.pow_pos_nonneg; lia).
  assert (0 < 2 ^ (- eb)) by (apply Z.pow_pos_nonneg; lia).
  assert (0 < 2 ^ j) by (apply Z.pow_pos_nonneg; lia).
  assert (a * 2 ^ j * (2 ^ (- ea) * 2 ^ (- eb))
          <= K * b * (2 ^ (- ea) * 2 ^ (- eb)))
    by (apply Z.mul_le_mono_nonneg_r; lia).
  lia.
Qed.

(** A float at most [K / 2^j], times 100, is at most [100 K / 2^j]. *)
Lemma mul_100_bounded_dyadic K j x :
  0 < K -> 100 * K < 2 ^ 53 -> 0 <= j <= 1000 ->
  bounded_dyadic K j x ->
  bounded_dyadic (100 * K) j (Float.mul x (Float.of_int 100)).
Proof.
  intros HK HK' Hj. rewrite of_int_100.
  destruct x as [s|s| |[] m e]; simpl; try done.
  intros [He Hm]. apply round_aux_bounded_dyadic; [lia | done | lia |].
  unfold under. simpl shr_m. simpl shr_r. simpl shr_s.
  rewrite Pos2Z.inj_mul.
  replace (- (e + -46) - j) with (46 + (- e - j)) by lia.
  rewrite pow2_split by lia.
  assert (0 < 2 ^ (- e - j)) by (apply Z.pow_pos_nonneg; lia).
  change (2 ^ 46) with 70368744177664.
  split; [lia |].
  destruct (Z.eq_dec (Zpos m) (K * 2 ^ (- e - j))) as [-> | Hne];
    [right | left]; lia.
Qed.

(** [round] of a float at most [K / 2^j], below [n] and a half, is at
    most [n]. *)
Lemma round_below K j n x :
  0 <= j -> 0 <= K -> 2 * K < (2 * n + 1) * 2 ^ j ->
  bounded_dyadic K j x ->
  exists p, Float.round x = Ok p /\ 0 <= p <= n.
Proof.
  intros Hj HK Hn.
  assert (Hpj : 0 < 2 ^ j) by (by apply Z.pow_pos_nonneg).
  assert (Hn0 : 0 <= n) by nia.
  destruct x as [s|s| |[] m e]; simpl; try done.
  - intros _. exists 0. split; [done | lia].
  - intros [He Hm]. eexists. split; [done |].
    destruct e as [|pe|pe]; [| lia |].
    + assert (j = 0) as -> by lia. simpl in *. lia.
    + unfold Float.half_even.
      assert (Hsplit : 2 ^ Zpos pe = 2 ^ (- Z.neg pe - j) * 2 ^ j).
      { rewrite <- pow2_split by lia. f_equal. lia. }
      assert (Hd : 0 < 2 ^ Zpos pe) by (by apply Z.pow_pos_nonneg).
      assert (Hpe : 0 < 2 ^ (- Z.neg pe - j)) by (apply Z.pow_pos_nonneg; lia).
      pose proof (Z.div_mod (Zpos m) (2 ^ Zpos pe) ltac:(lia)) as Heq.
      pose proof (Z.mod_pos_bound (Zpos m) (2 ^ Zpos pe) Hd) as Hr.
      set (d := 2 ^ Zpos pe) in *. set (q := Zpos m / d) in *.
      set (r := Zpos m mod d) in *.
      set (u := 2 ^ (- Z.neg pe - j)) in *. set (w := 2 ^ j) in *.
      assert (H2m : 2 * Zpos m < (2 * n + 1) * d).
      { rewrite Hsplit.
        assert (2 * Zpos m <= 2 * K * u) by lia.
        assert (2 * K * u < (2 * n + 1) * w * u)
          by (apply Z.mul_lt_mono_pos_r; lia).
        lia. }
      assert (0 <= q) by nia.
      assert (q < n \/ (q = n /\ 2 * r < d)) as [Hlt | [Hq Hr0]] by nia.
      * destruct (2 * r ?= d); [destruct (Z.even q) | |]; lia.
      * assert ((2 * r ?= d) = Lt) as -> by (by apply Z.compare_lt_iff).
        lia.
Qed.

(** A float divided by itself is 1. *)
Lemma div_self m e :
  Float.div (S754_finite false m e) (S754_finite false m e)
  = S754_finite false 4503599627370496 (-52).
Proof.
  unfold Float.div, SFdiv, SFdiv_core_binary. simpl Zdigits2.
  rewrite !Z.sub_diag.
  change (fexp Float.prec Float.emax 0) with (-53).
  change (Z.min (-53) 0) with (-53). change (0 - -53) with 53.
  cbv iota beta.
  destruct (Z.div_eucl (Z.shiftl (Zpos m) 53) (Zpos m)) as [q r] eqn:E.
  assert (q = Z.shiftl (Zpos m) 53 / Zpos m) as Hq
    by (unfold Z.div; by rewrite E).
  assert (r = Z.shiftl (Zpos m) 53 mod Zpos m) as Hr
    by (unfold Z.modulo; by rewrite E).
  rewrite Z.shiftl_mul_pow2 in Hq, Hr by lia.
  rewrite (Z.mul_comm (Zpos m)) in Hq, Hr.
  rewrite Z.div_mul in Hq by lia. rewrite Z.mod_mul in Hr by lia.
  subst q r.
  assert (new_location (Zpos m) 0 = loc_Exact) as ->.
  { unfold new_location, new_location_even, new_location_odd.
    by destruct (Z.even _). }
  reflexivity.
Qed.

(** All correct is 100 per cent. *)
Lemma percentage_all t : 0 < t < 2 ^ 53 -> percentage t t = Ok 100.
Proof.
  intros Ht. unfold percentage, Float.true_div.
  assert ((0 <? t) = true) as -> by lia.
  assert ((t =? 0) = false) as -> by lia. simpl.
  destruct (of_int_exact t Ht) as (m & e & -> & _).
  rewrite div_self. reflexivity.
Qed.

(** One wrong answer among fewer than 200 is 99 per cent at most. *)
Lemma percentage_not_all c t :
  0 <= c < t -> t < 200 ->
  exists p, percentage c t = Ok p /\ 0 <= p <= 99.
Proof.
  intros Hc Ht. unfold percentage, Float.true_div.
  assert ((0 <? t) = true) as -> by lia.
  assert ((t =? 0) = false) as -> by lia. simpl.
  apply (round_below 104333300 20 99); [lia | lia | by vm_compute |].
  apply (mul_100_bounded_dyadic 1043333 20); [lia | by vm_compute | lia |].
  apply div_of_int_bounded_dyadic; lia.
Qed.

End DyadicFacts.

(** X8. A request in which every counted answer is correct scores
    exactly 100, whatever the number of answers (below [2^53]); and with
    fewer than 200 counted answers a score of 100 is given to no other
    request, so [final_score = 100], which [get_statistics] counts as a
    perfect score, then means that no counted answer was wrong. *)
Theorem percentage_100 c t :
  0 <= c <= t -> 0 < t < 2 ^ 53 ->
  (c = t -> percentage c t = Ok 100) /\
  (t < 200 -> percentage c t = Ok 100 -> c = t).
Proof.
  intros Hc Ht. split.
  - intros ->. by apply DyadicFacts.percentage_all.
  - intros H200 Hp. destruct (Z.eq_dec c t) as [|Hne]; [done |].
    destruct (DyadicFacts.percentage_not_all c t) as (p & Hp' & Hb);
      [lia | lia |].
    rewrite Hp in Hp'. injection Hp' as <-. lia.
Qed.

(** ** The average as a nearest integer *)

Module MeanFacts.
Import FloatFacts DyadicFacts.

Lemma shr_1_over K mrs : 2 * K <= shr_m mrs -> K <= shr_m (shr_1 mrs).
Proof.
  destruct mrs as [m r s]. simpl.
  destruct m as [|[p|p|]|[p|p|]]; simpl; lia.
Qed.

Lemma iter_pos_over p : forall K mrs,
  2 ^ Zpos p * K <= shr_m mrs -> K <= shr_m (SpecFloat.iter_pos shr_1 p mrs).
Proof.
  induction p as [p IH|p IH|]; intros K mrs H; simpl.
  - apply IH, IH, shr_1_over.
    rewrite (Pos2Z.inj_xI p), Z.pow_add_r, Z.pow_twice_r in H by lia.
    replace (2 * (2 ^ Zpos p * (2 ^ Zpos p * K)))
      with (2 ^ Zpos p * 2 ^ Zpos p * 2 ^ 1 * K) by lia.
    done.
  - apply IH, IH.
    rewrite (Pos2Z.inj_xO p), Z.pow_twice_r in H.
    by rewrite Z.mul_assoc.
  - apply shr_1_over. by rewrite Z.pow_1_r in H.
Qed.

(** The right shift to the exponent of the format keeps a number at
    least [K / 2^j] at least that, when the exponent it ends at is at
    most [-j]. *)
Lemma shr_fexp_over K j m e l mrs' e' :
  e' <= - j ->
  K * 2 ^ (- e - j) <= m ->
  shr_fexp Float.prec Float.emax m e l = (mrs', e') ->
  K * 2 ^ (- e' - j) <= shr_m mrs'.
Proof.
  intros He' Hm. unfold shr_fexp, shr.
  assert (Hsm : shr_m (shr_record_of_loc m l) = m) by by destruct l as [|[]].
  destruct (fexp Float.prec Float.emax (Zdigits2 m + e) - e) as [|p|p] eqn:Hn;
    intros [= <- <-]; [by rewrite Hsm | | by rewrite Hsm].
  apply iter_pos_over. rewrite Hsm.
  replace (2 ^ Zpos p * (K * 2 ^ (- (e + Zpos p) - j)))
    with (K * 2 ^ (- e - j)); [done |].
  replace (- e - j) with (Zpos p + (- (e + Zpos p) - j)) at 1 by lia.
  rewrite pow2_split by lia. lia.
Qed.

Lemma round_nearest_even_over K mrs :
  K <= shr_m mrs ->
  K <= round_nearest_even (shr_m mrs) (loc_of_shr_record mrs).
Proof.
  destruct mrs as [m r s]. simpl. intros H.
  destruct r, s; simpl; try lia. destruct (Z.even m); lia.
Qed.

(** Rounding to nearest even keeps a number between two multiples of
    [2^-j]: the result is a positive float between them. *)
Lemma round_aux_between Kl Ku j m e l :
  0 < Kl -> 0 < Ku < 2 ^ 53 -> 0 <= j <= 1000 -> e <= - j ->
  under (Ku * 2 ^ (- e - j)) (shr_record_of_loc m l) ->
  Kl * 2 ^ (- e - j) <= m ->
  exists m' e',
    binary_round_aux Float.prec Float.emax false m e l = S754_finite false m' e' /\
    e' <= - j /\
    Kl * 2 ^ (- e' - j) <= Zpos m' <= Ku * 2 ^ (- e' - j).
Proof.
  intros HKl HKu Hj He Hu Hlo. unfold binary_round_aux.
  destruct (shr_fexp _ _ m e l) as [mrs1 e1] eqn:H1.
  destruct (shr_fexp_under_dyadic Ku j m e l mrs1 e1 HKu Hj He Hu H1)
    as [He1 Hu1].
  pose proof (shr_fexp_over Kl j m e l mrs1 e1 He1 Hlo H1) as Hl1.
  pose proof (round_nearest_even_under _ _ Hu1) as Hr.
  pose proof (round_nearest_even_over _ _ Hl1) as Hrl.
  set (m2 := round_nearest_even _ _) in *.
  destruct (shr_fexp _ _ m2 e1 loc_Exact) as [mrs2 e2] eqn:H2.
  assert (Hu2 : under (Ku * 2 ^ (- e1 - j)) (shr_record_of_loc m2 loc_Exact)).
  { unfold under. simpl. lia. }
  destruct (shr_fexp_under_dyadic Ku j m2 e1 loc_Exact mrs2 e2 HKu Hj He1 Hu2 H2)
    as [He2 Hu3].
  pose proof (shr_fexp_over Kl j m2 e1 loc_Exact mrs2 e2 He2 Hrl H2) as Hl3.
  destruct Hu3 as [H0 Hle].
  assert (0 < 2 ^ (- e2 - j)) by (apply Z.pow_pos_nonneg; lia).
  destruct (shr_m mrs2) as [|p|p] eqn:Hm; simpl; [nia | | lia].
  assert ((e2 <=? Float.emax - Float.prec) = true) as ->
    by (unfold Float.emax, Float.prec; lia).
  exists p, e2. split; [done |]. split; [done |]. lia.
Qed.

(** The quotient of two positive floats whose exact quotient lies
    between [Kl / 2^j] and [Ku / 2^j]. *)
Lemma div_between Kl Ku j ma ea mb eb :
  0 < Kl -> 0 < Ku < 2 ^ 53 -> 0 <= j <= 1000 -> ea <= 0 -> eb <= 0 ->
  Zpos ma * 2 ^ (- eb) * 2 ^ j <= Ku * Zpos mb * 2 ^ (- ea) ->
  Kl * Zpos mb * 2 ^ (- ea) <= Zpos ma * 2 ^ (- eb) * 2 ^ j ->
  exists m' e',
    Float.div (S754_finite false ma ea) (S754_finite false mb eb)
    = S754_finite false m' e' /\
    e' <= - j /\
    Kl * 2 ^ (- e' - j) <= Zpos m' <= Ku * 2 ^ (- e' - j).
Proof.
  intros HKl HK Hj Hea Heb Hle Hge. unfold Float.div, SFdiv, SFdiv_core_binary.
  simpl Zdigits2.
  set (d1 := Zpos (digits2_pos ma)). set (d2 := Zpos (digits2_pos mb)).
  set (e' := Z.min _ _). set (s := ea - eb - e').
  pose proof (digits2_pos_bounds ma) as [Hlo1 _].
  pose proof (digits2_pos_bounds mb) as [_ Hhi2].
  fold d1 in Hlo1. fold d2 in Hhi2.
  assert (Hd1 : 1 <= d1) by (unfold d1; lia).
  assert (Hd2 : 1 <= d2) by (unfold d2; lia).
  assert (Hpa : 0 < 2 ^ (- ea)) by (apply Z.pow_pos_nonneg; lia).
  assert (Hpb : 0 < 2 ^ (- eb)) by (apply Z.pow_pos_nonneg; lia).
  assert (Hpj : 0 < 2 ^ j) by (apply Z.pow_pos_nonneg; lia).
  assert (Hdd : d1 + ea - (d2 + eb) <= 53 - j).
  { destruct (Z_le_gt_dec (d1 + ea - (d2 + eb)) (53 - j)) as [|Hgt]; [done |].
    exfalso.
    assert (H1 : 2 ^ (53 + d2 - ea) <= 2 ^ (d1 - 1 - eb + j))
      by (apply Z.pow_le_mono_r; lia).
    replace (53 + d2 - ea) with (53 + d2 + - ea) in H1 by lia.
    replace (d1 - 1 - eb + j) with (d1 - 1 + - eb + j) in H1 by lia.
    rewrite !pow2_split in H1 by lia.
    assert (0 < 2 ^ d2) by (apply Z.pow_pos_nonneg; lia).
    assert (Ku * Zpos mb < 2 ^ 53 * 2 ^ d2)
      by (apply Z.mul_lt_mono_nonneg; lia).
    assert (Ku * Zpos mb * 2 ^ (- ea) < 2 ^ 53 * 2 ^ d2 * 2 ^ (- ea))
      by (by apply Z.mul_lt_mono_pos_r).
    assert (2 ^ (d1 - 1) * 2 ^ (- eb) <= Zpos ma * 2 ^ (- eb))
      by (apply Z.mul_le_mono_nonneg_r; lia).
    assert (2 ^ (d1 - 1) * 2 ^ (- eb) * 2 ^ j <= Zpos ma * 2 ^ (- eb) * 2 ^ j)
      by (apply Z.mul_le_mono_nonneg_r; lia).
    hide_pows. lia. }
  assert (He' : e' <= - j).
  { pose proof (fexp_le _ j Hj Hdd). unfold e'. lia. }
  assert (Hs : 0 <= s) by (unfold s, e'; lia).
  set (m' := match s with Z.pos _ => Z.shiftl (Z.pos ma) s | 0 => Z.pos ma
             | Z.neg _ => 0 end).
  assert (Hm' : m' = Zpos ma * 2 ^ s).
  { unfold m'. destruct s as [|ps|ps] eqn:Es; [simpl; lia | | lia].
    by rewrite Z.shiftl_mul_pow2. }
  assert (Hpe : 0 < 2 ^ (- e' - j)) by (apply Z.pow_pos_nonneg; lia).
  assert (Hs2 : 2 ^ s * 2 ^ (- ea) = 2 ^ (- eb) * 2 ^ (- e' - j) * 2 ^ j).
  { rewrite <- !pow2_split by lia. f_equal. unfold s. lia. }
  assert (Heq : m' * 2 ^ (- ea)
                = Zpos ma * 2 ^ (- eb) * 2 ^ j * 2 ^ (- e' - j)).
  { rewrite Hm', <- Z.mul_assoc, Hs2. lia. }
  assert (Hq : m' <= Ku * 2 ^ (- e' - j) * Zpos mb).
  { assert (Hmul : Zpos ma * 2 ^ (- eb) * 2 ^ j * 2 ^ (- e' - j)
                   <= Ku * Zpos mb * 2 ^ (- ea) * 2 ^ (- e' - j))
      by (apply Z.mul_le_mono_nonneg_r; lia).
    apply (Z.mul_le_mono_pos_r _ _ (2 ^ (- ea))); [done |].
    rewrite Heq. lia. }
  assert (Hql : Kl * 2 ^ (- e' - j) * Zpos mb <= m').
  { assert (Hmul : Kl * Zpos mb * 2 ^ (- ea) * 2 ^ (- e' - j)
                   <= Zpos ma * 2 ^ (- eb) * 2 ^ j * 2 ^ (- e' - j))
      by (apply Z.mul_le_mono_nonneg_r; lia).
    apply (Z.mul_le_mono_pos_r _ _ (2 ^ (- ea))); [done |].
    rewrite Heq. lia. }
  pose proof (Z.div_eucl_eq m' (Zpos mb) ltac:(lia)) as Hdiv.
  pose proof (Z.mod_pos_bound m' (Zpos mb) ltac:(lia)) as Hr.
  unfold Z.modulo in Hr.
  destruct (Z.div_eucl m' (Zpos mb)) as [q r]. simpl.
  assert (0 <= m') by (rewrite Hm'; assert (0 < 2 ^ s) by (by apply Z.pow_pos_nonneg); nia).
  assert (Hq0 : 0 <= q) by nia.
  assert (Hqge : Kl * 2 ^ (- e' - j) <= q) by nia.
  apply round_aux_between; [done | done | done | done | | done].
  assert (Hqle : q < Ku * 2 ^ (- e' - j) \/ (q = Ku * 2 ^ (- e' - j) /\ r = 0))
    by nia.
  destruct Hqle as [Hlt | [-> ->]].
  - unfold under. destruct (new_location _ _) as [|c]; [|destruct c];
      simpl; (split; [lia | left; lia]).
  - assert (new_location (Zpos mb) 0 = loc_Exact) as ->.
    { unfold new_location, new_location_even, new_location_odd.
      by destruct (Z.even _). }
    unfold under. simpl. split; [lia | right; done].
Qed.

Lemma div_of_int_between Kl Ku j a b :
  0 < Kl -> 0 < Ku < 2 ^ 53 -> 0 <= j <= 1000 ->
  0 < a < 2 ^ 53 -> 0 < b < 2 ^ 53 ->
  Kl * b <= a * 2 ^ j -> a * 2 ^ j <= Ku * b ->
  exists m' e',
    Float.div (Float.of_int a) (Float.of_int b) = S754_finite false m' e' /\
    e' <= - j /\
    Kl * 2 ^ (- e' - j) <= Zpos m' <= Ku * 2 ^ (- e' - j).
Proof.
  intros HKl HK Hj Ha Hb Hlo Hhi.
  destruct (of_int_exact b Hb) as (mb & eb & -> & Heb & Hmb).
  destruct (of_int_exact a Ha) as (ma & ea & -> & Hea & Hma).
  assert (0 < 2 ^ (- ea)) by (apply Z.pow_pos_nonneg; lia).
  assert (0 < 2 ^ (- eb)) by (apply Z.pow_pos_nonneg; lia).
  assert (0 < 2 ^ j) by (apply Z.pow_pos_nonneg; lia).
  apply div_between; [done | done | done | done | done | |];
    rewrite Hma, Hmb.
  - assert (a * 2 ^ j * (2 ^ (- ea) * 2 ^ (- eb))
            <= Ku * b * (2 ^ (- ea) * 2 ^ (- eb)))
      by (apply Z.mul_le_mono_nonneg_r; lia).
    lia.
  - assert (Kl * b * (2 ^ (- ea) * 2 ^ (- eb))
            <= a * 2 ^ j * (2 ^ (- ea) * 2 ^ (- eb)))
      by (apply Z.mul_le_mono_nonneg_r; lia).
    lia.
Qed.

(** [round] of a positive float at least [K / 2^j], above [n] less a
    half, is at least [n]. *)
Lemma round_above K j n m e p :
  0 <= j -> e <= - j ->
  K * 2 ^ (- e - j) <= Zpos m ->
  (2 * n - 1) * 2 ^ j < 2 * K ->
  Float.round (S754_finite false m e) = Ok p -> n <= p.
Proof.
  intros Hj He Hm Hn. simpl.
  assert (Hpj : 0 < 2 ^ j) by (by apply Z.pow_pos_nonneg).
  destruct e as [|pe|pe]; [| lia |].
  - assert (j = 0) as -> by lia. simpl in *. intros [= <-]. lia.
  - intros [= <-]. unfold Float.half_even.
    assert (Hsplit : 2 ^ Zpos pe = 2 ^ (- Z.neg pe - j) * 2 ^ j).
    { rewrite <- pow2_split by lia. f_equal. lia. }
    assert (Hd : 0 < 2 ^ Zpos pe) by (by apply Z.pow_pos_nonneg).
    assert (Hpe : 0 < 2 ^ (- Z.neg pe - j)) by (apply Z.pow_pos_nonneg; lia).
    pose proof (Z.div_mod (Zpos m) (2 ^ Zpos pe) ltac:(lia)) as Heq.
    pose proof (Z.mod_pos_bound (Zpos m) (2 ^ Zpos pe) Hd) as Hr.
    set (d := 2 ^ Zpos pe) in *. set (q := Zpos m / d) in *.
    set (r := Zpos m mod d) in *.
    set (u := 2 ^ (- Z.neg pe - j)) in *. set (w := 2 ^ j) in *.
    assert (H2m : (2 * n - 1) * d < 2 * Zpos m).
    { rewrite Hsplit.
      assert (2 * K * u <= 2 * Zpos m) by lia.
      assert ((2 * n - 1) * w * u < 2 * K * u)
        by (apply Z.mul_lt_mono_pos_r; lia).
      lia. }
    assert (n <= q \/ (q = n - 1 /\ d < 2 * r)) as [Hge | [Hq Hr0]] by nia.
    + destruct (2 * r ?= d); [destruct (Z.even q) | |]; lia.
    + assert ((2 * r ?= d) = Gt) as -> by (apply Z.compare_gt_iff; lia).
      lia.
Qed.

(** [round(s / n)] as the code computes it, for [s] the sum of at most
    [2^45] percentages: it is an integer nearest to the exact mean. *)
Lemma rounded_mean s n :
  0 < n <= 2 ^ 45 -> 0 <= s <= 100 * n ->
  exists a,
    rounded_average (Some (Float.div (Float.of_int s) (Float.of_int n))) = Ok a /\
    0 <= a <= 100 /\
    2 * Z.abs (a * n - s) <= n.
Proof.
  intros Hn Hs.
  assert (Hn53 : 0 < n < 2 ^ 53) by lia.
  destruct (Z.eq_dec s 0) as [-> | Hs0].
  { destruct (of_int_exact n Hn53) as (mn & en & -> & _).
    exists 0. split; [done |]. split; lia. }
  set (k := (2 * s + n) / (2 * n)).
  assert (Hk : 2 * n * k <= 2 * s + n < 2 * n * (k + 1)).
  { pose proof (Z.div_mod (2 * s + n) (2 * n) ltac:(lia)) as Heq.
    pose proof (Z.mod_pos_bound (2 * s + n) (2 * n) ltac:(lia)) as Hr.
    fold k in Heq. lia. }
  assert (Hk100 : 0 <= k <= 100) by nia.
  set (lo := if Z.eq_dec (2 * s) ((2 * k - 1) * n) then k - 1 else k).
  assert (Hlo : (2 * lo - 1) * n < 2 * s /\ k - 1 <= lo <= k /\
                2 * s - 2 * lo * n <= n).
  { unfold lo. destruct (Z.eq_dec _ _); split; try split; nia. }
  destruct Hlo as (Hlo1 & Hlo2 & Hlo3).
  set (Kl := Z.max 1 ((2 * lo - 1) * 2 ^ 45 + 1)).
  set (Ku := (2 * k + 1) * 2 ^ 45 - 1).
  destruct (div_of_int_between Kl Ku 46 s n) as (m' & e' & Hdiv & He' & Hb).
  - unfold Kl. lia.
  - unfold Ku. lia.
  - lia.
  - lia.
  - done.
  - unfold Kl. change (2 ^ 46) with (2 * 2 ^ 45).
    assert (H45 : 0 < 2 ^ 45) by lia.
    destruct (Z.max_spec 1 ((2 * lo - 1) * 2 ^ 45 + 1)) as [[_ ->] | [_ ->]];
      [|nia].
    assert (((2 * lo - 1) * n + 1) * 2 ^ 45 <= 2 * s * 2 ^ 45)
      by (apply Z.mul_le_mono_nonneg_r; lia).
    nia.
  - unfold Ku. change (2 ^ 46) with (2 * 2 ^ 45).
    assert ((2 * s + 1) * 2 ^ 45 <= (2 * k + 1) * n * 2 ^ 45)
      by (apply Z.mul_le_mono_nonneg_r; lia).
    nia.
  - rewrite Hdiv. simpl rounded_average.
    destruct (round_below Ku 46 k (S754_finite false m' e'))
      as (a & Ha & Ha0 & Hak).
    + lia.
    + unfold Ku. lia.
    + unfold Ku. lia.
    + simpl. split; [done | lia].
    + exists a. change (truthy (JFloat (S754_finite false m' e'))) with true.
      cbv iota. split; [done |]. split; [lia |].
      assert (Hal : lo <= a).
      { apply (round_above Kl 46 lo m' e' a); [lia | done | lia | | done].
        unfold Kl. lia. }
      assert (a * n <= k * n) by (apply Z.mul_le_mono_nonneg_r; lia).
      assert (lo * n <= a * n) by (apply Z.mul_le_mono_nonneg_r; lia).
      clear - H H0 Hk Hlo3. lia.
Qed.

End MeanFacts.

(** ** The statistics of a database *)

Module MeanStat.

Lemma sum_snoc xs x : sum (xs ++ [x]) = sum xs + x.
Proof. unfold sum. induction xs as [|y xs IH]; simpl; lia. Qed.

(** [round(AVG(final_score))] over at most [2^45] percentages is an
    integer nearest to their mean. *)
Lemma rounded_average_mean xs :
  Forall (fun s => 0 <= s <= 100) xs -> len xs <= 2 ^ 45 ->
  exists a,
    rounded_average (sql_avg xs) = Ok a /\ 0 <= a <= 100 /\
    2 * Z.abs (a * len xs - sum xs) <= len xs.
Proof.
  intros Hxs Hlen. pose proof (StatFacts.sum_bounds xs Hxs) as Hs.
  destruct xs as [|x xs]; [exists 0; split; [done | split; [lia | done]] |].
  unfold sql_avg. set (ys := x :: xs) in *.
  apply MeanFacts.rounded_mean; [|done].
  unfold len, ys in *. simpl in *. lia.
Qed.

Lemma get_statistics_mean d a :
  Forall (fun s => 0 <= s <= 100) (scores d) ->
  len (quiz_attempts d) <= 2 ^ 45 ->
  rounded_average (sql_avg (scores d)) = Ok a ->
  2 * Z.abs (a * len (quiz_attempts d) - sum (scores d)) <= len (quiz_attempts d).
Proof.
  intros Hs Hn Ha.
  assert (Hl : len (scores d) = len (quiz_attempts d))
    by (unfold scores, len; by rewrite length_map).
  destruct (rounded_average_mean (scores d) Hs) as (a' & Ha' & _ & Hm);
    [by rewrite Hl |].
  rewrite Hl in Hm. congruence.
Qed.

End MeanStat.

(** C6. When a request is answered, the statistics it returns are those
    [get_statistics] computes from the database it leaves, which holds
    one attempt more, the score of the request after the scores that
    were there: against the statistics of the database before,
    [total_attempts] is up by exactly 1 and [perfect_scores] is up by 1
    if the percentage of the request is 100 and unchanged if not.
    [get_statistics] is a function of the scores in the attempts table:
    [total_attempts] is their number, [perfect_scores] the number of
    those equal to 100, and [average_score], before and after, is an
    integer nearest to their mean (their sum over their number), 0 on an
    empty table. *)
Theorem statistics_after_recording d ip_address timestamp quiz_data answers
    resp d' :
  scores_ok d ->
  check_answers d ip_address timestamp quiz_data answers = (Ok resp, d') ->
  exists before,
    get_statistics d = Ok before /\
    get_statistics d' = Ok (resp_statistics resp) /\
    scores d' = scores d ++ [resp_percentage resp] /\
    total_attempts (resp_statistics resp) = total_attempts before + 1 /\
    perfect_scores (resp_statistics resp) =
      perfect_scores before + (if decide (resp_percentage resp = 100) then 1 else 0) /\
    total_attempts before = len (scores d) /\
    perfect_scores before = len (filter (fun s => s = 100) (scores d)) /\
    (scores d = [] -> average_score before = 0) /\
    0 <= average_score before <= 100 /\
    (len (scores d) < 2 ^ 45 ->
     2 * Z.abs (average_score before * len (scores d) - sum (scores d))
       <= len (scores d)) /\
    (len (scores d) < 2 ^ 45 -> Z.of_nat (length answers) < 2 ^ 53 ->
     2 * Z.abs (average_score (resp_statistics resp) * (len (scores d) + 1)
                - (sum (scores d) + resp_percentage resp))
       <= len (scores d) + 1).
Proof.
  intros Hok Hcheck.
  destruct (StatFacts.get_statistics_ok d Hok) as (a & Ha & Hb & Hbefore).
  destruct (CheckFacts.check_answers_ok _ _ _ _ _ _ _ Hcheck)
    as (graded & rows & Hg & Hp & _ & _ & _ & _ & -> & Hafter).
  assert (Hl : len (scores d) = len (quiz_attempts d))
    by (unfold scores, len; by rewrite length_map).
  assert (Hsc : scores (saved d (attempt_row d ip_address timestamp
                                   (resp_percentage resp) graded) rows)
                = scores d ++ [resp_percentage resp]).
  { unfold scores. simpl. by rewrite map_app. }
  eexists. split; [done |]. split; [done |]. split; [done |]. simpl.
  unfold get_statistics in Hafter.
  destruct (rounded_average (sql_avg (scores (saved _ _ _)))) as [a'|] eqn:Ha';
    simpl in Hafter; [|done].
  injection Hafter as <-. simpl. rewrite Hsc, Hl.
  destruct Hok as [Hs Hn].
  split; [unfold len; rewrite length_app; simpl; lia |].
  split.
  { rewrite filter_app, filter_cons, filter_nil. unfold len.
    rewrite length_app.
    destruct (decide (resp_percentage resp = 100)); simpl; lia. }
  do 2 (split; [done |]). split.
  { intros Hnil. rewrite Hnil in Ha. simpl in Ha. by simplify_eq. }
  split; [done |]. split.
  - intros H45. apply MeanStat.get_statistics_mean; [done | lia | done].
  - intros H45 Hlen.
    destruct (PercentFacts.percentage_after_grading _ _ _ Hg Hlen)
      as (p & Hp' & Hpb).
    assert (p = resp_percentage resp) as -> by congruence.
    destruct (MeanStat.rounded_average_mean (scores d ++ [resp_percentage resp]))
      as (a2 & Ha2 & _ & Hm).
    + apply Forall_app. split; [done | by apply Forall_singleton].
    + unfold len in *. rewrite length_app. simpl. lia.
    + rewrite Hsc in Ha'. assert (a2 = a') as -> by congruence.
      rewrite MeanStat.sum_snoc in Hm. unfold len in *.
      rewrite length_app in Hm. simpl in Hm.
      replace (Z.of_nat (length (scores d) + 1))
        with (Z.of_nat (length (scores d)) + 1) in Hm by lia.
      rewrite <- Hl. exact Hm.
Qed.

(** ** More on the attempt store *)

Module RequestFacts.

(** A request either leaves the file as it was and raises, or commits an
    attempt with the rows of all its results. *)
Lemma check_answers_cases d ip_address timestamp quiz_data answers r d' :
  check_answers d ip_address timestamp quiz_data answers = (r, d') ->
  (d' = d /\ raises r) \/
  (exists graded pct rows,
     grade quiz_data answers = Ok graded /\
     percentage (correct_count graded) (total_count graded) = Ok pct /\
     answer_rows (last_answer_id d + 1) (last_attempt_id d + 1)
       (results graded) = Ok rows /\
     d' = saved d (attempt_row d ip_address timestamp pct graded) rows /\
     (forall resp, r = Ok resp ->
        resp_results resp = results graded /\
        resp_correct resp = correct_count graded /\
        resp_total resp = total_count graded /\
        resp_percentage resp = pct /\
        get_statistics d' = Ok (resp_statistics resp)) /\
     (raises r -> raises (get_statistics d'))).
Proof.
  unfold check_answers.
  destruct (grade quiz_data answers) as [graded|e] eqn:Hg;
    [|intros [= <- <-]; left; split; [done | by eexists]].
  destruct (percentage _ _) as [pct|e] eqn:Hp;
    [|intros [= <- <-]; left; split; [done | by eexists]].
  destruct (with_closing _ _) as [s c] eqn:Hs.
  apply StoreFacts.save_attempt_spec in Hs.
  destruct s as [attempt_id|e].
  - destruct Hs as (-> & rows & Hrows & Hdisk & _).
    intros H. right. exists graded, pct, rows. do 3 (split; [done |]).
    destruct (get_statistics (disk c)) as [stats|e] eqn:Hst;
      injection H as <- <-; (split; [done |]); rewrite Hst.
    + split; [by intros resp [= <-] | by intros [e He]].
    + split; [done | intros _; by eexists].
  - destruct Hs as [Hdisk _]. intros [= <- <-]. left.
    split; [done | by eexists].
Qed.

Lemma prefix_saved_attempts d attempt rows :
  quiz_attempts d `prefix_of` quiz_attempts (saved d attempt rows) /\
  quiz_answers d `prefix_of` quiz_answers (saved d attempt rows).
Proof. split; simpl; by apply prefix_app_r. Qed.

End RequestFacts.

(** X9. The two tables only grow: whatever a request does, answered or
    not, every row that was in [quiz_attempts] and [quiz_answers] is
    still there, unchanged and in place, with the new rows after it, and
    no identifier is given out again. The request adds one attempt or
    none. *)
Theorem tables_only_grow d ip_address timestamp quiz_data answers r d' :
  check_answers d ip_address timestamp quiz_data answers = (r, d') ->
  quiz_attempts d `prefix_of` quiz_attempts d' /\
  quiz_answers d `prefix_of` quiz_answers d' /\
  last_attempt_id d <= last_attempt_id d' <= last_attempt_id d + 1 /\
  last_answer_id d <= last_answer_id d' /\
  (length (quiz_attempts d') <= length (quiz_attempts d) + 1)%nat.
Proof.
  intros H.
  destruct (RequestFacts.check_answers_cases _ _ _ _ _ _ _ H)
    as [[-> _] | (graded & pct & rows & _ & _ & _ & -> & _)].
  - repeat split; try done; lia.
  - destruct (RequestFacts.prefix_saved_attempts d
                (attempt_row d ip_address timestamp pct graded) rows) as [Ha Hb].
    do 2 (split; [done |]). simpl. rewrite length_app. simpl.
    unfold len. repeat split; lia.
Qed.

(** X10. On a database whose scores are percentages (and that has room
    for one more), a request of fewer than [2^53] submissions that ends
    with an exception leaves the database exactly as it was: there is no
    state in which the attempt is stored and the client is told of a
    failure. *)
Theorem failed_request_changes_nothing d ip_address timestamp quiz_data
    answers e d' :
  scores_ok d ->
  100 * (len (quiz_attempts d) + 1) < 2 ^ 53 ->
  Z.of_nat (length answers) < 2 ^ 53 ->
  check_answers d ip_address timestamp quiz_data answers = (Raise e, d') ->
  d' = d.
Proof.
  intros [Hs _] Hroom Hlen H.
  destruct (RequestFacts.check_answers_cases _ _ _ _ _ _ _ H)
    as [[-> _] | (graded & pct & rows & Hg & Hp & _ & -> & _ & Hraise)];
    [done |].
  exfalso.
  destruct (PercentFacts.percentage_after_grading _ _ _ Hg Hlen)
    as (p & Hp' & Hb).
  assert (p = pct) as -> by congruence.
  destruct (StatFacts.get_statistics_ok
              (saved d (attempt_row d ip_address timestamp pct graded) rows))
    as (a & _ & _ & Hok).
  { split.
    - unfold scores. simpl. rewrite map_app. apply Forall_app. split; [done |].
      simpl. by apply Forall_singleton.
    - simpl. unfold len in *. rewrite length_app. simpl. lia. }
  destruct Hraise as [e' He']; [by eexists |]. congruence.
Qed.

(** ** The databases a server can reach *)

Module RowFacts.

(** What a stored row says of the result it was made from. *)
Lemma answer_row_inv next_id attempt_id result row :
  answer_row next_id attempt_id result = Ok row ->
  Answer.id row = next_id /\
  Answer.attempt_id row = attempt_id /\
  is_counted result = true /\
  Answer.is_correct row = (if is_right result then 1 else 0).
Proof.
  unfold answer_row, getitem, is_counted, is_right.
  destruct (result !! "wordIndex") as [wi|]; simpl; [|done].
  destruct (result !! "isLevel1"); simpl; [|done].
  destruct (result !! "userAnswer") as [ua|]; simpl; [|done].
  destruct (result !! "correctAnswer") as [ca|]; simpl; [|done].
  destruct (result !! "correct"); simpl; [|done].
  destruct (adapt wi) as [swi|]; simpl; [|done].
  destruct (adapt (get _ _ _)); simpl; [|done].
  destruct (adapt ua) as [sua|]; simpl; [|done].
  destruct (adapt ca) as [sca|] eqn:Hca; simpl; [|done].
  destruct (not_null swi); simpl; [|done].
  destruct (not_null sua); simpl; [|done].
  destruct (not_null sca) eqn:Hnn; simpl; [|done].
  intros [= <-]. simpl. repeat split; try done.
  destruct ca; try done. simpl in Hca. by simplify_eq.
Qed.

Lemma count_all {A} (f : A -> bool) (l : list A) :
  Forall (fun x => f x = true) l -> count f l = len l.
Proof.
  unfold count, len. induction 1 as [|x l Hx _ IH]; [done |].
  simpl. rewrite Hx. simpl. lia.
Qed.

(** The rows of the results of a request: all were counted, and as many
    rows are marked correct as results are. *)
Lemma answer_rows_counts results : forall next_id attempt_id rows,
  answer_rows next_id attempt_id results = Ok rows ->
  Forall (fun result => is_counted result = true) results /\
  len (filter (fun r => Answer.is_correct r = 1) rows) = count is_right results.
Proof.
  induction results as [|result rest IH]; intros next_id attempt_id rows; simpl.
  - by intros [= <-].
  - destruct (answer_row _ _ result) as [row|] eqn:Hrow; simpl; [|done].
    destruct (answer_rows _ _ rest) as [rows'|] eqn:Hrest; simpl; [|done].
    intros [= <-].
    destruct (answer_row_inv _ _ _ _ Hrow) as (_ & _ & Hc & Hr).
    destruct (IH _ _ _ Hrest) as [Hall Hn].
    split; [by constructor |].
    revert Hn. unfold count, len. simpl. rewrite filter_cons.
    destruct (decide (Answer.is_correct row = 1)) as [H1 | H1];
      rewrite Hr in H1; destruct (is_right result); simpl; try done; lia.
Qed.

Lemma answer_rows_ids results : forall next_id attempt_id rows i row,
  answer_rows next_id attempt_id results = Ok rows ->
  rows !! i = Some row ->
  Answer.id row = next_id + Z.of_nat i.
Proof.
  intros next_id attempt_id rows i row H Hi.
  destruct (StoreFacts.answer_rows_lookup _ _ _ _ _ _ H Hi) as (r & _ & Hr).
  by destruct (answer_row_inv _ _ _ _ Hr) as [? _].
Qed.

Lemma consistent_sequenced d : consistent d -> sequenced d.
Proof.
  intros (Hlast & Hids & _ & _ & Href & _).
  assert (Hatt : forall r, r ∈ quiz_attempts d -> Attempt.id r <= last_attempt_id d).
  { intros r [i Hi]%list_elem_of_lookup.
    rewrite (Hids _ _ Hi), Hlast. apply lookup_lt_Some in Hi. unfold len. lia. }
  split; [done |].
  intros r Hr. destruct (Href _ Hr) as (a & Ha & <-). by apply Hatt.
Qed.

Lemma answers_of_saved_old d attempt rows attempt_id :
  Forall (fun r => Answer.attempt_id r = last_attempt_id d + 1) rows ->
  attempt_id <= last_attempt_id d ->
  answers_of (saved d attempt rows) attempt_id = answers_of d attempt_id.
Proof.
  intros Hrows Hid. unfold answers_of. simpl. rewrite filter_app.
  rewrite (AtomicFacts.filter_none _ rows), app_nil_r; [done |].
  eapply Forall_impl; [exact Hrows |]. simpl. intros r Hr. lia.
Qed.

(** One committed attempt keeps the tables consistent. *)
Lemma consistent_saved d ip_address timestamp quiz_data answers graded pct rows :
  consistent d ->
  Z.of_nat (length answers) < 2 ^ 53 ->
  grade quiz_data answers = Ok graded ->
  percentage (correct_count graded) (total_count graded) = Ok pct ->
  answer_rows (last_answer_id d + 1) (last_attempt_id d + 1) (results graded)
    = Ok rows ->
  consistent (saved d (attempt_row d ip_address timestamp pct graded) rows).
Proof.
  intros Hc Hlen Hg Hp Hrows.
  pose proof (consistent_sequenced d Hc) as Hseq.
  destruct Hc as (Hlast & Hids & Hlasta & Hidsa & Href & Hatt).
  pose proof (StoreFacts.answer_rows_attempt_id _ _ _ _ Hrows) as Hown.
  destruct (AtomicFacts.saved_complete d
              (attempt_row d ip_address timestamp pct graded) rows
              Hseq Href eq_refl Hown) as (Href' & _ & _ & Hnew).
  destruct (answer_rows_counts _ _ _ _ Hrows) as [Hall Hright].
  destruct (CountFacts.counters_count _ _ _ Hg) as [Ht Hcc].
  destruct (PercentFacts.percentage_after_grading _ _ _ Hg Hlen)
    as (p & Hp' & Hb).
  assert (p = pct) as -> by congruence.
  split; [|split; [|split; [|split; [|split; [done |]]]]].
  - simpl. unfold len in *. rewrite length_app. simpl. lia.
  - simpl. intros i r [Hi | [Hi Hr]]%lookup_app_Some; [by apply Hids |].
    apply list_lookup_singleton_Some in Hr as [Hi' <-]. simpl.
    unfold len in *. lia.
  - simpl. unfold len in *. rewrite length_app. lia.
  - simpl. intros i r [Hi | [Hi Hr]]%lookup_app_Some; [by apply Hidsa |].
    rewrite (answer_rows_ids _ _ _ _ _ _ Hrows Hr). unfold len in *. lia.
  - intros r [Hr | Hr%list_elem_of_singleton]%elem_of_app.
    + destruct Hseq as [Hle _]. specialize (Hle _ Hr).
      unfold right_answers_of.
      rewrite (answers_of_saved_old _ _ _ _ Hown Hle). by apply Hatt.
    + subst r. unfold right_answers_of. simpl. rewrite Hnew.
      split; [|split; [|done]].
      * rewrite Ht, (count_all _ _ Hall). unfold len.
        by rewrite (StoreFacts.answer_rows_length _ _ _ _ Hrows).
      * by rewrite Hright.
Qed.

Lemma reachable_is_consistent d : reachable d -> consistent d.
Proof.
  induction 1 as [|d ip_address timestamp quiz_data answers r d' _ IH Hlen H].
  - split; [done |].
    split; [intros i r Hi; simpl in Hi; by rewrite lookup_nil in Hi |].
    split; [done |].
    split; [intros i r Hi; simpl in Hi; by rewrite lookup_nil in Hi |].
    split; intros r Hr; simpl in Hr; by apply elem_of_nil in Hr.
  - destruct (RequestFacts.check_answers_cases _ _ _ _ _ _ _ H)
      as [[-> _] | (graded & pct & rows & Hg & Hp & Hrows & -> & _)]; [done |].
    by eapply consistent_saved.
Qed.

Lemma consistent_scores d :
  consistent d -> Forall (fun s => 0 <= s <= 100) (scores d).
Proof.
  intros (_ & _ & _ & _ & _ & Hatt). unfold scores.
  apply Forall_map, Forall_forall. intros r Hr. by apply Hatt.
Qed.

End RowFacts.

(** X11. Whatever requests a server has handled since [init_database],
    answered or failed, the two tables agree: the identifiers of each
    table are 1, 2, ... in insertion order, every answer row belongs to
    an attempt that is there, and each attempt's [total_count] is the
    number of its answer rows, its [correct_count] the number of those
    marked correct, and its [final_score] the percentage of the two,
    between 0 and 100. *)
Theorem reachable_consistent d : reachable d -> consistent d.
Proof. apply RowFacts.reachable_is_consistent. Qed.

(** X12. On a database reached from [init_database] that holds fewer
    than [2^53 / 100] attempts, [get_statistics] does not raise: it
    returns the number of attempts, an average between 0 and 100, and a
    number of perfect scores between 0 and the number of attempts. On an
    empty table all three are 0. *)
Theorem statistics_of_reachable d :
  reachable d ->
  100 * len (quiz_attempts d) < 2 ^ 53 ->
  exists stats,
    get_statistics d = Ok stats /\
    total_attempts stats = len (quiz_attempts d) /\
    0 <= average_score stats <= 100 /\
    0 <= perfect_scores stats <= total_attempts stats /\
    (quiz_attempts d = [] ->
     average_score stats = 0 /\ perfect_scores stats = 0).
Proof.
  intros Hr Hn.
  pose proof (RowFacts.consistent_scores d
                (RowFacts.reachable_is_consistent d Hr)) as Hs.
  destruct (StatFacts.get_statistics_ok d (conj Hs Hn)) as (a & Ha & Hb & Hok).
  eexists. split; [exact Hok |]. simpl. split; [done |]. split; [done |].
  split.
  - unfold len, scores. split; [lia |].
    pose proof (length_filter (fun s => s = 100)
                  (map Attempt.final_score (quiz_attempts d))) as Hf.
    rewrite length_map in Hf. lia.
  - intros Hnil. unfold scores in *. rewrite Hnil in *. simpl in *.
    split; [by simplify_eq | done].
Qed.

(** ** Requests with nothing malformed *)

Module AnswerFacts.

(** An index that selects a question of a quiz of at most [2^63]
    questions fits an [INTEGER] column. *)
Lemma index_adapts {A} (l : list A) wi (x : A) :
  Z.of_nat (length l) <= 2 ^ 63 ->
  list_getitem l wi = Ok x ->
  exists z, adapt wi = Ok (SqlInt z).
Proof.
  intros Hlen. unfold list_getitem, adapt.
  assert (Hin : forall z,
    (if (0 <=? (if z <? 0 then z + Z.of_nat (length l) else z)) &&
        ((if z <? 0 then z + Z.of_nat (length l) else z) <? Z.of_nat (length l))
     then match l !! Z.to_nat (if z <? 0 then z + Z.of_nat (length l) else z) with
          | Some a => Ok a
          | None => Raise IndexError
          end
     else Raise IndexError) = Ok x ->
    (- 2 ^ 63 <=? z) && (z <? 2 ^ 63) = true).
  { intros z. destruct (_ && _) eqn:Hb; [|done]. intros _.
    apply andb_true_iff in Hb as [H1%Z.leb_le H2%Z.ltb_lt].
    apply andb_true_iff. rewrite Z.leb_le, Z.ltb_lt.
    destruct (z <? 0) eqn:Hz; [apply Z.ltb_lt in Hz | apply Z.ltb_ge in Hz]; lia. }
  destruct wi as [|b|z| | | |]; try done; intros H; apply Hin in H;
    rewrite H; by eexists.
Qed.

Lemma storable_result a wi ans verdict expected z :
  adapt wi = Ok (SqlInt z) ->
  storable (graded_result a wi ans verdict (JStr expected)).
Proof.
  intros Hwi next_id attempt_id. unfold answer_row, getitem, get, graded_result.
  simplify_map_eq. rewrite Hwi. simpl. by eexists.
Qed.

Lemma storable_country_result a wi ans verdict expected country z :
  adapt wi = Ok (SqlInt z) ->
  storable (<["country" := JStr country]>
              (graded_result a wi ans verdict (JStr expected))).
Proof.
  intros Hwi next_id attempt_id. unfold answer_row, getitem, get, graded_result.
  simplify_map_eq. rewrite Hwi. simpl. by eexists.
Qed.




End AnswerFacts.


(** ** From the generator to the grader *)

Module QuizFacts.

Lemma catalog_clean group word k :
  group ∈ WORD_GROUPS -> word ∈ words group -> k ∈ COUNTRIES ->
  clean_spelling word k = true.
Proof.
  intros Hg Hw Hk. CatalogFacts.each_group Hg; CatalogFacts.each_word Hw.
  all: apply CatalogFacts.elem_of_COUNTRIES in Hk
         as [-> | [-> | [-> | [-> | ->]]]].
  all: by vm_compute.
Qed.

Lemma clean_spelling_inv word k :
  clean_spelling word k = true ->
  exists s, word !! k = Some (JStr s) /\ Str.trimmed s /\ s <> "".
Proof.
  unfold clean_spelling. destruct (word !! k) as [[| | | |s| |]|]; try done.
  intros [H1%String.eqb_eq H2%negb_true_iff]%andb_prop.
  exists s. split; [done |]. split; [done |]. by apply String.eqb_neq.
Qed.

Lemma country_not_empty k : k ∈ COUNTRIES -> k <> "".
Proof.
  intros [-> | [-> | [-> | [-> | ->]]]]%CatalogFacts.elem_of_COUNTRIES; done.
Qed.

Section WithRandint.
Context {rng : Type} (randint : rng -> Z -> Z -> Z * rng).
Hypothesis randint_in_range : in_range randint.

(** The questions of a generated quiz, group by group. *)
Lemma generated_questions g quiz_data g' :
  generate_quiz_data randint g = Ok (quiz_data, g') ->
  Forall2 question_of WORD_GROUPS quiz_data.
Proof.
  pose proof CatalogFacts.catalog_drawable as Hd.
  unfold generate_quiz_data, generate_quiz_data_in.
  destruct (GenFacts.select_words_in_ok randint randint_in_range WORD_GROUPS g Hd)
    as (selected & g1 & Hsel & Hfrom).
  destruct (GenFacts.quiz_entries_ok (enumerate WORD_GROUPS) selected []
              (GenFacts.Forall_enumerate _ _ Hd) Hfrom)
    as (questions & Hquiz & Hq).
  simpl in Hquiz. rewrite Hsel. simpl. rewrite Hquiz. simpl.
  intros [= <- <-].
  apply Forall2_same_length_lookup. split.
  - apply Forall2_length in Hq. rewrite <- Hq.
    unfold enumerate. by rewrite length_imap.
  - intros i group q Hi Hqi.
    assert (Hitem : enumerate WORD_GROUPS !! i = Some (Z.of_nat i, group))
      by by rewrite GenFacts.enumerate_lookup, Hi.
    destruct (Forall2_lookup_l _ _ _ _ _ Hq Hitem) as (q' & Hq' & Hof).
    by simplify_eq.
Qed.

Lemma generate_quiz_data_ok g :
  exists quiz_data g', generate_quiz_data randint g = Ok (quiz_data, g').
Proof.
  pose proof CatalogFacts.catalog_drawable as Hd.
  unfold generate_quiz_data, generate_quiz_data_in.
  destruct (GenFacts.select_words_in_ok randint randint_in_range WORD_GROUPS g Hd)
    as (selected & g1 & Hsel & Hfrom).
  destruct (GenFacts.quiz_entries_ok (enumerate WORD_GROUPS) selected []
              (GenFacts.Forall_enumerate _ _ Hd) Hfrom)
    as (questions & Hquiz & Hq).
  simpl in Hquiz. rewrite Hsel. simpl. rewrite Hquiz. simpl. eauto.
Qed.

(** Every spelling of a generated question is a clean string. *)
Lemma generated_spelling g quiz_data g' i question c :
  generate_quiz_data randint g = Ok (quiz_data, g') ->
  quiz_data !! i = Some question ->
  c ∈ COUNTRIES ->
  exists s, question !! c = Some (JStr s) /\ Str.trimmed s /\ s <> "".
Proof.
  intros Hgen Hq Hc.
  pose proof (generated_questions _ _ _ Hgen) as Hall.
  destruct (Forall2_lookup_r _ _ _ _ _ Hall Hq)
    as (group & Hgroup & word & Hword & _ & _ & _ & Hkeys).
  rewrite (Hkeys c Hc). apply clean_spelling_inv.
  eapply catalog_clean; [by eapply list_elem_of_lookup_2 | done | done].
Qed.

End WithRandint.

Lemma list_getitem_lookup {A} (l : list A) i x :
  l !! i = Some x -> list_getitem l (JInt (Z.of_nat i)) = Ok x.
Proof.
  intros Hi. pose proof (lookup_lt_Some _ _ _ Hi) as Hlt.
  unfold list_getitem.
  assert ((Z.of_nat i <? 0) = false) as -> by lia.
  assert ((0 <=? Z.of_nat i) && (Z.of_nat i <? Z.of_nat (length l)) = true) as ->
    by (apply andb_true_intro; split; lia).
  by rewrite Nat2Z.id, Hi.
Qed.

(** A submission graded as right from any state, with a result that can
    be stored. *)
Lemma right_counted quiz_data a st wi ans word expected :
  Z.of_nat (length quiz_data) <= 2 ^ 63 ->
  a !! "wordIndex" = Some wi ->
  get a "answer" (JStr "") = JStr ans ->
  list_getitem quiz_data wi = Ok word ->
  same_spelling ans expected = true ->
  (level1 a = true /\ word !! "ca" = Some (JStr expected)) \/
  (level1 a = false /\ exists country,
     get a "country" JNull = JStr country /\ country <> "" /\
     word !! country = Some (JStr expected)) ->
  exists result,
    grade_answer quiz_data st a = Ok (counted st result true) /\
    storable result.
Proof.
  intros Hlen Hwi Hans Hword Hsame Hcase.
  destruct (AnswerFacts.index_adapts _ _ _ Hlen Hword) as [z Hz].
  destruct Hcase as [[Hl1 Hca] | [Hl1 (country & Hc & Hne & Hk)]].
  - rewrite (GradeFacts.grade_level1 _ _ _ _ _ _ _ Hwi Hans Hword Hl1 Hca).
    simpl. rewrite Hsame. eexists. split; [done |].
    by eapply AnswerFacts.storable_result.
  - rewrite (GradeFacts.grade_country _ _ _ _ _ _ _ _
               Hwi Hans Hword Hl1 Hc Hne Hk).
    simpl. rewrite Hsame. eexists. split; [done |].
    by eapply AnswerFacts.storable_country_result.
Qed.

Lemma grade_from_right quiz_data answers :
  Forall (fun a => forall st, exists result,
            grade_answer quiz_data st a = Ok (counted st result true) /\
            storable result) answers ->
  forall st, Forall storable (results st) ->
  exists st',
    grade_from quiz_data st answers = Ok st' /\
    total_count st' = total_count st + len answers /\
    correct_count st' = correct_count st + len answers /\
    Forall storable (results st').
Proof.
  unfold grade_from, len.
  induction 1 as [|a answers Ha _ IH]; intros st Hst; simpl.
  - exists st. repeat split; [lia | lia | done].
  - destruct (Ha st) as (result & -> & Hres). simpl.
    destruct (IH (counted st result true)) as (st' & -> & Ht & Hc & Hs).
    { simpl. apply Forall_app. split; [done | by constructor]. }
    exists st'. split; [done |]. rewrite Ht, Hc. simpl.
    repeat split; [lia | lia | done].
Qed.

End QuizFacts.

(** X14. [get_quiz] does not fail, whatever [random.randint] draws from
    its ranges: it returns one question per group of the catalog with
    [LEVEL_DESCRIPTIONS], every question's level has a description
    there, and every spelling of a question is a non-empty string with
    no white space at either end. *)
Theorem get_quiz_described {rng} (randint : rng -> Z -> Z -> Z * rng) (g : rng) :
  in_range randint ->
  exists quiz_data g',
    get_quiz randint g = Ok (quiz_data, LEVEL_DESCRIPTIONS, g') /\
    length quiz_data = length WORD_GROUPS /\
    forall question, question ∈ quiz_data ->
      (exists z description,
         question !! "level" = Some (JInt z) /\
         LEVEL_DESCRIPTIONS !! z = Some description) /\
      (forall c, c ∈ COUNTRIES ->
         exists s, question !! c = Some (JStr s) /\ Str.trimmed s /\ s <> "").
Proof.
  intros Hrange.
  destruct (QuizFacts.generate_quiz_data_ok randint Hrange g)
    as (quiz_data & g' & Hgen).
  pose proof (QuizFacts.generated_questions randint Hrange _ _ _ Hgen) as Hall.
  exists quiz_data, g'. unfold get_quiz. rewrite Hgen. simpl.
  split; [done |].
  split; [by rewrite <- (Forall2_length _ _ _ Hall) |].
  intros question [i Hi]%list_elem_of_lookup. split.
  - destruct (Forall2_lookup_r _ _ _ _ _ Hall Hi)
      as (group & Hgroup & word & _ & _ & Hlevel & _).
    exists (level group). rewrite Hlevel.
    apply list_elem_of_lookup_2 in Hgroup.
    CatalogFacts.each_group Hgroup; by eexists.
  - intros c Hc. by eapply QuizFacts.generated_spelling.
Qed.

(** X15. From the generator to the grader: for a quiz sent by
    [get_quiz], a request in which every submission gives back the
    spelling the quiz holds for a country (in any letter case, with any
    white space around it) is graded with every submission counted and
    correct and a percentage of exactly 100, and every result can be
    stored; whenever the route answers such a request, that is what the
    response says. *)
Theorem echoed_quiz_scores_100 {rng} (randint : rng -> Z -> Z -> Z * rng)
    (g g' : rng) quiz_data descriptions answers :
  in_range randint ->
  get_quiz randint g = Ok (quiz_data, descriptions, g') ->
  0 < Z.of_nat (length answers) < 2 ^ 53 ->
  Forall (echoes quiz_data) answers ->
  (exists graded,
     grade quiz_data answers = Ok graded /\
     correct_count graded = len answers /\
     total_count graded = len answers /\
     percentage (correct_count graded) (total_count graded) = Ok 100 /\
     Forall storable (results graded)) /\
  (forall d ip_address timestamp resp d',
     check_answers d ip_address timestamp quiz_data answers = (Ok resp, d') ->
     resp_correct resp = len answers /\
     resp_total resp = len answers /\
     resp_percentage resp = 100).
Proof.
  intros Hrange Hquiz Hlen Hall.
  unfold get_quiz in Hquiz.
  destruct (generate_quiz_data randint g) as [[quiz g1]|] eqn:Hgen;
    simpl in Hquiz; [|done].
  injection Hquiz as -> <- ->.
  pose proof (QuizFacts.generated_questions randint Hrange _ _ _ Hgen) as Hq.
  assert (Hsize : Z.of_nat (length quiz_data) <= 2 ^ 63).
  { rewrite <- (Forall2_length _ _ _ Hq). by vm_compute. }
  assert (Hright : Forall (fun a => forall st, exists result,
            grade_answer quiz_data st a = Ok (counted st result true) /\
            storable result) answers).
  { eapply Forall_impl; [exact Hall |]. simpl.
    intros a (i & question & c & s & l & v & r & Hwi & Hi & Hc & Hsp & Hans
              & Hl & Hr & Hv & Hcase) st.
    destruct (QuizFacts.generated_spelling randint Hrange _ _ _ _ _ _ Hgen Hi Hc)
      as (s' & Hs' & Htrim & _).
    assert (s' = s) as -> by congruence.
    eapply (QuizFacts.right_counted _ _ _ _ _ _ s Hsize Hwi Hans
              (QuizFacts.list_getitem_lookup _ _ _ Hi)).
    - unfold same_spelling.
      rewrite (StrFacts.lower_strip_variant l v r s Hl Hr Hv Htrim).
      apply String.eqb_refl.
    - destruct Hcase as [[Hl1 ->] | [Hl1 Hcountry]]; [by left |].
      right. split; [done |]. exists c. split; [done |].
      split; [by apply QuizFacts.country_not_empty | done]. }
  destruct (QuizFacts.grade_from_right _ _ Hright tally0)
    as (graded & Hg & Ht & Hc & Hst); [by constructor |].
  fold (grade quiz_data answers) in Hg. simpl in Ht, Hc.
  assert (Hp : percentage (correct_count graded) (total_count graded) = Ok 100).
  { rewrite Hc, Ht. unfold len. apply DyadicFacts.percentage_all. lia. }
  split; [by exists graded |].
  intros d ip_address timestamp resp d' Hcheck.
  destruct (CheckFacts.check_answers_ok _ _ _ _ _ _ _ Hcheck)
    as (graded' & rows & Hg' & Hp' & _ & Hcc & Htc & _).
  assert (graded' = graded) as -> by congruence.
  rewrite Hcc, Htc. do 2 (split; [done |]). congruence.
Qed.

(** ** The client address *)

Module AddressFacts.







End AddressFacts.


(** X17. The attempt a request stores is the one it reports: when the
    route answers, the attempts table has one row more, the last one; its
    identifier is the next one, its address the client address worked
    out from the connection and the header, its time stamp the one given,
    and its score and counters those of the response. The answer rows
    added are as many as the results of the response and all carry the
    identifier of that attempt. *)
Theorem reported_attempt_is_stored d remote_addr forwarded_for timestamp
    quiz_data answers resp d' :
  post_check d remote_addr forwarded_for timestamp quiz_data answers
    = (Ok resp, d') ->
  exists attempt rows,
    quiz_attempts d' = quiz_attempts d ++ [attempt] /\
    quiz_answers d' = quiz_answers d ++ rows /\
    Attempt.id attempt = last_attempt_id d + 1 /\
    Attempt.ip_address attempt = client_address remote_addr forwarded_for /\
    Attempt.timestamp attempt = timestamp /\
    Attempt.final_score attempt = resp_percentage resp /\
    Attempt.correct_count attempt = resp_correct resp /\
    Attempt.total_count attempt = resp_total resp /\
    length rows = length (resp_results resp) /\
    Forall (fun r => Answer.attempt_id r = Attempt.id attempt) rows.
Proof.
  unfold post_check. intros H.
  destruct (CheckFacts.check_answers_ok _ _ _ _ _ _ _ H)
    as (graded & rows & _ & _ & Hres & Hcc & Htc & Hrows & -> & _).
  eexists _, rows. simpl. do 8 (split; [done |]). split.
  - rewrite Hres. by eapply StoreFacts.answer_rows_length.
  - by eapply StoreFacts.answer_rows_attempt_id.
Qed.

(** ** What an answered request and a stored score say *)

(** X18. A request that is answered has counted every submission: a
    submission that grading passes over leaves a result without a
    correct answer, which cannot be stored. So the total of the response
    is the number of submissions, every result carries a correct answer,
    and the only answered request with a total of 0 is the one with no
    submission, which is stored as an attempt with score 0 and no answer
    row. *)
Theorem answered_request_counts_all d ip_address timestamp quiz_data answers
    resp d' :
  check_answers d ip_address timestamp quiz_data answers = (Ok resp, d') ->
  resp_total resp = len answers /\
  Forall (fun result => is_counted result = true) (resp_results resp) /\
  (resp_total resp = 0 ->
   answers = [] /\ resp_percentage resp = 0 /\
   quiz_answers d' = quiz_answers d /\
   exists attempt,
     quiz_attempts d' = quiz_attempts d ++ [attempt] /\
     Attempt.final_score attempt = 0).
Proof.
  intros H.
  destruct (CheckFacts.check_answers_ok _ _ _ _ _ _ _ H)
    as (graded & rows & Hg & Hp & Hres & _ & Htc & Hrows & -> & _).
  destruct (RowFacts.answer_rows_counts _ _ _ _ Hrows) as [Hall _].
  destruct (CountFacts.counters_count _ _ _ Hg) as [Ht _].
  destruct (GradeFacts.grade_from_inv _ _ _ _ Hg)
    as (rs & Hrs & Hlrs & _).
  simpl in Hrs.
  assert (Htotal : resp_total resp = len answers).
  { rewrite Htc, Ht, (RowFacts.count_all _ _ Hall), Hrs. unfold len.
    by rewrite Hlrs. }
  split; [done |]. split; [by rewrite Hres |].
  intros H0. rewrite H0 in Htotal.
  assert (answers = []) as ->.
  { destruct answers; [done |]. unfold len in Htotal. simpl in Htotal. lia. }
  rewrite Htc in H0. rewrite H0 in Hp. unfold percentage in Hp. simpl in Hp.
  injection Hp as <-.
  destruct rs; [|done]. rewrite Hrs in Hrows. simpl in Hrows.
  injection Hrows as <-. simpl. rewrite app_nil_r.
  repeat split; try done. by eexists.
Qed.

(** X19. What a perfect score means. In a database reached from
    [init_database], an attempt of fewer than 200 answers has
    [final_score = 100], and is counted by [get_statistics] as a perfect
    score, exactly when it has at least one answer row and every one of
    its answer rows is marked correct. *)
Theorem perfect_score_meaning d attempt :
  reachable d ->
  attempt ∈ quiz_attempts d ->
  Attempt.total_count attempt < 200 ->
  Attempt.final_score attempt = 100 <->
  answers_of d (Attempt.id attempt) <> [] /\
  Forall (fun r => Answer.is_correct r = 1) (answers_of d (Attempt.id attempt)).
Proof.
  intros Hr Hin Hsmall.
  destruct (RowFacts.reachable_is_consistent d Hr)
    as (_ & _ & _ & _ & _ & Hatt).
  destruct (Hatt _ Hin) as (Ht & Hc & Hp & _).
  unfold right_answers_of in Hc.
  set (rows := answers_of d (Attempt.id attempt)) in *.
  pose proof (length_filter (fun r => Answer.is_correct r = 1) rows) as Hle.
  unfold len in *. split.
  - intros H100. rewrite H100 in Hp.
    destruct (decide (Attempt.total_count attempt = 0)) as [H0 | H0].
    { rewrite H0 in Hp. unfold percentage in Hp. simpl in Hp. done. }
    destruct (decide (Attempt.correct_count attempt = Attempt.total_count attempt))
      as [Heq | Hne].
    + split; [destruct rows; [simpl in Ht; lia | done] |].
      rewrite Hc, Ht in Heq. apply Nat2Z.inj in Heq.
      apply Forall_forall. intros r Hr'.
      destruct (decide (Answer.is_correct r = 1)) as [|Hwrong]; [done |].
      pose proof (length_filter_lt (fun r => Answer.is_correct r = 1)
                    rows r Hr' Hwrong).
      lia.
    + destruct (DyadicFacts.percentage_not_all
                  (Attempt.correct_count attempt) (Attempt.total_count attempt))
        as (p & Hp' & Hb); [lia | lia |].
      rewrite Hp in Hp'. injection Hp' as <-. lia.
  - intros [Hne Hall].
    rewrite (AtomicFacts.filter_all _ _ Hall) in Hc.
    rewrite Hc, <- Ht in Hp.
    rewrite DyadicFacts.percentage_all in Hp; [by injection Hp |].
    destruct rows; [done |]. simpl in Ht. lia.
Qed.

(** ** A catalog with an empty group *)

(** X20. The generator over any catalog: when every group before it can
    be drawn from, a group without words makes [select_words], and so
    [generate_quiz_data], raise [ValueError], from [random.randint] on
    the empty range [0, -1]; no question is returned. *)
Theorem empty_group_raises {rng} (randint : rng -> Z -> Z -> Z * rng) (g : rng)
    pre group post :
  in_range randint ->
  Forall drawable pre ->
  words group = [] ->
  select_words_in randint (pre ++ group :: post) g = Raise ValueError /\
  generate_quiz_data_in randint (pre ++ group :: post) g = Raise ValueError.
Proof.
  intros Hrange Hpre Hempty.
  assert (Hsel : select_words_in randint (pre ++ group :: post) g
                 = Raise ValueError).
  { destruct (GenFacts.select_words_in_ok randint Hrange pre g Hpre)
      as (selected & g1 & Hsel & _).
    unfold select_words_in in *. unfold enumerate in *.
    rewrite imap_app, GradeFacts.for_each_app, Hsel. simpl.
    unfold checked_randint, len. by rewrite Hempty. }
  split; [done |]. unfold generate_quiz_data_in. by rewrite Hsel.
Qed.

(** ** Worked examples *)

(** C1: the claim fails for a country that is a key of the question but
    not a country code. The submission names ["note"]; the question, as
    the generator makes it for a word without a note, holds [""] under
    that key. The submission is not passed over: it is counted, its
    result carries a [correctAnswer], and the empty answer is graded
    correct. *)
Lemma country_note_is_graded :
  bool_decide ("note" ∈ COUNTRIES) = false /\
  level1 answer_note = false /\
  grade sample_quiz [answer_note] =
    Ok (Tally [ <["country" := JStr "note"]>
                  (graded_result answer_note (JInt 1) "" true (JStr "")) ]
              1 1) /\
  score_of (check_answers init_database sample_ip sample_time sample_quiz
              [answer_note]) = Some (1, 1, 100).
Proof. repeat split; vm_compute; reflexivity. Qed.

(** C2: the claim fails when no answer is correct. One wrong answer gives
    [total_count = 1] and a percentage of 0. *)
Lemma zero_percent_with_one_submission :
  score_of (check_answers init_database sample_ip sample_time sample_quiz
              [answer_canceled]) = Some (0, 1, 0).
Proof. vm_compute. reflexivity. Qed.

(** The product is a double and can fall short of an exact half: 23 of
    40 is 57.5 exactly, the double is 57.49999999999999, and it rounds
    to 57. *)
Lemma percentage_23_of_40 : percentage 23 40 = Ok 57.
Proof. vm_compute. reflexivity. Qed.


(** The submission for [gb] of the scenario is graded against ["tyre"];
    the same submission without a country is passed over. *)
Lemma country_grading_witness :
  answer_tyre !! "wordIndex" = Some (JInt 1) /\
  level1 answer_tyre = false /\
  (exists result,
     grade_answer sample_quiz tally0 answer_no_country
       = Ok (passed_over tally0 result) /\
     result !! "correctAnswer" = Some JNull) /\
  (exists result verdict,
     grade_answer sample_quiz tally0 answer_tyre
       = Ok (counted tally0 result verdict) /\
     result !! "correctAnswer" = Some (JStr "tyre")).
Proof.
  split; [vm_compute; reflexivity |]. split; [vm_compute; reflexivity |].
  split.
  - destruct (country_grading sample_quiz tally0 answer_no_country (JInt 1)
                "tyre" question_tyre) as [Hskip _];
      [vm_compute; reflexivity ..|].
    destruct Hskip as (result & H & _ & _ & _ & Hca & _);
      [left; vm_compute; reflexivity |].
    exists result. split; assumption.
  - destruct (country_grading sample_quiz tally0 answer_tyre (JInt 1)
                "tyre" question_tyre) as [_ Hgraded];
      [vm_compute; reflexivity ..|].
    destruct (Hgraded "gb" "tyre") as (result & verdict & H & _ & _ & _ & Hca & _);
      [vm_compute; reflexivity | discriminate | vm_compute; reflexivity |].
    exists result, verdict. split; assumption.
Defined.

(** The scenario: two submissions, both correct. *)
Lemma percentage_of_grading_witness :
  grade sample_quiz [answer_cancelled; answer_tyre] = Ok sample_graded /\
  exists p, percentage 2 2 = Ok p /\ 0 <= p <= 100.
Proof.
  assert (H : grade sample_quiz [answer_cancelled; answer_tyre] = Ok sample_graded)
    by (vm_compute; reflexivity).
  split; [exact H |].
  destruct (percentage_of_grading sample_quiz [answer_cancelled; answer_tyre]
              sample_graded H) as (p & Hp & Hb & _); [simpl; lia |].
  exists p. split; assumption.
Defined.


(** C4: the two consequences the claim draws fail on a quiz the client
    sends. Against a question whose [ca] value ends with a blank, that
    very value is graded wrong, the answer being trimmed and the value
    not; against a question whose US spelling differs from the [ca]
    value by a capital, the US spelling is graded correct. *)
Lemma level1_client_quiz_misgraded :
  (level1 answer_spaced = true /\
   question_spaced !! "ca" = Some (JStr "cancelled ") /\
   get answer_spaced "answer" (JStr "") = JStr "cancelled " /\
   score_of (check_answers init_database sample_ip sample_time
               [question_spaced] [answer_spaced]) = Some (0, 1, 0)) /\
  (level1 answer_cased = true /\
   question_cased !! "us" = Some (JStr "Cancelled") /\
   question_cased !! "ca" = Some (JStr "cancelled") /\
   String.eqb "Cancelled" "cancelled" = false /\
   get answer_cased "answer" (JStr "") = JStr "Cancelled" /\
   score_of (check_answers init_database sample_ip sample_time
               [question_cased] [answer_cased]) = Some (1, 1, 100)).
Proof. repeat split; vm_compute; reflexivity. Qed.

(** ["Cancelled "] and [" CANCELED "] for the question the generator
    makes of the first word of the catalog. *)
Lemma level1_grading_witness :
  level1 answer_cancelled = true /\
  question_cancelled !! "ca" = Some (JStr "cancelled") /\
  group_cancelled ∈ WORD_GROUPS /\
  (exists result,
     grade_answer sample_quiz tally0 answer_cancelled
       = Ok (counted tally0 result true) /\
     result !! "correct" = Some (JBool true)) /\
  (exists result,
     grade_answer sample_quiz tally0 answer_us_padded
       = Ok (counted tally0 result false) /\
     result !! "correctAnswer" = Some (JStr "cancelled")).
Proof.
  assert (Hg : group_cancelled ∈ WORD_GROUPS) by apply list_elem_of_here.
  assert (Hw : variant_cancelled ∈ words group_cancelled)
    by apply list_elem_of_here.
  split; [vm_compute; reflexivity |]. split; [vm_compute; reflexivity |].
  split; [exact Hg |]. split.
  - destruct (level1_grading sample_quiz tally0 answer_cancelled (JInt 0)
                "Cancelled " question_cancelled "cancelled")
      as (result & verdict & H & _ & _ & _ & Hc & _ & _ & Hcat);
      [vm_compute; reflexivity ..|].
    assert (Hv : verdict = true).
    { apply (Hcat group_cancelled variant_cancelled "canceled" Hg eq_refl Hw
               eq_refl eq_refl "" "Cancelled" " " eq_refl eq_refl eq_refl).
      vm_compute; reflexivity. }
    rewrite Hv in H, Hc. exists result. split; assumption.
  - destruct (level1_grading sample_quiz tally0 answer_us_padded (JInt 0)
                " CANCELED " question_cancelled "cancelled")
      as (result & verdict & H & _ & _ & Hca & _ & _ & _ & Hcat);
      [vm_compute; reflexivity ..|].
    assert (Hv : verdict = false).
    { apply (Hcat group_cancelled variant_cancelled "canceled" Hg eq_refl Hw
               eq_refl eq_refl " " "CANCELED" " " eq_refl eq_refl eq_refl).
      vm_compute; reflexivity. }
    rewrite Hv in H. exists result. split; assumption.
Defined.

(** A run of the generator; its first and fifth questions are those of
    the scenario. *)
Lemma generate_quiz_one_per_group_witness :
  in_range alternate /\
  (exists quiz_data g',
     generate_quiz_data alternate true = Ok (quiz_data, g') /\
     length quiz_data = 8%nat) /\
  quiz_of (generate_quiz_data alternate true) !! 0%nat = Some question_cancelled /\
  quiz_of (generate_quiz_data alternate true) !! 4%nat = Some question_tyre.
Proof.
  assert (Hr : in_range alternate).
  { intros g a b Hab. destruct g; simpl; lia. }
  split; [exact Hr |]. split.
  - destruct (generate_quiz_one_per_group alternate true Hr)
      as (selected & quiz_data & g' & _ & Hq & Hlen & _).
    exists quiz_data, g'. split; [exact Hq | exact Hlen].
  - split; vm_compute; reflexivity.
Defined.

(** A second request, with one wrong answer, on the database the
    scenario leaves: the scores are 100 and 0, and the average goes
    from 100 to 50. *)
Lemma statistics_after_recording_witness :
  scores_ok (snd sample_request) /\
  sample_second = (Ok (response_of sample_second), snd sample_second) /\
  scores (snd sample_second) = [100; 0] /\
  total_attempts (resp_statistics (response_of sample_second)) = 2 /\
  perfect_scores (resp_statistics (response_of sample_second)) = 1 /\
  average_score (resp_statistics (response_of sample_second)) = 50.
Proof.
  assert (Hs : scores (snd sample_request) = [100])
    by (vm_compute; reflexivity).
  assert (Hok : scores_ok (snd sample_request)).
  { split; [|vm_compute; reflexivity].
    rewrite Hs. apply Forall_singleton. lia. }
  assert (H : sample_second
              = (Ok (response_of sample_second), snd sample_second))
    by (vm_compute; reflexivity).
  split; [exact Hok |]. split; [exact H |].
  destruct (statistics_after_recording _ _ _ _ _ _ _ Hok H)
    as (before & _ & _ & Hsc & Ht & Hp & Ht0 & Hp0 & _ & _ & _ & Havg).
  assert (Hpct : resp_percentage (response_of sample_second) = 0)
    by (vm_compute; reflexivity).
  rewrite Hs, Hpct in *.
  split; [exact Hsc |].
  split; [rewrite Ht, Ht0; reflexivity |].
  split; [rewrite Hp, Hp0; reflexivity |].
  assert (Hm := Havg ltac:(vm_compute; reflexivity) ltac:(simpl; lia)).
  change (len [100]) with 1 in Hm. change (sum [100]) with 100 in Hm.
  lia.
Defined.

(** Saving the graded scenario to a new database. *)
Lemma attempt_saved_atomically_witness :
  sequenced init_database /\ referential init_database /\
  (forall s,
     s ∈ seen (snd (with_closing init_database
                      (save_attempt sample_ip sample_time 100 sample_graded)))
         ++ [disk (snd (with_closing init_database
                          (save_attempt sample_ip sample_time 100 sample_graded)))] ->
     referential s) /\
  sequenced (disk (snd (with_closing init_database
                          (save_attempt sample_ip sample_time 100 sample_graded)))).
Proof.
  assert (Hs : sequenced init_database).
  { split; intros r Hr; simpl in Hr; destruct (proj1 (elem_of_nil r) Hr). }
  assert (Hr : referential init_database).
  { intros r Hin; simpl in Hin; destruct (proj1 (elem_of_nil r) Hin). }
  split; [exact Hs |]. split; [exact Hr |].
  destruct (attempt_saved_atomically init_database sample_ip sample_time 100
              sample_graded _ _ Hs Hr (surjective_pairing _))
    as (Hall & _ & _ & Hseq).
  split; [|exact Hseq].
  intros s Hin. exact (proj1 (Hall s Hin)).
Defined.

(** [["  Cancelled "]], with white space on both sides, is returned and
    stored as ["Cancelled"]. *)
Lemma user_answer_trimmed_only_witness :
  [answer_padded] !! 0%nat = Some answer_padded /\
  get answer_padded "answer" (JStr "") = JStr "  Cancelled " /\
  sample_padded = (Ok (response_of sample_padded), snd sample_padded) /\
  exists result row,
    resp_results (response_of sample_padded) !! 0%nat = Some result /\
    result !! "userAnswer" = Some (JStr "Cancelled") /\
    quiz_answers (snd sample_padded) !! 0%nat = Some row /\
    Answer.user_answer row = SqlText "Cancelled" /\
    starts_with_space "Cancelled" = false /\
    ends_with_space "Cancelled" = false.
Proof.
  assert (H : sample_padded
              = (Ok (response_of sample_padded), snd sample_padded))
    by (vm_compute; reflexivity).
  assert (Ha : get answer_padded "answer" (JStr "") = JStr "  Cancelled ")
    by (vm_compute; reflexivity).
  split; [reflexivity |]. split; [exact Ha |]. split; [exact H |].
  destruct (user_answer_trimmed_only _ _ _ _ _ _ _ 0%nat answer_padded H
              eq_refl)
    as (ans & result & row & Hans & Hres & Hua & Hrow & Hcol & _ & Hst & Hen).
  assert (ans = "  Cancelled ") as -> by congruence.
  change (Str.strip "  Cancelled ") with "Cancelled" in *.
  exists result, row. repeat split; assumption.
Defined.

(** The variant of group 5. *)
Lemma catalog_variants_witness :
  group_tyre ∈ WORD_GROUPS /\ variant_tyre ∈ words group_tyre /\
  all_populated variant_tyre = true /\
  exists s, variant_tyre !! "gb" = Some (JStr s) /\ s <> "".
Proof.
  assert (Hg : group_tyre ∈ WORD_GROUPS)
    by (do 4 apply list_elem_of_further; apply list_elem_of_here).
  assert (Hw : variant_tyre ∈ words group_tyre) by apply list_elem_of_here.
  split; [exact Hg |]. split; [exact Hw |].
  destruct (catalog_variants group_tyre variant_tyre Hg Hw) as (Hk & Hall & _).
  split; [exact Hall |].
  apply Hk. do 2 apply list_elem_of_further. apply list_elem_of_here.
Defined.

(** The scenario, and the loop after its first submission. *)
Lemma grade_one_result_per_submission_witness :
  grade sample_quiz [answer_cancelled; answer_tyre] = Ok sample_graded /\
  length (results sample_graded) = 2%nat /\
  exists st,
    grade sample_quiz (take 1 [answer_cancelled; answer_tyre]) = Ok st /\
    counters_ok st 1.
Proof.
  assert (H : grade sample_quiz [answer_cancelled; answer_tyre] = Ok sample_graded)
    by (vm_compute; reflexivity).
  split; [exact H |].
  destruct (grade_one_result_per_submission _ _ _ H) as (Hlen & _ & Hsteps).
  split; [exact Hlen |].
  destruct (Hsteps 1%nat) as (st & Hst & _ & Hc & _); [simpl; lia |].
  exists st. split; assumption.
Defined.

(** The scenario with a third submission that names no country. *)
Lemma passed_over_result_fails_request_witness :
  results (passed_over sample_graded
             (graded_result answer_no_country (JInt 1) "tyre" false JNull))
    !! 2%nat
  = Some (graded_result answer_no_country (JInt 1) "tyre" false JNull) /\
  check_answers init_database sample_ip sample_time sample_quiz
    [answer_cancelled; answer_tyre; answer_no_country]
  = (Raise IntegrityError, init_database).
Proof.
  split; [reflexivity |].
  destruct (passed_over_result_fails_request init_database sample_ip
              sample_time sample_quiz
              [answer_cancelled; answer_tyre; answer_no_country]
              (passed_over sample_graded
                 (graded_result answer_no_country (JInt 1) "tyre" false JNull))
              2%nat
              (graded_result answer_no_country (JInt 1) "tyre" false JNull))
    as [e He];
    [vm_compute; reflexivity | simpl; lia | reflexivity
    | vm_compute; reflexivity |].
  vm_compute. reflexivity.
Defined.

(** The product can also round up to 100: 199 of 200 is 99.5 as a
    double, and [round] takes a half to the even integer. *)
Lemma percentage_199_of_200 : percentage 199 200 = Ok 100.
Proof. vm_compute. reflexivity. Qed.

(** The two submissions of the scenario, in the other order. *)
Lemma grade_permutation_witness :
  [answer_cancelled; answer_tyre] ≡ₚ [answer_tyre; answer_cancelled] /\
  grade sample_quiz [answer_cancelled; answer_tyre] = Ok sample_graded /\
  exists g',
    grade sample_quiz [answer_tyre; answer_cancelled] = Ok g' /\
    correct_count g' = 2 /\ total_count g' = 2.
Proof.
  assert (Hp : [answer_cancelled; answer_tyre] ≡ₚ [answer_tyre; answer_cancelled])
    by apply perm_swap.
  assert (H : grade sample_quiz [answer_cancelled; answer_tyre] = Ok sample_graded)
    by (vm_compute; reflexivity).
  split; [exact Hp |]. split; [exact H |].
  destruct (grade_permutation sample_quiz _ _ _ Hp H)
    as (g' & Hg' & Hc & Ht & _).
  exists g'. repeat split; assumption.
Defined.

(** The counters of the scenario, read off its two results. *)
Lemma counters_read_off_results_witness :
  grade sample_quiz [answer_cancelled; answer_tyre] = Ok sample_graded /\
  count is_counted (results sample_graded) = 2 /\
  count is_right (results sample_graded) = 2.
Proof.
  assert (H : grade sample_quiz [answer_cancelled; answer_tyre] = Ok sample_graded)
    by (vm_compute; reflexivity).
  split; [exact H |].
  destruct (counters_read_off_results _ _ _ H) as (Ht & Hc & _).
  split; [rewrite <- Ht | rewrite <- Hc]; reflexivity.
Defined.

(** An answer that is a number, after a well-formed submission. *)
Lemma wrong_type_fails_request_witness :
  answer_number ∈ [answer_cancelled; answer_number] /\
  answer_number !! "wordIndex" = Some (JInt 0) /\
  is_str (get answer_number "answer" (JStr "")) = false /\
  grade_answer sample_quiz tally0 answer_number = Raise AttributeError /\
  exists e, check_answers init_database sample_ip sample_time sample_quiz
              [answer_cancelled; answer_number] = (Raise e, init_database).
Proof.
  assert (Hin : answer_number ∈ [answer_cancelled; answer_number])
    by (apply list_elem_of_further, list_elem_of_here).
  assert (Hwi : answer_number !! "wordIndex" = Some (JInt 0))
    by (vm_compute; reflexivity).
  assert (Hs : is_str (get answer_number "answer" (JStr "")) = false)
    by (vm_compute; reflexivity).
  split; [exact Hin |]. split; [exact Hwi |]. split; [exact Hs |].
  destruct (wrong_type_fails_request init_database sample_ip sample_time
              sample_quiz _ _ _ Hin Hwi (or_introl Hs)) as [Hg Hc].
  split; [|exact Hc]. rewrite (Hg tally0), Hs. reflexivity.
Defined.

(** The key ["level"] of a generated question holds a number. *)
Lemma country_level_fails_request_witness :
  answer_level ∈ [answer_level] /\
  level1 answer_level = false /\
  question_tyre !! "level" = Some (JInt 2) /\
  grade_answer sample_quiz tally0 answer_level = Raise AttributeError /\
  exists e, check_answers init_database sample_ip sample_time sample_quiz
              [answer_level] = (Raise e, init_database).
Proof.
  assert (Hin : answer_level ∈ [answer_level]) by apply list_elem_of_here.
  assert (Hl : level1 answer_level = false) by (vm_compute; reflexivity).
  assert (Hk : question_tyre !! "level" = Some (JInt 2))
    by (vm_compute; reflexivity).
  split; [exact Hin |]. split; [exact Hl |]. split; [exact Hk |].
  destruct (country_level_fails_request init_database sample_ip sample_time
              sample_quiz [answer_level] answer_level (JInt 1) "2"
              question_tyre "level" (JInt 2) Hin)
    as (Hg & Hc & _);
    [vm_compute; reflexivity | vm_compute; reflexivity
    | vm_compute; reflexivity | exact Hl | vm_compute; reflexivity
    | discriminate | exact Hk | reflexivity |].
  split; [apply Hg | exact Hc].
Defined.

(** Index [-2] of a quiz of two questions is its first question. *)
Lemma negative_index_from_end_witness :
  0 < 2 <= Z.of_nat (length sample_quiz) /\
  answer_from_end !! "wordIndex" = Some (JInt (- 2)) /\
  exists result,
    grade_answer sample_quiz tally0 answer_from_end
      = Ok (counted tally0 result true) /\
    result !! "correctAnswer" = Some (JStr "cancelled").
Proof.
  assert (Hk : 0 < 2 <= Z.of_nat (length sample_quiz)) by (simpl; lia).
  assert (Hwi : answer_from_end !! "wordIndex" = Some (JInt (- 2)))
    by (vm_compute; reflexivity).
  split; [exact Hk |]. split; [exact Hwi |].
  destruct (negative_index_from_end sample_quiz tally0 answer_from_end 2
              "cancelled" question_cancelled "cancelled" Hk Hwi)
    as (result & Hg & _ & Hca & _);
    [vm_compute; reflexivity | reflexivity | vm_compute; reflexivity
    | vm_compute; reflexivity |].
  exists result. split; [exact Hg | exact Hca].
Defined.

(** Two of two. *)
Lemma percentage_100_witness :
  0 <= 2 <= 2 /\ 0 < 2 < 2 ^ 53 /\ percentage 2 2 = Ok 100.
Proof.
  assert (Hc : 0 <= 2 <= 2) by lia.
  assert (Ht : 0 < 2 < 2 ^ 53) by lia.
  split; [exact Hc |]. split; [exact Ht |].
  exact (proj1 (percentage_100 2 2 Hc Ht) eq_refl).
Defined.

(** The scenario adds its rows to a new database. *)
Lemma tables_only_grow_witness :
  sample_request = (fst sample_request, snd sample_request) /\
  quiz_attempts init_database `prefix_of` quiz_attempts (snd sample_request) /\
  (length (quiz_attempts (snd sample_request)) <= 1)%nat.
Proof.
  assert (H : sample_request = (fst sample_request, snd sample_request))
    by apply surjective_pairing.
  split; [exact H |].
  destruct (tables_only_grow _ _ _ _ _ _ _ H) as (Ha & _ & _ & _ & Hn).
  split; [exact Ha | exact Hn].
Defined.

(** The third submission is passed over and the insert of its result
    fails; nothing of the request is in the database. *)
Lemma failed_request_changes_nothing_witness :
  scores_ok init_database /\
  sample_failed = (Raise IntegrityError, snd sample_failed) /\
  snd sample_failed = init_database.
Proof.
  assert (Hok : scores_ok init_database).
  { split; [constructor | vm_compute; reflexivity]. }
  assert (H : sample_failed = (Raise IntegrityError, snd sample_failed))
    by (vm_compute; reflexivity).
  split; [exact Hok |]. split; [exact H |].
  apply (failed_request_changes_nothing init_database sample_ip sample_time
           sample_quiz [answer_cancelled; answer_tyre; answer_no_country]
           IntegrityError (snd sample_failed) Hok);
    [vm_compute; reflexivity | simpl; lia | exact H].
Defined.

(** The database the scenario leaves. *)
Lemma reachable_consistent_witness :
  reachable (snd sample_request) /\ consistent (snd sample_request).
Proof.
  assert (Hr : reachable (snd sample_request)).
  { apply (reach_request init_database sample_ip sample_time sample_quiz
             [answer_cancelled; answer_tyre] (fst sample_request)
             (snd sample_request) reach_init);
      [simpl; lia | apply surjective_pairing]. }
  split; [exact Hr | exact (reachable_consistent _ Hr)].
Defined.

(** The statistics of the database the scenario leaves. *)
Lemma statistics_of_reachable_witness :
  reachable (snd sample_request) /\
  100 * len (quiz_attempts (snd sample_request)) < 2 ^ 53 /\
  exists stats,
    get_statistics (snd sample_request) = Ok stats /\
    0 <= average_score stats <= 100.
Proof.
  assert (Hr : reachable (snd sample_request)).
  { apply (reach_request init_database sample_ip sample_time sample_quiz
             [answer_cancelled; answer_tyre] (fst sample_request)
             (snd sample_request) reach_init);
      [simpl; lia | apply surjective_pairing]. }
  assert (Hn : 100 * len (quiz_attempts (snd sample_request)) < 2 ^ 53)
    by (vm_compute; reflexivity).
  split; [exact Hr |]. split; [exact Hn |].
  destruct (statistics_of_reachable _ Hr Hn) as (stats & Hs & _ & Ha & _).
  exists stats. split; [exact Hs | exact Ha].
Defined.


(** A run of [get_quiz]. *)
Lemma get_quiz_described_witness :
  in_range alternate /\
  exists quiz_data g',
    get_quiz alternate true = Ok (quiz_data, LEVEL_DESCRIPTIONS, g') /\
    length quiz_data = 8%nat.
Proof.
  assert (Hr : in_range alternate).
  { intros g a b Hab. destruct g; simpl; lia. }
  split; [exact Hr |].
  destruct (get_quiz_described alternate true Hr)
    as (quiz_data & g' & Hq & Hlen & _).
  exists quiz_data, g'. split; [exact Hq | exact Hlen].
Defined.

(** ["Cancelled "] for the first question of a generated quiz and
    ["TYRE"] for [gb] of its fifth. *)
Lemma echoed_quiz_scores_100_witness :
  in_range alternate /\
  get_quiz alternate true = Ok (sample_generated, LEVEL_DESCRIPTIONS, true) /\
  Forall (echoes sample_generated) [answer_cancelled; answer_fifth] /\
  (exists graded,
     grade sample_generated [answer_cancelled; answer_fifth] = Ok graded /\
     correct_count graded = 2 /\
     percentage (correct_count graded) (total_count graded) = Ok 100) /\
  sample_echo = (Ok (response_of sample_echo), snd sample_echo) /\
  resp_percentage (response_of sample_echo) = 100.
Proof.
  assert (Hr : in_range alternate).
  { intros g a b Hab. destruct g; simpl; lia. }
  assert (Hq : get_quiz alternate true
               = Ok (sample_generated, LEVEL_DESCRIPTIONS, true))
    by (vm_compute; reflexivity).
  assert (Hall : Forall (echoes sample_generated) [answer_cancelled; answer_fifth]).
  { constructor; [|constructor; [|constructor]].
    - exists 0%nat, question_cancelled, "ca", "cancelled", "", "Cancelled", " ".
      split; [vm_compute; reflexivity |]. split; [vm_compute; reflexivity |].
      split; [apply list_elem_of_further, list_elem_of_here |].
      split; [vm_compute; reflexivity |]. split; [vm_compute; reflexivity |].
      split; [reflexivity |]. split; [reflexivity |].
      split; [vm_compute; reflexivity |]. left.
      split; [vm_compute; reflexivity | reflexivity].
    - exists 4%nat, question_tyre, "gb", "tyre", "", "TYRE", "".
      split; [vm_compute; reflexivity |]. split; [vm_compute; reflexivity |].
      split; [do 2 apply list_elem_of_further; apply list_elem_of_here |].
      split; [vm_compute; reflexivity |]. split; [vm_compute; reflexivity |].
      split; [reflexivity |]. split; [reflexivity |].
      split; [vm_compute; reflexivity |]. right.
      split; vm_compute; reflexivity. }
  assert (H : sample_echo = (Ok (response_of sample_echo), snd sample_echo))
    by (vm_compute; reflexivity).
  split; [exact Hr |]. split; [exact Hq |]. split; [exact Hall |].
  destruct (echoed_quiz_scores_100 alternate true true sample_generated
              LEVEL_DESCRIPTIONS [answer_cancelled; answer_fifth] Hr Hq)
    as [(graded & Hg & Hc & _ & Hp & _) Hresp];
    [simpl; lia | exact Hall |].
  split; [exists graded; repeat split; assumption |].
  split; [exact H |].
  exact (proj2 (proj2 (Hresp init_database sample_ip sample_time
                         (response_of sample_echo) (snd sample_echo) H))).
Defined.


(** The attempt of the scenario, posted through the proxies. *)
Lemma reported_attempt_is_stored_witness :
  sample_post = (Ok (response_of sample_post), snd sample_post) /\
  exists attempt,
    quiz_attempts (snd sample_post) = [attempt] /\
    Attempt.ip_address attempt = client_address sample_proxy (Some sample_header) /\
    Attempt.final_score attempt = resp_percentage (response_of sample_post).
Proof.
  assert (H : sample_post = (Ok (response_of sample_post), snd sample_post))
    by (vm_compute; reflexivity).
  split; [exact H |].
  destruct (reported_attempt_is_stored _ _ _ _ _ _ _ _ H)
    as (attempt & rows & Hq & _ & _ & Hip & _ & Hs & _).
  exists attempt. split; [exact Hq |]. split; [exact Hip | exact Hs].
Defined.

(** The scenario counted its two submissions. *)
Lemma answered_request_counts_all_witness :
  sample_request = (Ok (response_of sample_request), snd sample_request) /\
  resp_total (response_of sample_request) = 2.
Proof.
  assert (H : sample_request
              = (Ok (response_of sample_request), snd sample_request))
    by (vm_compute; reflexivity).
  split; [exact H |].
  exact (proj1 (answered_request_counts_all _ _ _ _ _ _ _ H)).
Defined.

(** The attempt of the scenario is a perfect one. *)
Lemma perfect_score_meaning_witness :
  reachable (snd sample_request) /\
  sample_attempt ∈ quiz_attempts (snd sample_request) /\
  Attempt.final_score sample_attempt = 100 /\
  Forall (fun r => Answer.is_correct r = 1)
         (answers_of (snd sample_request) (Attempt.id sample_attempt)).
Proof.
  assert (Hr : reachable (snd sample_request)).
  { apply (reach_request init_database sample_ip sample_time sample_quiz
             [answer_cancelled; answer_tyre] (fst sample_request)
             (snd sample_request) reach_init);
      [simpl; lia | apply surjective_pairing]. }
  assert (Hq : quiz_attempts (snd sample_request) = [sample_attempt])
    by (vm_compute; reflexivity).
  assert (Hin : sample_attempt ∈ quiz_attempts (snd sample_request)).
  { rewrite Hq. apply list_elem_of_here. }
  split; [exact Hr |]. split; [exact Hin |]. split; [reflexivity |].
  assert (Hsmall : Attempt.total_count sample_attempt < 200)
    by (vm_compute; reflexivity).
  exact (proj2 (proj1 (perfect_score_meaning _ _ Hr Hin Hsmall) eq_refl)).
Defined.

(** The catalog with a group without words after its eight groups. *)
Lemma empty_group_raises_witness :
  in_range alternate /\
  words group_empty = [] /\
  generate_quiz_data_in alternate (WORD_GROUPS ++ [group_empty]) true
    = Raise ValueError.
Proof.
  assert (Hr : in_range alternate).
  { intros g a b Hab. destruct g; simpl; lia. }
  split; [exact Hr |]. split; [reflexivity |].
  exact (proj2 (empty_group_raises alternate true WORD_GROUPS group_empty []
                  Hr CatalogFacts.catalog_drawable eq_refl)).
Defined.
